(** * fastgcs: credential resolution and conditional-fetch caching

    A shallow embedding of the two implementations of fastgcs that live in
    this repository, the Go package ([package fastgcs]) and the Ruby class
    ([class FastGCS]), together with the properties of the design document
    that can be stated over them.

    Conventions.
    - Strings are [string] (sequences of 8-bit characters, as Go strings and
      Ruby binary strings are); file contents are [list ascii].
    - Instants are integers ([Z]); [time.Now().Before(e)] and
      [expiry > Time.now] are both [now < e].
    - The file system is a finite map from paths to files; the network is a
      function from requests to responses carried by the world. *)

From Stdlib Require Import ZArith Ascii String List Bool Lia.
From stdpp Require Import base option list strings pretty gmap.

Local Open Scope string_scope.
Local Arguments String.append : simpl nomatch.

(** ** Characters and strings *)

Definition slash : ascii := "/"%char.
Definition dash : ascii := "-"%char.
Definition LF : ascii := "010"%char.

(** [strip_prefix p s] is [Some t] when [s = p ++ t]. *)
Fixpoint strip_prefix (p s : string) : option string :=
  match p with
  | EmptyString => Some s
  | String c p' =>
      match s with
      | String x s' => if Ascii.eqb c x then strip_prefix p' s' else None
      | EmptyString => None
      end
  end.

(** [span f s] splits [s] after its longest prefix whose characters all
    satisfy [f]. *)
Fixpoint span (f : ascii -> bool) (s : string) : string * string :=
  match s with
  | String x t =>
      if f x then let '(a, b) := span f t in (String x a, b)
      else (EmptyString, s)
  | EmptyString => (EmptyString, EmptyString)
  end.

(** Every character of [s] satisfies [f]. *)
Fixpoint all_chars (f : ascii -> bool) (s : string) : bool :=
  match s with
  | String x t => f x && all_chars f t
  | EmptyString => true
  end.

Definition is_not (c x : ascii) : bool := negb (Ascii.eqb c x).

(** [strings.ReplaceAll(s, "/", "-")] and [s.tr('/', '-')]: both replace
    every occurrence of the one-character string. *)
Fixpoint replace_char (a b : ascii) (s : string) : string :=
  match s with
  | String x t => String (if Ascii.eqb a x then b else x) (replace_char a b t)
  | EmptyString => EmptyString
  end.

(** ** Regular expressions

    The fragment of the regexp syntax the repository uses, with the
    leftmost-first (backtracking) semantics that both Go's [regexp] and
    Ruby's [Regexp] give it.  Repetition is only ever applied to a single
    character class, which keeps the matcher structurally recursive. *)

Module Regexp.

Inductive cclass : Type :=
| CChr (c : ascii)      (* the character c *)
| CDot                  (* .    : any character but line feed *)
| CNot (c : ascii).     (* [^c] : any character but c, line feed included *)

Definition cmatch (k : cclass) (x : ascii) : bool :=
  match k with
  | CChr c => Ascii.eqb c x
  | CDot => is_not LF x
  | CNot c => is_not c x
  end.

Inductive re : Type :=
| Eps
| Bol                   (* ^ *)
| Eol                   (* $ *)
| One (k : cclass)
| Star (k : cclass)     (* k*, greedy *)
| Plus (k : cclass)     (* k+, greedy *)
| Group (r : re)        (* ( r ), capturing *)
| Cat (r1 r2 : re).

(** A literal string is the concatenation of its characters. *)
Fixpoint Lit (p : string) : re :=
  match p with
  | String c p' => Cat (One (CChr c)) (Lit p')
  | EmptyString => Eps
  end.

(** How [^] and [$] are read.  Go (RE2 syntax, no [m] flag): beginning and
    end of the text.  Ruby: beginning and end of any line. *)
Inductive anchors : Type := TextAnchors | LineAnchors.

(** Matcher state: the character before the cursor (if any), the text after
    it, and the groups closed so far, in closing order. *)
Record st : Type := St { prev : option ascii; rest : string; caps : list string }.

(** The text consumed between two cursors [before] and [after]. *)
Definition taken (before after : string) : string :=
  substring 0 (String.length before - String.length after) before.

Definition at_bol (a : anchors) (s : st) : bool :=
  match prev s, a with
  | None, _ => true
  | Some x, LineAnchors => Ascii.eqb LF x
  | Some _, TextAnchors => false
  end.

Definition at_eol (a : anchors) (s : st) : bool :=
  match rest s, a with
  | EmptyString, _ => true
  | String x _, LineAnchors => Ascii.eqb LF x
  | String _ _, TextAnchors => false
  end.

Section Matcher.
Context {A : Type}.

(** Greedy loop of [k*]: take one more character when possible and fall
    back to stopping here when the continuation fails further on. *)
Fixpoint star_loop (k : cclass) (cont : st -> option A)
    (cs : list string) (p : option ascii) (r : string) : option A :=
  match r with
  | String x t =>
      if cmatch k x then
        match star_loop k cont cs (Some x) t with
        | Some res => Some res
        | None => cont (St p r cs)
        end
      else cont (St p r cs)
  | EmptyString => cont (St p r cs)
  end.

Fixpoint run (a : anchors) (r : re) (s : st) (cont : st -> option A) : option A :=
  match r with
  | Eps => cont s
  | Bol => if at_bol a s then cont s else None
  | Eol => if at_eol a s then cont s else None
  | One k =>
      match rest s with
      | String x t => if cmatch k x then cont (St (Some x) t (caps s)) else None
      | EmptyString => None
      end
  | Star k => star_loop k cont (caps s) (prev s) (rest s)
  | Plus k =>
      match rest s with
      | String x t =>
          if cmatch k x then star_loop k cont (caps s) (Some x) t else None
      | EmptyString => None
      end
  | Group r1 =>
      run a r1 s (fun s' =>
        cont (St (prev s') (rest s') (caps s' ++ [taken (rest s) (rest s')])))
  | Cat r1 r2 => run a r1 s (fun s' => run a r2 s' cont)
  end.

End Matcher.

(** One attempt at a given start: the whole match followed by the groups. *)
Definition match_here (a : anchors) (r : re) (p : option ascii) (s : string)
  : option (list string) :=
  run a r (St p s []) (fun s' => Some (taken s (rest s') :: caps s')).

(** Unanchored search: the leftmost start at which an attempt succeeds. *)
Fixpoint search (a : anchors) (r : re) (p : option ascii) (s : string)
  : option (list string) :=
  match match_here a r p s with
  | Some m => Some m
  | None =>
      match s with
      | String x t => search a r (Some x) t
      | EmptyString => None
      end
  end.

(** [re.FindStringSubmatch(s)] in Go, [s.match(re)] in Ruby: [None] is
    Go's [nil] slice and Ruby's [nil]. *)
Definition FindStringSubmatch (a : anchors) (r : re) (s : string)
  : option (list string) :=
  search a r None s.

End Regexp.

Import Regexp.

(** The pattern of [gsURLRegexp] (Go) and of [parse_gs_url] (Ruby), read
    left to right: caret, the literal gs://, a group of one or more
    characters other than slash, a slash, a group of any number of dots,
    dollar. *)
Definition gsURLRegexp : re :=
  Cat Bol
   (Cat (Lit "gs://")
    (Cat (Group (Plus (CNot slash)))
     (Cat (One (CChr slash))
      (Cat (Group (Star CDot))
       Eol)))).

(** The slice [match] of Go and [Regexp.last_match] of Ruby, indexed. *)
Definition submatch (m : list string) (i : nat) : string := nth i m "".


(** ** Paths

    [filepath.Join] of Go (Unix), after its documentation: the non-empty
    elements are joined with a slash and the result is cleaned, where
    cleaning drops empty and "." elements, lets ".." cancel the element
    before it (or be dropped at the root, or be kept when nothing precedes
    it in a relative path), and turns an empty result into ".". *)

Fixpoint split (sep : ascii) (s : string) : list string :=
  match s with
  | EmptyString => [EmptyString]
  | String x t =>
      if Ascii.eqb sep x then EmptyString :: split sep t
      else match split sep t with
           | h :: r => String x h :: r
           | [] => [String x EmptyString]
           end
  end.

Fixpoint join (sep : string) (l : list string) : string :=
  match l with
  | [] => ""
  | [x] => x
  | x :: r => x ++ sep ++ join sep r
  end.

(** The output of [Clean] as a stack of elements, innermost first. *)
Definition clean_step (rooted : bool) (out : list string) (e : string) : list string :=
  if String.eqb e "" then out
  else if String.eqb e "." then out
  else if String.eqb e ".." then
    match out with
    | top :: below =>
        if String.eqb top ".." then e :: out else below
    | [] => if rooted then out else [e]
    end
  else e :: out.

Definition Clean (path : string) : string :=
  match path with
  | EmptyString => "."
  | String c _ =>
      let rooted := Ascii.eqb slash c in
      let out := rev (fold_left (clean_step rooted) (split slash path) []) in
      if rooted then "/" ++ join "/" out
      else match out with [] => "." | _ => join "/" out end
  end.

Definition filepath_Join (elem : list string) : string :=
  match List.filter (fun e => negb (String.eqb e "")) elem with
  | [] => ""
  | es => Clean (join "/" es)
  end.

(** The last element of a path ([filepath.Base] on a cleaned path,
    [File.basename]). *)
Definition basename (path : string) : string := List.last (split slash path) "".

(** ** HTTP messages *)

Module HTTP.

Record request : Type := Request {
  meth : string;
  url : string;
  headers : list (string * string);
  payload : string }.

(** A response: the status code, the headers, and the body as the chunks in
    which it arrives; [intact] is false when the connection breaks after the
    last of these chunks. *)
Record response : Type := Response {
  StatusCode : Z;
  resp_headers : list (string * string);
  chunks : list (list ascii);
  intact : bool }.

(** The first binding of a name, for header lists and JSON objects. *)
Fixpoint assoc {A : Type} (name : string) (h : list (string * A)) : option A :=
  match h with
  | [] => None
  | (k, v) :: r => if String.eqb k name then Some v else assoc name r
  end.

(** Header names are compared without regard to case ([resp['ETag']] in
    Ruby, [Header.Get] in Go). *)
Definition downcase_char (c : ascii) : ascii :=
  let n := nat_of_ascii c in
  if (65 <=? n)%nat && (n <=? 90)%nat then ascii_of_nat (n + 32) else c.

Fixpoint downcase (s : string) : string :=
  match s with
  | String c t => String (downcase_char c) (downcase t)
  | EmptyString => EmptyString
  end.

Fixpoint header (name : string) (h : list (string * string)) : option string :=
  match h with
  | [] => None
  | (k, v) :: r =>
      if String.eqb (downcase k) (downcase name) then Some v else header name r
  end.

Definition whole_body (r : response) : list ascii := concat (chunks r).

End HTTP.

(** ** Files, clock and network *)

Module OS.

Record file : Type := File { data : list ascii; mode : N }.

Inductive event : Type :=
| EvRead (path : string)                          (* an attempt to read a file *)
| EvCreat (path : string) (perm : N)              (* O_CREAT on a missing path *)
| EvTrunc (path : string)                         (* O_TRUNC on an existing file *)
| EvWrite (path : string) (off : nat) (bytes : list ascii)
| EvRename (src dst : string)
| EvUnlink (path : string)
| EvHTTP (r : HTTP.request)                       (* a request put on the wire *)
| EvMkdir (path : string)                         (* an attempt to make a directory
                                                     and its missing parents *)
| EvCopy (src dst : string).                      (* content and mode of src copied
                                                     to dst *)

(** A file object that a Ruby block holds open for writing: the path its
    file has now (None once the file has been unlinked), the offset up to
    which its bytes have reached the file, and the bytes that are still in
    the buffer of the process. *)
Record handle : Type := Handle {
  hpath : option string;
  hpos : nat;
  hbuf : list ascii }.

Record world : Type := World {
  files : gmap string file;
  umask : N;
  clock : Z;
  server : HTTP.request -> option HTTP.response;  (* None: no response at all *)
  tmpname : string;                               (* the next fresh temporary name *)
  trace : list event;
  device : string -> nat;                         (* the file system a path is on *)
  opened : option handle }.                       (* the buffered file object, if any *)

Definition octal (ds : list N) : N := fold_left (fun a d => (8 * a + d)%N) ds 0%N.

Definition mode_0600 : N := octal [6; 0; 0]%N.
Definition mode_0644 : N := octal [6; 4; 4]%N.
Definition mode_0666 : N := octal [6; 6; 6]%N.

Definition zero : ascii := "000"%char.

(** [pwrite old off bytes]: the content after writing [bytes] at offset
    [off]; what lies beyond the written range stays, a gap is zero-filled. *)
Definition pwrite (old : list ascii) (off : nat) (bytes : list ascii) : list ascii :=
  take off old ++ replicate (off - length old) zero ++ bytes
    ++ drop (off + length bytes) old.

Definition apply (e : event) (fs : gmap string file) : gmap string file :=
  match e with
  | EvRead _ => fs
  | EvCreat p m => <[p := File [] m]> fs
  | EvTrunc p => alter (fun f => File [] (mode f)) p fs
  | EvWrite p off bytes => alter (fun f => File (pwrite (data f) off bytes) (mode f)) p fs
  | EvRename src dst =>
      match fs !! src with
      | Some f => <[dst := f]> (delete src fs)
      | None => fs
      end
  | EvUnlink p => delete p fs
  | EvHTTP _ => fs
  | EvMkdir _ => fs
  | EvCopy src dst =>
      match fs !! src with
      | Some f => <[dst := f]> fs
      | None => fs
      end
  end.

Definition emit (e : event) (w : world) : world :=
  World (apply e (files w)) (umask w) (clock w) (server w) (tmpname w)
        (trace w ++ [e]) (device w) (opened w).

(** The file systems a concurrent observer can see while the events of [es]
    happen one after the other, the first one included. *)
Fixpoint replay (fs : gmap string file) (es : list event) : list (gmap string file) :=
  match es with
  | [] => [fs]
  | e :: r => fs :: replay (apply e fs) r
  end.

Inductive errno : Type := ENOENT | EACCES | EEXIST.

Definition readable (f : file) : bool := N.testbit (mode f) 8.
Definition writable (f : file) : bool := N.testbit (mode f) 7.

Definition read_file (path : string) (w : world) : (errno + list ascii) * world :=
  let w' := emit (EvRead path) w in
  match files w !! path with
  | None => (inl ENOENT, w')
  | Some f => if readable f then (inr (data f), w') else (inl EACCES, w')
  end.

Inductive oflag : Type := O_WRONLY | O_CREAT | O_TRUNC.

Definition has (fl : oflag) (flags : list oflag) : bool :=
  existsb (fun x => match x, fl with
                    | O_WRONLY, O_WRONLY | O_CREAT, O_CREAT | O_TRUNC, O_TRUNC => true
                    | _, _ => false
                    end) flags.

(** [open(2)] for writing: the mode argument only matters when the file is
    created, and is then masked by the umask.  The machine has files and no
    directories: a path that holds no file is taken as one where a file can
    be made.  What is proved of a file made by a call is therefore proved
    of the calls that return no error. *)
Definition open_write (path : string) (flags : list oflag) (perm : N) (w : world)
  : option errno * world :=
  match files w !! path with
  | Some f =>
      if writable f then
        (None, if has O_TRUNC flags then emit (EvTrunc path) w else w)
      else (Some EACCES, w)
  | None =>
      if has O_CREAT flags then (None, emit (EvCreat path (N.ldiff perm (umask w))) w)
      else (Some ENOENT, w)
  end.

(** Successive writes through one descriptor, starting at offset [off]. *)
Fixpoint write_chunks (path : string) (off : nat) (cs : list (list ascii)) (w : world)
  : world :=
  match cs with
  | [] => w
  | c :: r => write_chunks path (off + length c) r (emit (EvWrite path off c) w)
  end.

(** One request and the answer of the server to it.  A client that follows
    redirections or refuses a header value before sending does more or
    less than this: the properties that depend on it name the exchanges
    they are about. *)
Definition send (r : HTTP.request) (w : world) : option HTTP.response * world :=
  (server w r, emit (EvHTTP r) w).

Definition content (fs : gmap string file) (path : string) : option (list ascii) :=
  data <$> fs !! path.

Definition set_opened (h : option handle) (w : world) : world :=
  World (files w) (umask w) (clock w) (server w) (tmpname w) (trace w) (device w) h.

(** The file of [src] has been renamed to [dst], or unlinked ([dst] is
    None): a file object that is open on it stays open on the same file. *)
Definition follow (src : string) (dst : option string) (w : world) : world :=
  match opened w with
  | Some h =>
      if bool_decide (hpath h = Some src)
      then set_opened (Some (Handle dst (hpos h) (hbuf h))) w
      else w
  | None => w
  end.

End OS.

(** ** The Go package *)

Module Go.
Import HTTP OS.

Definition credentialsCacheBasename : string := "com.shopify.fastgcs.json".

Inductive error : Type :=
| ErrHome                           (* os.UserHomeDir *)
| ErrInvalidURL (gsURL : string)    (* errors.Errorf("invalid GCS URL: %s", gsURL) *)
| ErrNoToken                        (* errors.New("couldn't obtain access token") *)
| ErrJSON                           (* json.Unmarshal *)
| ErrNewRequest                     (* http.NewRequest *)
| ErrDo                             (* client.Do *)
| ErrFile (e : errno)               (* os.Open, os.OpenFile, ioutil.ReadFile *)
| ErrCopy.                          (* io.Copy: the source failed *)

Record token : Type := MkToken { Token : string; Expiry : Z }.

Record fastGCS : Type := MkFastGCS {
  cacheRoot : string;
  gcloudConfigDir : string;
  ftoken : option token }.          (* the field [token *token]; None is nil *)

(** What a call leaves behind: its return values, or a run-time panic. *)
Inductive outcome (A : Type) : Type :=
| Returns (v : A) (err : option error)
| Panics.
Arguments Returns {A} v err.
Arguments Panics {A}.

(** [New], its return values: the instance, or the error of
    [os.UserHomeDir].  What it does to the machine is in [New_run]. *)
Definition New (home : option string) : option fastGCS * option error :=
  match home with
  | None => (None, Some ErrHome)
  | Some h =>
      (Some (MkFastGCS (filepath_Join [h; ".cache"; "fastgcs"])
                       (filepath_Join [h; ".config"; "gcloud"])
                       None), None)
  end.

(** [New] on a machine: between the home directory and the instance comes
    [os.MkdirAll(cacheRoot, os.ModePerm)], whose error is dropped. *)
Definition New_run (home : option string) (w : world)
  : (option fastGCS * option error) * world :=
  match New home with
  | (Some f, None) => ((Some f, None), emit (EvMkdir (cacheRoot f)) w)
  | r => (r, w)
  end.

Definition parseGSURL (gsURL : string) : string * string * option error :=
  match FindStringSubmatch TextAnchors gsURLRegexp gsURL with
  | None => ("", "", Some (ErrInvalidURL gsURL))
  | Some m =>
      let bucket := submatch m 1 in
      let object := submatch m 2 in
      (bucket, object, None)
  end.

Definition cachePath (f : fastGCS) (gsURL : string) : string * option error :=
  match parseGSURL gsURL with
  | (_, _, Some err) => ("", Some err)
  | (bucket, object, None) =>
      (filepath_Join [cacheRoot f; bucket ++ "--" ++ replace_char slash dash object],
       None)
  end.

Definition apiFetchURL (gsURL : string) : string * option error :=
  match parseGSURL gsURL with
  | (_, _, Some err) => ("", Some err)
  | (bucket, object, None) =>
      ("https://storage.googleapis.com/storage/v1/b/" ++ bucket ++ "/o/" ++ object
         ++ "?alt=media", None)
  end.

Section Library.

(** [json.Unmarshal(data, &cache)] into a [token]; None is its error. *)
Variable json_Unmarshal : list ascii -> option token.
(** Whether [http.NewRequest] accepts the URL. *)
Variable url_ok : string -> bool.

Definition findTokenInCache (f : fastGCS) (w : world)
  : (option token * option error) * world :=
  match read_file (filepath_Join [gcloudConfigDir f; credentialsCacheBasename]) w with
  | (inl _, w1) => ((None, None), w1)
  | (inr data, w1) =>
      match json_Unmarshal data with
      | None => ((None, Some ErrJSON), w1)
      | Some cache => ((Some cache, None), w1)
      end
  end.

Definition current (t : option token) (now : Z) : bool :=
  match t with
  | Some tok => (now <? Expiry tok)%Z
  | None => false
  end.

(** The receiver is a pointer: the instance comes back with the result. *)
Definition ensureCurrentToken (f : fastGCS) (w : world)
  : (fastGCS * option error) * world :=
  if current (ftoken f) (clock w) then ((f, None), w)
  else
    match findTokenInCache f w with
    | ((_, Some err), w1) => ((f, Some err), w1)
    | ((Some tok, None), w1) =>
        ((MkFastGCS (cacheRoot f) (gcloudConfigDir f) (Some tok), None), w1)
    | ((None, None), w1) => ((f, Some ErrNoToken), w1)
    end.

Definition update (f : fastGCS) (gsURL : string) (w : world)
  : outcome string * world :=
  match cachePath f gsURL with
  | (_, Some err) => (Returns "" (Some err), w)
  | (path, None) =>
  match apiFetchURL gsURL with
  | (_, Some err) => (Returns "" (Some err), w)
  | (url, None) =>
  if negb (url_ok url) then (Returns "" (Some ErrNewRequest), w) else
  match ftoken f with
  | None => (Panics, w)             (* f.token.Token through a nil pointer *)
  | Some tok =>
  let req := Request "GET" url [("Authorization", "Bearer " ++ Token tok)] "" in
  match send req w with
  | (None, w1) => (Returns "" (Some ErrDo), w1)
  | (Some res, w1) =>
  match open_write path [O_WRONLY; O_CREAT] mode_0644 w1 with
  | (Some e, w2) => (Returns "" (Some (ErrFile e)), w2)
  | (None, w2) =>
      let w3 := write_chunks path 0 (chunks res) w2 in
      if intact res then (Returns path None, w3)
      else (Returns "" (Some ErrCopy), w3)
  end end end end end.

Definition os_Open (path : string) (w : world)
  : (option (list ascii) * option error) * world :=
  match read_file path w with
  | (inl e, w1) => ((None, Some (ErrFile e)), w1)
  | (inr data, w1) => ((Some data, None), w1)
  end.

Definition copyFile (srcPath dstPath : string) (perm : N) (w : world)
  : option error * world :=
  match read_file srcPath w with
  | (inl e, w1) => (Some (ErrFile e), w1)
  | (inr src, w1) =>
      match open_write dstPath [O_WRONLY; O_CREAT] perm w1 with
      | (Some e, w2) => (Some (ErrFile e), w2)
      | (None, w2) => (None, write_chunks dstPath 0 [src] w2)
      end
  end.

Definition ioutil_ReadFile := os_Open.

(** [Open] hands back a reader on the cache file: what can be read from it. *)
Definition Open (f : fastGCS) (gsURL : string) (w : world)
  : fastGCS * outcome (option (list ascii)) * world :=
  let '((f1, _), w1) := ensureCurrentToken f w in
  match update f1 gsURL w1 with
  | (Panics, w2) => (f1, Panics, w2)
  | (Returns _ (Some err), w2) => (f1, Returns None (Some err), w2)
  | (Returns cachePath None, w2) =>
      let '((r, err), w3) := os_Open cachePath w2 in (f1, Returns r err, w3)
  end.

Definition Copy (f : fastGCS) (gsURL path : string) (w : world)
  : outcome unit * world :=
  match update f gsURL w with
  | (Panics, w1) => (Panics, w1)
  | (Returns _ (Some err), w1) => (Returns tt (Some err), w1)
  | (Returns cachePath None, w1) =>
      let '(err, w2) := copyFile cachePath path mode_0644 w1 in
      (Returns tt err, w2)
  end.

Definition Read (f : fastGCS) (gsURL : string) (w : world)
  : outcome (option (list ascii)) * world :=
  match update f gsURL w with
  | (Panics, w1) => (Panics, w1)
  | (Returns _ (Some err), w1) => (Returns None (Some err), w1)
  | (Returns cachePath None, w1) =>
      let '((r, err), w2) := ioutil_ReadFile cachePath w1 in (Returns r err, w2)
  end.

(** How the command of [cmd/fastgcs] ends: normally, through [log.Fatal],
    or in a run-time panic. *)
Inductive exit_status : Type := Exit0 | Fatal (err : error) | Crash.

(** [main]: the result of [Open] is dropped; a nil instance with a nil
    error cannot come out of [New] and would panic at the call. *)
Definition main (home : option string) (w : world) : exit_status * world :=
  match New_run home w with
  | ((_, Some err), w0) => (Fatal err, w0)
  | ((None, None), w0) => (Crash, w0)
  | ((Some fg, None), w0) =>
      match Open fg "gs://neato/foobar" w0 with
      | (_, Panics, w') => (Crash, w')
      | (_, Returns _ _, w') => (Exit0, w')
      end
  end.

End Library.

End Go.

(** ** The earlier copy of the Go package

    The second copy of the package in the repository: [cachePath] matches the
    pattern itself and [update] stops after computing the path. *)

Module GoDraft.
Import HTTP OS.

Definition cachePath (f : Go.fastGCS) (url : string) : string * option Go.error :=
  match FindStringSubmatch TextAnchors gsURLRegexp url with
  | None => ("", Some (Go.ErrInvalidURL url))
  | Some m =>
      let bucket := submatch m 1 in
      let object := submatch m 2 in
      (filepath_Join [Go.cacheRoot f; bucket ++ "--" ++ replace_char slash dash object],
       None)
  end.

Definition update (f : Go.fastGCS) (url : string) : string * option Go.error :=
  match cachePath f url with
  | (_, Some err) => ("", Some err)
  | (path, None) => ("", None)
  end.

Definition Read (f : Go.fastGCS) (url : string) (w : world)
  : (option (list ascii) * option Go.error) * world :=
  match update f url with
  | (_, Some err) => ((None, Some err), w)
  | (cachePath, None) => Go.ioutil_ReadFile cachePath w
  end.

End GoDraft.

(** ** The Ruby class *)

Module Ruby.
Import HTTP OS.

(** JSON values, as far as the records of this program go: objects whose
    fields hold null, strings or integers. *)
Inductive jvalue : Type := JNull | JStr (s : string) | JNum (n : Z).
Definition json : Type := list (string * jvalue).

Inductive exn : Type :=
| UsageError
| ArgumentError                      (* raise(ArgumentError, "Invalid gs:// URL"), Time.parse *)
| TypeError
| NoMethodError                      (* a method called on nil *)
| KeyError (key : string)            (* Hash#fetch *)
| ParserError                        (* JSON::ParserError *)
| SystemCallError (e : errno)        (* Errno::ENOENT, Errno::EACCES, Errno::EEXIST *)
| HTTPError (code : Z)               (* raise("HTTP error #{resp.code}") *)
| SocketError.                       (* the connection failed or broke *)

(** The instance variables; [None] is nil. *)
Record instance : Type := Instance {
  client_id : option jvalue;
  client_secret : option jvalue;
  refresh_token : option jvalue;
  token : option jvalue;
  expiry : option Z }.

Record state : Type := State { self : instance; env : world }.

(** Computations that read and write the instance and the world and may
    raise. *)
Definition M (A : Type) : Type := state -> (exn + A) * state.

Definition ret {A} (a : A) : M A := fun s => (inr a, s).
Definition raise {A} (e : exn) : M A := fun s => (inl e, s).
Definition bind {A B} (c : M A) (k : A -> M B) : M B :=
  fun s => match c s with
           | (inl e, s') => (inl e, s')
           | (inr a, s') => k a s'
           end.
(** [begin c rescue Errno::ENOENT; h end] *)
Definition rescue_ENOENT {A} (c : M A) (h : M A) : M A :=
  fun s => match c s with
           | (inl (SystemCallError ENOENT), s') => h s'
           | r => r
           end.
(** [c ensure h end]: [h] runs on both exits, the result is [c]'s. *)
Definition ensure {A} (c : M A) (h : world -> world) : M A :=
  fun s => let '(r, s') := c s in (r, State (self s') (h (env s'))).

Notation "'let*' x ':=' c 'in' k" := (bind c (fun x => k))
  (at level 10, x pattern, c at level 100, k at level 200).
Notation "c ';;' k" := (bind c (fun _ => k))
  (at level 100, k at level 200, right associativity).

Definition get_self : M instance := fun s => (inr (self s), s).
Definition put_self (i : instance) : M unit := fun s => (inr tt, State i (env s)).
Definition get_env : M world := fun s => (inr (env s), s).
Definition os {A} (f : world -> A * world) : M A :=
  fun s => let '(a, w) := f (env s) in (inr a, State (self s) w).
Definition os_ (f : world -> world) : M unit :=
  fun s => (inr tt, State (self s) (f (env s))).
Definition Time_now : M Z := fun s => (inr (clock (env s)), s).

(** [File.read]: the bytes, or Errno. *)
Definition File_read (path : string) : M (list ascii) :=
  let* r := os (read_file path) in
  match r with
  | inl e => raise (SystemCallError e)
  | inr bytes => ret bytes
  end.

Definition File_open_w (path : string) (flags : list oflag) (perm : N) : M unit :=
  let* r := os (open_write path flags perm) in
  match r with
  | Some e => raise (SystemCallError e)
  | None => ret tt
  end.

(** [File.write(path, s)]: create or truncate, then write. *)
Definition File_write (path : string) (s : string) : M unit :=
  File_open_w path [O_WRONLY; O_CREAT; O_TRUNC] mode_0666 ;;
  os_ (write_chunks path 0 [list_ascii_of_string s]).

Definition truthy (v : option jvalue) : bool :=
  match v with
  | None | Some JNull => false
  | Some _ => true
  end.

(** String interpolation of a value. *)
Definition to_s (v : option jvalue) : string :=
  match v with
  | None | Some JNull => ""
  | Some (JStr s) => s
  | Some (JNum n) => pretty n
  end.

Definition fetch (key : string) (h : json) : M jvalue :=
  match HTTP.assoc key h with
  | Some v => ret v
  | None => raise (KeyError key)
  end.

(** [File.join] of two elements: exactly one separator at the seam. *)
Fixpoint lstrip_slash (s : string) : string :=
  match s with
  | String c t => if Ascii.eqb slash c then lstrip_slash t else s
  | EmptyString => s
  end.

Definition rstrip_slash (s : string) : string :=
  string_of_list_ascii
    (rev (list_ascii_of_string (lstrip_slash
       (string_of_list_ascii (rev (list_ascii_of_string s)))))).

Definition File_join (a b : string) : string :=
  rstrip_slash a ++ "/" ++ lstrip_slash b.

(** [File.dirname]: slashes at the end do not count, neither those of the
    path nor those left in front of its last element. *)
Definition File_dirname (path : string) : string :=
  let p := rstrip_slash path in
  if String.eqb p "" then (if String.eqb path "" then "." else "/")
  else
    match removelast (split slash p) with
    | [] => "."
    | l => let d := rstrip_slash (join "/" l) in if String.eqb d "" then "/" else d
    end.

Definition File_basename := basename.

Definition parse_gs_url (url : string) : M (string * string) :=
  match FindStringSubmatch LineAnchors gsURLRegexp url with
  | None => raise ArgumentError
  | Some m =>
      let bucket := submatch m 1 in
      let object := submatch m 2 in
      ret (bucket, object)
  end.

Definition etag_path (path : string) : string :=
  File_join (File_dirname path) ("." ++ File_basename path ++ ".etag").

(** ** Buffered writes

    [IO#write] on a [File] collects the bytes in a buffer of the process
    ([IO_WBUF_CAPA_MIN] in io.c).  When the bytes at hand would fill the
    buffer, they are written out together, buffered bytes first; what is
    left in the buffer is written out when the file is closed. *)

Definition IO_WBUF_CAPA_MIN : nat := 8 * 1024.

Definition io_open (path : string) (w : world) : world :=
  set_opened (Some (Handle (Some path) 0 [])) w.

(** [bytes] leave the process through the descriptor of [h]: they land at
    its offset in the file it is open on, and nowhere when that file has
    been unlinked. *)
Definition write_out (h : handle) (bytes : list ascii) (w : world) : world :=
  let w' := match hpath h with
            | Some p => emit (EvWrite p (hpos h) bytes) w
            | None => w
            end in
  set_opened (Some (Handle (hpath h) (hpos h + length bytes) [])) w'.

Definition io_write (chunk : list ascii) (w : world) : world :=
  match opened w, chunk with
  | None, _ => w
  | Some _, [] => w
  | Some h, _ =>
      if (IO_WBUF_CAPA_MIN <=? length (hbuf h) + length chunk)%nat
      then write_out h (hbuf h ++ chunk)%list w
      else set_opened (Some (Handle (hpath h) (hpos h) (hbuf h ++ chunk)%list)) w
  end.

Definition io_write_all (cs : list (list ascii)) (w : world) : world :=
  fold_left (fun w' c => io_write c w') cs w.

Definition io_close (w : world) : world :=
  match opened w with
  | Some h =>
      set_opened None (match hbuf h with [] => w | b => write_out h b w end)
  | None => w
  end.

(** [FileUtils.mv]: a rename; when source and destination are on different
    file systems the rename fails with EXDEV, and the file as it is on disk
    is copied with its mode and then removed.  The copy is one step here:
    its own intermediate states are not modelled. *)
Definition FileUtils_mv (src dst : string) : M unit :=
  let* w := get_env in
  if Nat.eqb (device w src) (device w dst) then
    os_ (emit (EvRename src dst)) ;; os_ (follow src (Some dst))
  else
    os_ (emit (EvCopy src dst)) ;; os_ (emit (EvUnlink src)) ;; os_ (follow src None).

(** [FileUtils.mkdir_p]: with a file in the way it raises Errno::EEXIST. *)
Definition FileUtils_mkdir_p (path : string) : M unit :=
  let* w := get_env in
  os_ (emit (EvMkdir path)) ;;
  match files w !! path with
  | Some _ => raise (SystemCallError EEXIST)
  | None => ret tt
  end.

Section Library.

(** The expansion of "~". *)
Variable home : string.
(** [JSON.parse] / [JSON.load] of a document (None: it raises), and
    [Hash#to_json]. *)
Variable JSON_parse : list ascii -> option json.
Variable to_json : json -> string.
(** [Time.parse] (None: it raises) and [Time#to_s]. *)
Variable Time_parse : string -> option Z.
Variable Time_to_s : Z -> string.
(** [String#scan(...).flatten] with the pattern of [load_credentials] and
    with the pattern of [try_access_token_from_gcloud_db]. *)
Variable scan_credentials : list ascii -> list string.
Variable scan_access_tokens : list ascii -> list string.

Definition CREDENTIALS_DB : string := home ++ "/.config/gcloud/credentials.db".
Definition ACCESS_TOKENS_DB : string := home ++ "/.config/gcloud/access_tokens.db".
Definition CREDENTIAL_CACHE : string := home ++ "/.config/gcloud/com.shopify.fastgcs.json".
Definition CACHE : string := home ++ "/.cache/fastgcs".

Definition parse_json (bytes : list ascii) : M json :=
  match JSON_parse bytes with
  | Some d => ret d
  | None => raise ParserError
  end.

Definition parse_time (v : jvalue) : M Z :=
  match v with
  | JStr s => match Time_parse s with
              | Some t => ret t
              | None => raise ArgumentError
              end
  | _ => raise TypeError
  end.

Definition set_token (tok : jvalue) : M unit :=
  let* i := get_self in
  put_self (Instance (client_id i) (client_secret i) (refresh_token i) (Some tok) (expiry i)).

Definition set_expiry (e : Z) : M unit :=
  let* i := get_self in
  put_self (Instance (client_id i) (client_secret i) (refresh_token i) (token i) (Some e)).

Definition cache_path (url : string) : M string :=
  let* (bucket, object) := parse_gs_url url in
  ret (File_join CACHE (bucket ++ "--" ++ replace_char slash dash object)).

Definition load_credentials : M unit :=
  let* credsdb := File_read CREDENTIALS_DB in
  match head (scan_credentials credsdb) with
  | None => raise NoMethodError          (* JSON.load(nil) is nil *)
  | Some creds_json =>
      let* creds := parse_json (list_ascii_of_string creds_json) in
      let* cid := fetch "client_id" creds in
      let* csec := fetch "client_secret" creds in
      let* rtok := fetch "refresh_token" creds in
      let* i := get_self in
      put_self (Instance (Some cid) (Some csec) (Some rtok) (token i) (expiry i))
  end.

Definition try_access_token_from_cache : M bool :=
  rescue_ENOENT
    (let* bytes := File_read CREDENTIAL_CACHE in
     let* data := parse_json bytes in
     let* tok := fetch "token" data in
     let* e := fetch "expiry" data in
     let* exp := parse_time e in
     let* now := Time_now in
     if (now <? exp)%Z then set_expiry exp ;; set_token tok ;; ret true
     else ret false)
    (ret false).

Definition try_access_token_from_gcloud_db : M bool :=
  let* db := File_read ACCESS_TOKENS_DB in
  let data := scan_access_tokens db in
  if negb (Nat.eqb (length data) 2) then ret false
  else
    let* exp := parse_time (JStr (nth 1 data "" ++ " UTC")) in
    let* now := Time_now in
    if (now <? exp)%Z then set_expiry exp ;; set_token (JStr (nth 0 data "")) ;; ret true
    else ret false.

Definition jv (v : option jvalue) : jvalue := default JNull v.

Definition refresh_request (i : instance) : request :=
  Request "POST" "https://oauth2.googleapis.com/token"
    [("User-Agent", "curl"); ("Content-Type", "application/json")]
    (to_json [("client_id", jv (client_id i));
              ("client_secret", jv (client_secret i));
              ("refresh_token", jv (refresh_token i));
              ("grant_type", JStr "refresh_token")]).

Definition refresh_access_token : M bool :=
  let* i := get_self in
  let* r := os (send (refresh_request i)) in
  match r with
  | None => raise SocketError
  | Some resp =>
      if negb (intact resp) then raise SocketError
      else if negb (StatusCode resp =? 200)%Z then raise (HTTPError (StatusCode resp))
      else
        let* obj := parse_json (whole_body resp) in
        let* tok := fetch "access_token" obj in
        set_token tok ;;
        let* ei := fetch "expires_in" obj in
        let* now := Time_now in
        match ei with
        | JNum n => set_expiry (now + n) ;; ret true
        | _ => raise TypeError
        end
  end.

Definition cache_record (i : instance) : string :=
  to_json [("token", jv (token i));
           ("expiry", match expiry i with
                      | Some e => JStr (Time_to_s e)
                      | None => JNull
                      end)].

Definition update_cache : M unit :=
  let* i := get_self in
  File_write CREDENTIAL_CACHE (cache_record i) ;;
  File_open_w CREDENTIAL_CACHE [O_WRONLY; O_CREAT] mode_0600 ;;
  let* i' := get_self in
  os_ (write_chunks CREDENTIAL_CACHE 0 [list_ascii_of_string (cache_record i')]).

Definition token_current : M bool :=
  let* i := get_self in
  if truthy (token i) then
    match expiry i with
    | Some e => let* now := Time_now in ret (now <? e)%Z
    | None => raise NoMethodError
    end
  else ret false.

Definition ensure_current_token : M unit :=
  let* cur := token_current in
  if cur then ret tt
  else
    let found := false in
    let* found := (if found then ret found else try_access_token_from_cache) in
    let* found := (if found then ret found else try_access_token_from_gcloud_db) in
    let* found := (if found then ret found else refresh_access_token) in
    update_cache.

(** The request of [get]: the headers hash with the conditional header
    added when an ETag is known, on the path of the object. *)
Definition storage_request (i : instance) (bucket object : string)
    (etag : option string) : request :=
  let headers :=
    app [("Authorization", "Bearer " ++ to_s (token i));
         ("Accept-Encoding", "gzip;q=1.0")]
        match etag with Some e => [("If-None-Match", e)] | None => [] end in
  Request "GET"
    ("https://storage.googleapis.com" ++ "/storage/v1/b/" ++ bucket ++ "/o/"
       ++ object ++ "?alt=media") headers "".

(** [get]: the ETag of a 200 response whose body went to [io], nil for 304.
    [io] is the file object of the enclosing block, [opened] in the world. *)
Definition get (url : string) (etag : option string) : M (option string) :=
  ensure_current_token ;;
  let* (bucket, object) := parse_gs_url url in
  let* i := get_self in
  let req := storage_request i bucket object etag in
  let* r := os (send req) in
  match r with
  | None => raise SocketError
  | Some resp =>
      if (StatusCode resp =? 200)%Z then
        os_ (io_write_all (chunks resp)) ;;
        if intact resp then ret (header "ETag" (resp_headers resp))
        else raise SocketError
      else if (StatusCode resp =? 304)%Z then ret None
      else raise (HTTPError (StatusCode resp))
  end.

(** What leaving the block of [Dir.mktmpdir] does. *)
Definition remove_entry (file : string) (w : world) : world :=
  match files w !! file with
  | Some _ => emit (EvUnlink file) w
  | None => w
  end.

(** [update_http]: the block of [Dir.mktmpdir] around the block of
    [File.open]; the file object is still open, with what its buffer holds,
    when [FileUtils.mv] and [File.write] run, and is closed after them. *)
Definition update_http (path url : string) : M unit :=
  let* etag :=
    rescue_ENOENT
      (let* b := File_read (etag_path path) in ret (Some (string_of_list_ascii b)))
      (ret None) in
  let* w := get_env in
  let file := File_join (tmpname w) "file" in
  ensure
    (File_open_w file [O_WRONLY; O_CREAT] mode_0644 ;;
     os_ (io_open file) ;;
     ensure
       (let* new_etag := get url etag in
        match new_etag with
        | Some e =>
            FileUtils_mv file path ;;
            File_write (etag_path path) e
        | None => ret tt
        end)
       io_close)
    (remove_entry file).

Definition update (url : string) : M string :=
  let* path := cache_path url in
  update_http path url ;;
  ret path.

Definition open_ (url : string) : M (list ascii) :=
  let* path := update url in
  File_read path.

(** [FileUtils.cp] creates the destination with the mode of the source. *)
Definition cp (url dst : string) : M unit :=
  let* path := update url in
  let* w := get_env in
  let perm := match files w !! path with Some f => mode f | None => mode_0666 end in
  let* src := File_read path in
  File_open_w dst [O_WRONLY; O_CREAT; O_TRUNC] perm ;;
  os_ (write_chunks dst 0 [src]).

Definition read (url : string) : M (list ascii) :=
  let* path := update url in
  File_read path.

Definition initialize : M unit :=
  put_self (Instance None None None None None) ;;
  FileUtils_mkdir_p CACHE ;;
  load_credentials ;;
  ensure_current_token.

(** What [run_cli] leaves behind when it does not raise: the usage text and
    a failing exit through [abort], the bytes copied to STDOUT, or nothing. *)
Inductive cli : Type := Usage | Printed (out : list ascii) | Finished.

(** [rescue UsageError] around the body of [run_cli]. *)
Definition rescue_UsageError (c : M cli) : M cli :=
  fun s => match c s with
           | (inl UsageError, s') => (inr Usage, s')
           | r => r
           end.

(** [run_cli]; [new] is [initialize] on a blank instance, and [argv.shift]
    on an empty array is nil, which falls to the else branch. *)
Definition run_cli (argv : list string) : M cli :=
  rescue_UsageError
    match argv with
    | [] => raise UsageError
    | cmd :: args =>
        if String.eqb cmd "cat" then
          if negb (Nat.eqb (length args) 1) then raise UsageError
          else
            initialize ;;
            let* out := open_ (nth 0 args "") in
            ret (Printed out)
        else if String.eqb cmd "cp" then
          if negb (Nat.eqb (length args) 2) then raise UsageError
          else
            initialize ;;
            cp (nth 0 args "") (nth 1 args "") ;;
            ret Finished
        else raise UsageError
    end.

End Library.

End Ruby.

(** * Vocabulary of the properties *)

(** ** References and cache names *)

(** The character before the cursor once [p] has been read. *)
Fixpoint last_of (p : string) (d : option ascii) : option ascii :=
  match p with
  | EmptyString => d
  | String c p' => last_of p' (Some c)
  end.

(** The attempt at one start, spelled out: strip the scheme, take the
    longest slash-free run, demand a slash, take the longest run without
    line feed, then demand what the dollar demands. *)
Definition gs_here (a : anchors) (p : option ascii) (s : string)
  : option (list string) :=
  if at_bol a (St p s []) then
    match strip_prefix "gs://" s with
    | None => None
    | Some t =>
        match span (is_not slash) t with
        | (String _ _ as b, String c t2) =>
            if Ascii.eqb slash c then
              let '(k, t3) := span (is_not LF) t2 in
              if at_eol a (St None t3 []) then Some [taken s t3; b; k] else None
            else None
        | _ => None
        end
    end
  else None.

(** [s] is the reference with bucket [B] and key [K], as the pattern of the
    program reads references: the bucket is non-empty and slash-free, the
    key has no line feed. *)
Definition reference (B K s : string) : Prop :=
  B <> "" /\ all_chars (is_not slash) B = true /\ all_chars (is_not LF) K = true /\
  s = "gs://" ++ B ++ "/" ++ K.

(** A proper name: no slash, and too long to be "." or "..". *)
Definition proper_name (n : string) : Prop :=
  all_chars (is_not slash) n = true /\ 3 <= String.length n.

(** The file name the cache gives to bucket [B] and key [K]. *)
Definition cache_name (B K : string) : string :=
  B ++ "--" ++ replace_char slash dash K.

(** A path element that cleaning keeps: not empty, not "." or "..", and
    without slash. *)
Definition component (c : string) : Prop :=
  c <> "" /\ c <> "." /\ c <> ".." /\ all_chars (is_not slash) c = true.

(** The absolute path whose elements are [cs], outermost first. *)
Fixpoint rooted_at (cs : list string) : string :=
  match cs with
  | [] => ""
  | c :: r => "/" ++ c ++ rooted_at r
  end.

Import HTTP OS.
Local Open Scope list_scope.

(** ** Writes and requests *)


(** The events of [write_chunks], in order. *)
Fixpoint write_events (p : string) (off : nat) (cs : list (list ascii)) : list event :=
  match cs with
  | [] => []
  | c :: r => EvWrite p off c :: write_events p (off + length c) r
  end.

(** The request [update] builds for a reference, given the token. *)
Definition fetch_request (tok : Go.token) (gsURL : string) : request :=
  Request "GET" (fst (Go.apiFetchURL gsURL))
          [("Authorization", "Bearer " +:+ Go.Token tok)] "".




(** ** Concrete instances, worlds and servers *)

Module Run.

Definition bytes (s : string) : list ascii := list_ascii_of_string s.

Definition home : string := "/home/u".
Definition object_path : string := "/home/u/.cache/fastgcs/b--k".
Definition credentials_path : string := "/home/u/.config/gcloud/com.shopify.fastgcs.json".

(** An instance as [New] makes it: no token yet. *)
Definition fresh : Go.fastGCS :=
  Go.MkFastGCS "/home/u/.cache/fastgcs" "/home/u/.config/gcloud" None.

Definition live : Go.token := Go.MkToken "ya29.live" 1000.
Definition stale : Go.token := Go.MkToken "ya29.stale" 100.

Definition holding (t : Go.token) : Go.fastGCS :=
  Go.MkFastGCS "/home/u/.cache/fastgcs" "/home/u/.config/gcloud" (Some t).

(** A world at instant 500, umask 022, with the given files and server, on
    one file system and with no file object open. *)
Definition at500 (fs : gmap string file) (srv : request -> option response) : world :=
  World fs (octal [0; 2; 2]%N) 500 srv "/tmp/d20211012-1-abc" [] (fun _ => 0) None.

Definition cached (s : string) : gmap string file :=
  {[ object_path := File (bytes s) mode_0644 ]}.

(** A server that answers every request with 404. *)
Definition not_found (_ : request) : option response :=
  Some (Response 404 [] [bytes "Not Found"] true).

(** A remote object that does not change, served the way the storage
    endpoint serves it: 304 when the request carries the current ETag in
    If-None-Match, otherwise 200 with the body in chunks and the ETag. *)
Definition serving (parts : list (list ascii)) (etag : string) (r : request)
  : option response :=
  match header "If-None-Match" (headers r) with
  | Some e =>
      if String.eqb e etag then Some (Response 304 [] [] true)
      else Some (Response 200 [("ETag", etag)] parts true)
  | None => Some (Response 200 [("ETag", etag)] parts true)
  end.

Definition any_url (_ : string) : bool := true.


(** The JSON text of a token record with an expiry in the past, and a
    decoder that knows this text. *)
Definition dq : string := String "034"%char "".
Definition stale_record : string :=
  "{" +:+ dq +:+ "Token" +:+ dq +:+ ":" +:+ dq +:+ "ya29.stale" +:+ dq +:+ ","
      +:+ dq +:+ "Expiry" +:+ dq +:+ ":" +:+ dq +:+ "1970-01-01T00:01:40Z" +:+ dq +:+ "}".
Definition decode (data : list ascii) : option Go.token :=
  if decide (data = bytes stale_record) then Some stale else None.

End Run.

Import Run.

(** ** Stores, tokens and fetches of the Ruby class *)

(** What a store does to the file system, in order: the file is created or
    emptied, then the record is written twice from offset 0. *)
Definition store_events (existed : bool) (um : N) (path : string) (doc : list ascii)
  : list event :=
  [if existed then EvTrunc path else EvCreat path (N.ldiff mode_0666 um);
   EvWrite path 0 doc; EvWrite path 0 doc].

(** The record of the durable token cache, as the first tier reads it: the
    file is readable, its bytes parse to an object with a token and an
    expiry that [Time.parse] understands. *)
Definition cache_holds (JSON_parse : list ascii -> option Ruby.json)
    (Time_parse : string -> option Z) (w : world) (path : string)
    (tok : Ruby.jvalue) (exp : Z) : Prop :=
  exists f d s,
    files w !! path = Some f /\ readable f = true /\
    JSON_parse (data f) = Some d /\
    assoc "token" d = Some tok /\ assoc "expiry" d = Some (Ruby.JStr s) /\
    Time_parse s = Some exp.

(** The in-memory token is present and not expired. *)
Definition signed_in (st : Ruby.state) : Prop :=
  exists e, Ruby.truthy (Ruby.token (Ruby.self st)) = true /\
            Ruby.expiry (Ruby.self st) = Some e /\
            (clock (Ruby.env st) < e)%Z.

(** No token in memory, or one that has expired. *)
Definition signed_out (st : Ruby.state) : Prop :=
  Ruby.truthy (Ruby.token (Ruby.self st)) = false \/
  exists e, Ruby.expiry (Ruby.self st) = Some e /\ (e <= clock (Ruby.env st))%Z.

(** Events of a store: they concern the token cache file only. *)
Definition on_path (p : string) (e : event) : Prop :=
  match e with
  | EvCreat q _ | EvTrunc q | EvWrite q _ _ => q = p
  | _ => False
  end.

(** The temporary file of one call, the ETag the sidecar holds, and the
    conditions under which a call runs undisturbed: a current token in
    memory, a temporary name that is fresh and distinct from the cache
    entry, and a sidecar that can be read and rewritten if it exists. *)
Definition tmpfile (w : world) : string := Ruby.File_join (tmpname w) "file".

Definition sidecar (w : world) (path : string) : option string :=
  (fun f => string_of_list_ascii (data f)) <$> files w !! Ruby.etag_path path.

Definition ready (st : Ruby.state) (path : string) : Prop :=
  signed_in st /\
  files (Ruby.env st) !! tmpfile (Ruby.env st) = None /\
  tmpfile (Ruby.env st) <> path /\
  tmpfile (Ruby.env st) <> Ruby.etag_path path /\
  path <> Ruby.etag_path path /\
  match files (Ruby.env st) !! Ruby.etag_path path with
  | Some f => readable f = true /\ writable f = true
  | None => True
  end.

(** The events of a call up to and including the request. *)
Definition fetch_prologue (w : world) (path : string) (req : request) : list event :=
  [EvRead (Ruby.etag_path path);
   EvCreat (tmpfile w) (N.ldiff mode_0644 (umask w));
   EvHTTP req].

(** The events that promote a finished download: the rename, then the
    sidecar is created or emptied and the ETag written to it. *)
Definition promote (w : world) (path etag : string) : list event :=
  [EvRename (tmpfile w) path;
   (if bool_decide (is_Some (files w !! Ruby.etag_path path))
    then EvTrunc (Ruby.etag_path path)
    else EvCreat (Ruby.etag_path path) (N.ldiff mode_0666 (umask w)));
   EvWrite (Ruby.etag_path path) 0 (list_ascii_of_string etag)].

(** What the chunks [cs], written one after the other to a file object that
    is open on [p] at offset [pos] with [buf] in its buffer, make of it: the
    writes that leave the process, then the offset and the buffer. *)
Fixpoint io_writes (p : string) (pos : nat) (buf : list ascii) (cs : list (list ascii))
  : list event * (nat * list ascii) :=
  match cs with
  | [] => ([], (pos, buf))
  | [] :: r => io_writes p pos buf r
  | c :: r =>
      if (Ruby.IO_WBUF_CAPA_MIN <=? length buf + length c)%nat then
        let '(es, h) := io_writes p (pos + length (buf ++ c)) [] r in
        (EvWrite p pos (buf ++ c) :: es, h)
      else io_writes p pos (buf ++ c) r
  end.

(** The writes of a download that reach the temporary file while the body
    arrives, the write that is left for the moment the file object is
    closed, on the path [p] its file has by then, and the part of the body
    that is in the file before that moment. *)
Definition early (w : world) (cs : list (list ascii)) : list event :=
  fst (io_writes (tmpfile w) 0 [] cs).

Definition late (p : string) (cs : list (list ascii)) : list event :=
  let '(pos, buf) := snd (io_writes p 0 [] cs) in
  match buf with
  | [] => []
  | _ => [EvWrite p pos buf]
  end.

Definition flushed (cs : list (list ascii)) : list ascii :=
  take (fst (snd (io_writes "" 0 [] cs))) (concat cs).

(** The sidecar is created or emptied and the ETag written to it. *)
Definition store_etag (w : world) (path etag : string) : list event :=
  [(if bool_decide (is_Some (files w !! Ruby.etag_path path))
    then EvTrunc (Ruby.etag_path path)
    else EvCreat (Ruby.etag_path path) (N.ldiff mode_0666 (umask w)));
   EvWrite (Ruby.etag_path path) 0 (list_ascii_of_string etag)].

(** The promotion when the temporary file is on another file system than
    the cache: a copy of the file as it is on disk, and its removal. *)
Definition promote_across (w : world) (path etag : string) : list event :=
  EvCopy (tmpfile w) path :: EvUnlink (tmpfile w) :: store_etag w path etag.

Definition one_device (w : world) (path : string) : bool :=
  Nat.eqb (device w (tmpfile w)) (device w path).

Fixpoint run_events (es : list event) (w : world) : world :=
  match es with
  | [] => w
  | e :: r => run_events r (emit e w)
  end.

(** Events that leave the file at [p] alone. *)
Definition away_from (p : string) (e : event) : Prop :=
  match e with
  | EvRead _ | EvHTTP _ | EvMkdir _ => True
  | EvCreat q _ | EvTrunc q | EvWrite q _ _ | EvUnlink q => q <> p
  | EvRename src dst => src <> p /\ dst <> p
  | EvCopy _ dst => dst <> p
  end.

(** ** Concrete instances of the Ruby class *)

Module RubyRun.

(** Stand-ins for [Hash#to_json] and [Time#to_s] in the runs below. *)
Definition show_value (v : Ruby.jvalue) : string :=
  match v with
  | Ruby.JNull => "null"
  | Ruby.JStr s => dq +:+ s +:+ dq
  | Ruby.JNum n => pretty n
  end.

Fixpoint show_fields (j : Ruby.json) : string :=
  match j with
  | [] => ""
  | [(k, v)] => dq +:+ k +:+ dq +:+ ":" +:+ show_value v
  | (k, v) :: r => dq +:+ k +:+ dq +:+ ":" +:+ show_value v +:+ "," +:+ show_fields r
  end.

Definition to_json (j : Ruby.json) : string := "{" +:+ show_fields j +:+ "}".
Definition Time_to_s (t : Z) : string := pretty t.

(** An instance whose token is valid until instant 1000. *)
Definition member : Ruby.instance :=
  Ruby.Instance None None None (Some (Ruby.JStr "ya29.live")) (Some 1000%Z).

Definition token_cache : string := Ruby.CREDENTIAL_CACHE home.
Definition record : list ascii := bytes (Ruby.cache_record to_json Time_to_s member).

(** An instance that holds the three credentials and no token yet. *)
Definition credentialed : Ruby.instance :=
  Ruby.Instance (Some (Ruby.JStr "id")) (Some (Ruby.JStr "secret"))
                (Some (Ruby.JStr "refresh")) None None.

(** Stand-ins for [JSON.parse] and [Time.parse]: the record of [member], a
    token grant of one hour, a grant without lifetime, and the instants
    written the way [Time_to_s] writes them. *)
Definition grant : string := "{grant}".
Definition bare_grant : string := "{bare}".
Definition JSON_parse (doc : list ascii) : option Ruby.json :=
  if decide (doc = record) then
    Some [("token", Ruby.JStr "ya29.live"); ("expiry", Ruby.JStr "1000")]
  else if decide (doc = bytes grant) then
    Some [("access_token", Ruby.JStr "ya29.new"); ("expires_in", Ruby.JNum 3600)]
  else if decide (doc = bytes bare_grant) then
    Some [("access_token", Ruby.JStr "ya29.new")]
  else None.
Definition Time_parse (s : string) : option Z :=
  if String.eqb s "1000" then Some 1000%Z else None.
Definition no_rows (_ : list ascii) : list string := [].

(** A token endpoint that answers every request with 200 and [body]. *)
Definition minting (body : string) (_ : request) : option response :=
  Some (Response 200 [] [bytes body] true).

Definition sdk_store : string := Ruby.ACCESS_TOKENS_DB home.

End RubyRun.

Local Open Scope string_scope.

(** * Properties *)

(** ** Strings *)

Lemma strip_prefix_app (p t : string) : strip_prefix p (p ++ t) = Some t.
Proof.
  induction p as [|c p IH]; simpl; [reflexivity|].
  now rewrite Ascii.eqb_refl.
Qed.

Lemma strip_prefix_Some (p s t : string) : strip_prefix p s = Some t -> s = p ++ t.
Proof.
  revert s; induction p as [|c p IH]; intros s; simpl.
  - now intros [= ->].
  - destruct s as [|x s]; [discriminate|].
    destruct (Ascii.eqb_spec c x) as [->|]; [|discriminate].
    intros H. now rewrite (IH _ H).
Qed.

Lemma span_spec (f : ascii -> bool) (s a b : string) :
  span f s = (a, b) ->
  s = a ++ b /\ all_chars f a = true /\
  match b with String x _ => f x = false | EmptyString => True end.
Proof.
  revert a b; induction s as [|x t IH]; intros a b; simpl.
  - intros [= <- <-]. auto.
  - destruct (f x) eqn:Hx.
    + destruct (span f t) as [a' b'] eqn:Hs. intros [= <- <-].
      destruct (IH _ _ eq_refl) as (-> & Ha & Hb). simpl. rewrite Hx, Ha. auto.
    + intros [= <- <-]. simpl. auto.
Qed.

Lemma span_app (f : ascii -> bool) (a b : string) :
  all_chars f a = true ->
  match b with String x _ => f x = false | EmptyString => True end ->
  span f (a ++ b) = (a, b).
Proof.
  intros Ha Hb. induction a as [|x a IH]; simpl in *.
  - destruct b as [|y b]; [reflexivity|]. simpl. now rewrite Hb.
  - apply andb_true_iff in Ha as [Hx Ha]. now rewrite Hx, (IH Ha).
Qed.

Lemma string_length_app (a b : string) :
  String.length (a ++ b) = String.length a + String.length b.
Proof. induction a as [|c a IH]; simpl; [reflexivity | now rewrite IH]. Qed.

Lemma substring_0_length (a b : string) : substring 0 (String.length a) (a ++ b) = a.
Proof.
  induction a as [|c a IH]; simpl.
  - now destruct b.
  - now rewrite IH.
Qed.

Lemma append_nil_r (s : string) : s ++ "" = s.
Proof. induction s as [|c s IH]; simpl; [reflexivity | now rewrite IH]. Qed.

Lemma append_assoc (a b c : string) : (a ++ b) ++ c = a ++ b ++ c.
Proof. induction a as [|x a IH]; simpl; [reflexivity | now rewrite IH]. Qed.

Lemma taken_app (a b : string) : taken (a ++ b) b = a.
Proof.
  unfold taken. rewrite string_length_app.
  replace (String.length a + String.length b - String.length b)
    with (String.length a) by lia.
  apply substring_0_length.
Qed.

Lemma taken_all (s : string) : taken s "" = s.
Proof. rewrite <- (append_nil_r s) at 1. apply taken_app. Qed.

(** ** The matcher on the pattern of the program *)

Lemma run_Lit {A} (a : anchors) (p : string) pv r cs (cont : st -> option A) :
  run a (Lit p) (St pv r cs) cont =
  match strip_prefix p r with
  | Some t => cont (St (last_of p pv) t cs)
  | None => None
  end.
Proof.
  revert pv r; induction p as [|c p IH]; intros pv r; simpl; [reflexivity|].
  destruct r as [|x r]; [reflexivity|].
  destruct (Ascii.eqb_spec c x) as [<-|]; [apply IH | reflexivity].
Qed.

(** A greedy loop never has to give characters back when the continuation
    cannot start with a character of the class. *)
Lemma star_loop_span {A} (k : cclass) (cont : st -> option A) cs p r :
  (forall p' x t, cmatch k x = true -> cont (St p' (String x t) cs) = None) ->
  star_loop k cont cs p r =
  let '(a, b) := span (cmatch k) r in cont (St (last_of a p) b cs).
Proof.
  intros Hc. revert p; induction r as [|x t IH]; intros p; simpl; [reflexivity|].
  destruct (cmatch k x) eqn:Hx; [|reflexivity].
  rewrite IH. destruct (span (cmatch k) t) as [a b]. simpl.
  destruct (cont (St (last_of a (Some x)) b cs)); [reflexivity|].
  now apply Hc.
Qed.

Lemma match_here_gs (a : anchors) (p : option ascii) (s : string) :
  match_here a gsURLRegexp p s = gs_here a p s.
Proof.
  unfold match_here, gs_here, gsURLRegexp.
  cbn [run]. destruct (at_bol a (St p s [])); [|reflexivity].
  rewrite run_Lit. destruct (strip_prefix "gs://" s) as [t|]; [|reflexivity].
  cbn [rest caps prev].
  destruct t as [|x t]; [reflexivity|].
  cbn [span cmatch]. destruct (is_not slash x) eqn:Hx; [|reflexivity].
  rewrite star_loop_span.
  2:{ intros p' y t' Hy. cbn [rest caps prev]. cbn in Hy.
      unfold is_not in Hy. destruct (Ascii.eqb slash y); [discriminate|reflexivity]. }
  change (cmatch (CNot slash)) with (is_not slash).
  destruct (span (is_not slash) t) as [b t1] eqn:Hs.
  cbn [rest caps prev].
  destruct t1 as [|c t2]; [reflexivity|].
  destruct (Ascii.eqb slash c); [|reflexivity].
  cbn [rest caps prev].
  rewrite star_loop_span.
  2:{ intros p' y t' Hy. cbn [rest caps prev]. cbn in Hy. unfold at_eol. cbn [rest].
      unfold is_not in Hy. destruct a; [reflexivity|].
      destruct (Ascii.eqb LF y); [discriminate|reflexivity]. }
  change (cmatch CDot) with (is_not LF).
  destruct (span (is_not LF) t2) as [k t3] eqn:Hk.
  cbn [rest caps prev]. unfold at_eol. cbn [rest].
  destruct (span_spec _ _ _ _ Hs) as (-> & _ & _).
  destruct (span_spec _ _ _ _ Hk) as (-> & _ & _).
  change (String x (b ++ String c (k ++ t3))) with ((String x b) ++ String c (k ++ t3)).
  rewrite taken_app.
  change (String c (k ++ t3)) with (String c "" ++ (k ++ t3)).
  rewrite taken_app. reflexivity.
Qed.

Lemma search_text_later (x : ascii) (s : string) :
  search TextAnchors gsURLRegexp (Some x) s = None.
Proof.
  revert x; induction s as [|y s IH]; intros x; cbn [search];
    rewrite match_here_gs; unfold gs_here; cbn [at_bol prev]; auto.
Qed.

Lemma FindStringSubmatch_text (s : string) :
  FindStringSubmatch TextAnchors gsURLRegexp s = gs_here TextAnchors None s.
Proof.
  unfold FindStringSubmatch. destruct s as [|x s]; cbn [search]; rewrite match_here_gs.
  - now destruct (gs_here TextAnchors None "").
  - destruct (gs_here TextAnchors None (String x s)); [reflexivity|].
    apply search_text_later.
Qed.

(** ** The reference parser *)

Lemma is_not_false (c x : ascii) : is_not c x = false -> x = c.
Proof.
  unfold is_not. destruct (Ascii.eqb_spec c x); [auto | discriminate].
Qed.

Lemma gs_here_text_Some (s : string) (m : list string) :
  gs_here TextAnchors None s = Some m ->
  exists B K, m = [s; B; K] /\ reference B K s.
Proof.
  unfold gs_here. cbn [at_bol prev].
  destruct (strip_prefix "gs://" s) as [t|] eqn:Hp; [|discriminate].
  apply strip_prefix_Some in Hp.
  destruct (span (is_not slash) t) as [b t1] eqn:Hs.
  destruct b as [|b0 b]; [discriminate|].
  destruct t1 as [|c t2]; [discriminate|].
  destruct (Ascii.eqb_spec slash c) as [<-|]; [|discriminate].
  destruct (span (is_not LF) t2) as [k t3] eqn:Hk.
  destruct t3 as [|y t3]; [|discriminate]. simpl.
  intros [= <-].
  destruct (span_spec _ _ _ _ Hs) as (-> & Hb & _).
  destruct (span_spec _ _ _ _ Hk) as (-> & Hkk & _).
  exists (String b0 b), k. rewrite taken_all. split; [reflexivity|].
  unfold reference. rewrite Hp, append_nil_r.
  repeat split; auto.
Qed.

Lemma gs_here_text_reference (B K s : string) :
  reference B K s -> gs_here TextAnchors None s = Some [s; B; K].
Proof.
  intros (HB & Hs & Hk & ->).
  change ("gs://" ++ B ++ "/" ++ K) with ("gs://" ++ B ++ String slash K).
  unfold gs_here. cbn [at_bol prev].
  rewrite strip_prefix_app.
  rewrite (span_app (is_not slash) B (String slash K) Hs).
  2:{ unfold is_not. now rewrite Ascii.eqb_refl. }
  destruct B as [|b0 B]; [congruence|].
  rewrite Ascii.eqb_refl.
  rewrite <- (append_nil_r K) at 1.
  rewrite (span_app (is_not LF) K "" Hk I). cbn [at_eol rest].
  now rewrite taken_all.
Qed.

Lemma parseGSURL_inv (s B K : string) :
  Go.parseGSURL s = (B, K, None) -> reference B K s.
Proof.
  unfold Go.parseGSURL. rewrite FindStringSubmatch_text.
  destruct (gs_here TextAnchors None s) as [m|] eqn:Hm; [|discriminate].
  destruct (gs_here_text_Some _ _ Hm) as (B' & K' & -> & Href).
  simpl. now intros [= <- <-].
Qed.

(** The Go parser.  For every string gs://B/K where B is non-empty and has
    no slash and K has no line feed, [parseGSURL] returns B and K exactly;
    for every string that is not of that form it returns the invalid-URL
    error, with two empty strings and so no partial result. *)
Theorem parseGSURL_reference (s : string) :
  (forall B K, reference B K s -> Go.parseGSURL s = (B, K, None)) /\
  ((forall B K, ~ reference B K s) ->
     Go.parseGSURL s = ("", "", Some (Go.ErrInvalidURL s))).
Proof.
  unfold Go.parseGSURL. rewrite FindStringSubmatch_text. split.
  - intros B K H. now rewrite (gs_here_text_reference _ _ _ H).
  - intros H. destruct (gs_here TextAnchors None s) as [m|] eqn:Hm; [|reflexivity].
    destruct (gs_here_text_Some _ _ Hm) as (B & K & _ & Href).
    now destruct (H B K).
Qed.

Lemma parseGSURL_reference_witness :
  Go.parseGSURL "gs://my-bucket/path/to/object.json"
    = ("my-bucket", "path/to/object.json", None) /\
  Go.parseGSURL "https://my-bucket/object" =
    ("", "", Some (Go.ErrInvalidURL "https://my-bucket/object")).
Proof.
  split.
  - apply (proj1 (parseGSURL_reference "gs://my-bucket/path/to/object.json")).
    unfold reference. repeat split. discriminate.
  - apply (proj2 (parseGSURL_reference "https://my-bucket/object")).
    intros B K (_ & _ & _ & H). discriminate H.
Defined.

(** A key may not be any string.  The string
    below has the form gs://B/K with B = "b" and K made of a line feed and
    the letter k, and [parseGSURL] refuses it. *)
Lemma parseGSURL_line_feed_key :
  let B := "b" in
  let K := String LF "k" in
  B <> "" /\ all_chars (is_not slash) B = true /\
  Go.parseGSURL ("gs://" ++ B ++ "/" ++ K)
    = ("", "", Some (Go.ErrInvalidURL ("gs://" ++ B ++ "/" ++ K))).
Proof. repeat split. discriminate. Qed.

(** The Ruby parser reads the same pattern with line anchors.  On a string
    without line feed the two readings coincide. *)

Lemma all_chars_app (f : ascii -> bool) (a b : string) :
  all_chars f (a ++ b) = all_chars f a && all_chars f b.
Proof.
  induction a as [|x a IH]; simpl; [reflexivity|].
  now rewrite IH, andb_assoc.
Qed.

Lemma search_line_later (x : ascii) (s : string) :
  is_not LF x = true -> all_chars (is_not LF) s = true ->
  search LineAnchors gsURLRegexp (Some x) s = None.
Proof.
  revert x; induction s as [|y s IH]; intros x Hx Hs; cbn [search];
    rewrite match_here_gs; unfold gs_here; cbn [at_bol prev];
    unfold is_not in Hx; destruct (Ascii.eqb LF x); try discriminate; auto.
  simpl in Hs. apply andb_true_iff in Hs as [Hy Hs]. now apply IH.
Qed.

Lemma gs_here_single_line (s : string) :
  all_chars (is_not LF) s = true ->
  gs_here LineAnchors None s = gs_here TextAnchors None s.
Proof.
  intros Hs. unfold gs_here. cbn [at_bol prev].
  destruct (strip_prefix "gs://" s) as [t|] eqn:Hp; [|reflexivity].
  apply strip_prefix_Some in Hp. subst s.
  destruct (span (is_not slash) t) as [b t1] eqn:Hb.
  destruct b as [|b0 b]; [reflexivity|].
  destruct t1 as [|c t2]; [reflexivity|].
  destruct (Ascii.eqb slash c); [|reflexivity].
  destruct (span (is_not LF) t2) as [k t3] eqn:Hk.
  destruct t3 as [|y t3]; [reflexivity|]. cbn [at_eol rest].
  destruct (span_spec _ _ _ _ Hb) as (-> & _ & _).
  destruct (span_spec _ _ _ _ Hk) as (-> & _ & _).
  rewrite !all_chars_app in Hs. simpl in Hs. rewrite !all_chars_app in Hs.
  simpl in Hs. rewrite !andb_true_iff in Hs.
  destruct Hs as (_ & _ & _ & Hy & _).
  unfold is_not in Hy. now destruct (Ascii.eqb LF y).
Qed.

Lemma FindStringSubmatch_single_line (s : string) :
  all_chars (is_not LF) s = true ->
  FindStringSubmatch LineAnchors gsURLRegexp s
    = FindStringSubmatch TextAnchors gsURLRegexp s.
Proof.
  intros Hs. rewrite FindStringSubmatch_text, <- (gs_here_single_line s Hs).
  unfold FindStringSubmatch. destruct s as [|x s]; cbn [search]; rewrite match_here_gs.
  - now destruct (gs_here LineAnchors None "").
  - destruct (gs_here LineAnchors None (String x s)); [reflexivity|].
    simpl in Hs. apply andb_true_iff in Hs as [Hx Hs]. now apply search_line_later.
Qed.

(** On references without line feed the Ruby parser returns what the Go
    parser returns, and raises where the Go parser returns its error. *)
Lemma parse_gs_url_single_line (s : string) (st : Ruby.state) :
  all_chars (is_not LF) s = true ->
  Ruby.parse_gs_url s st =
  match Go.parseGSURL s with
  | (B, K, None) => (inr (B, K), st)
  | (_, _, Some _) => (inl Ruby.ArgumentError, st)
  end.
Proof.
  intros Hs. unfold Ruby.parse_gs_url, Go.parseGSURL.
  rewrite (FindStringSubmatch_single_line s Hs).
  now destruct (FindStringSubmatch TextAnchors gsURLRegexp s).
Qed.

(** With a line feed the two differ: the Ruby pattern is satisfied by any
    line of the string. *)
Lemma parse_gs_url_second_line (st : Ruby.state) :
  let s := "first line" ++ String LF "gs://b/k" ++ String LF "last line" in
  Ruby.parse_gs_url s st = (inr ("b", "k"), st) /\
  Go.parseGSURL s = ("", "", Some (Go.ErrInvalidURL s)).
Proof. split; reflexivity. Qed.

(** C3.  The Ruby parser on a string that is not a reference.  The first
    string below is "junk", a line feed and "gs://b/k": it does not start
    with the scheme, so it is gs://B/K for no B and K.  [parse_gs_url]
    accepts it and returns bucket "b" and key "k", where [parseGSURL]
    returns the invalid-URL error and two empty strings.  The second string
    is the reference of bucket "b" and of the key made of a line feed and
    "k": [parse_gs_url] returns the empty key for it, and [parseGSURL]
    refuses it. *)
Theorem parse_gs_url_accepts_inner_line (st : Ruby.state) :
  let s := "junk" ++ String LF "gs://b/k" in
  let t := "gs://b/" ++ String LF "k" in
  (forall B K, s <> "gs://" ++ B ++ "/" ++ K) /\
  Ruby.parse_gs_url s st = (inr ("b", "k"), st) /\
  Go.parseGSURL s = ("", "", Some (Go.ErrInvalidURL s)) /\
  Ruby.parse_gs_url t st = (inr ("b", ""), st) /\
  Go.parseGSURL t = ("", "", Some (Go.ErrInvalidURL t)).
Proof.
  intros s t. split; [intros B K; discriminate|].
  repeat split; reflexivity.
Qed.

(** ** Cache paths *)

Lemma split_cons (sep : ascii) (s : string) :
  exists h r, split sep s = h :: r.
Proof.
  induction s as [|x s (h & r & IH)]; simpl; [eauto|].
  destruct (Ascii.eqb sep x); [eauto|]. rewrite IH. eauto.
Qed.

Lemma split_app (sep : ascii) (a b : string) :
  split sep (a ++ String sep b) = (split sep a ++ split sep b)%list.
Proof.
  induction a as [|x a IH]; simpl.
  - now rewrite Ascii.eqb_refl.
  - destruct (Ascii.eqb sep x); rewrite IH; [reflexivity|].
    destruct (split_cons sep a) as (h & r & ->). reflexivity.
Qed.

Lemma split_no_sep (sep : ascii) (n : string) :
  all_chars (is_not sep) n = true -> split sep n = [n].
Proof.
  induction n as [|x n IH]; simpl; [reflexivity|].
  unfold is_not at 1. destruct (Ascii.eqb sep x); [discriminate|].
  simpl. intros H. now rewrite (IH H).
Qed.

Lemma last_snoc {A} (l : list A) (x d : A) : List.last (l ++ [x]) d = x.
Proof. apply List.last_last. Qed.


Lemma basename_app (a n : string) :
  all_chars (is_not slash) n = true -> basename (a ++ String slash n) = n.
Proof.
  intros H. unfold basename. rewrite split_app, (split_no_sep _ _ H).
  apply last_snoc.
Qed.





Lemma replace_char_clean (a b : ascii) (s : string) :
  is_not a b = true -> all_chars (is_not a) (replace_char a b s) = true.
Proof.
  intros Hab. induction s as [|x s IH]; simpl; [reflexivity|].
  rewrite IH, andb_true_r. unfold is_not in *.
  destruct (Ascii.eqb a x) eqn:E; [exact Hab | now rewrite E].
Qed.

Lemma cache_name_proper (B K : string) :
  B <> "" -> all_chars (is_not slash) B = true -> proper_name (cache_name B K).
Proof.
  intros HB Hs. split.
  - unfold cache_name. rewrite !all_chars_app, Hs, replace_char_clean; reflexivity.
  - unfold cache_name. rewrite !string_length_app.
    destruct B; [congruence|]. simpl. lia.
Qed.



(** ** Writing through a descriptor *)

Local Open Scope list_scope.




Lemma emit_fields (e : event) (w : world) :
  umask (emit e w) = umask w /\ clock (emit e w) = clock w /\
  server (emit e w) = server w /\ tmpname (emit e w) = tmpname w.
Proof. repeat split. Qed.




(** ** The Go download: in place, unconditional *)

Section GoUpdate.
Variable url_ok : string -> bool.



End GoUpdate.

(** ** The Go package against the design *)

(** Whatever the expiry of the record on disk, [ensureCurrentToken] takes
    it when the token in memory is missing or expired. *)
Lemma ensureCurrentToken_ignores_expiry (json_Unmarshal : list ascii -> option Go.token)
    (f : Go.fastGCS) (w : world) (file : OS.file) (tok : Go.token) :
  Go.current (Go.ftoken f) (clock w) = false ->
  files w !! filepath_Join [Go.gcloudConfigDir f; Go.credentialsCacheBasename]
    = Some file ->
  readable file = true ->
  json_Unmarshal (data file) = Some tok ->
  fst (Go.ensureCurrentToken json_Unmarshal f w)
  = (Go.MkFastGCS (Go.cacheRoot f) (Go.gcloudConfigDir f) (Some tok), None).
Proof.
  intros Hc Hf Hr Hd. unfold Go.ensureCurrentToken, Go.findTokenInCache, read_file.
  now rewrite Hc, Hf, Hr, Hd.
Qed.

(** With no token in memory, [update] panics on every reference that parses
    and that [http.NewRequest] accepts, and so do [Read] and [Copy]. *)
Lemma update_without_token_panics (url_ok : string -> bool) (f : Go.fastGCS)
    (gsURL B K dst : string) (w : world) :
  Go.ftoken f = None ->
  Go.parseGSURL gsURL = (B, K, None) ->
  url_ok (fst (Go.apiFetchURL gsURL)) = true ->
  Go.update url_ok f gsURL w = (Go.Panics, w) /\
  Go.Read url_ok f gsURL w = (Go.Panics, w) /\
  Go.Copy url_ok f gsURL dst w = (Go.Panics, w).
Proof.
  intros Ht Hp Hu.
  assert (Go.update url_ok f gsURL w = (Go.Panics, w)) as E.
  { unfold Go.update, Go.cachePath, Go.apiFetchURL in *. rewrite Hp in *.
    cbn [fst] in Hu. now rewrite Hu, Ht. }
  unfold Go.Read, Go.Copy. now rewrite E.
Qed.

(** C1 (Go).  [update] never looks at the status code.  With a live token,
    a cache file holding "previously cached", and a server that answers
    404 with the body "Not Found", [update] returns the cache path with a
    nil error and the cache file now starts with the error body. *)
Lemma go_update_caches_error_body :
  let w := at500 (cached "previously cached") not_found in
  let '(r, w') := Go.update any_url (holding live) "gs://b/k" w in
  (StatusCode <$> server w (fetch_request live "gs://b/k")) = Some 404%Z /\
  r = Go.Returns object_path None /\
  content (files w) object_path = Some (bytes "previously cached") /\
  content (files w') object_path = Some (bytes "Not Foundy cached").
Proof. vm_compute. repeat split. Qed.

(** C2 (Go).  On a 200 response [update] writes the body straight into the
    cache path: the events of the call are the request, the creation of the
    cache file and one write per chunk, with no temporary file, no rename
    and no sidecar, and between the two writes the cache path holds the
    first chunk only. *)
Lemma go_update_writes_in_place :
  let w := at500 ∅ (serving [bytes "hello, "; bytes "world"] "v1") in
  let '(r, w') := Go.update any_url (holding live) "gs://b/k" w in
  r = Go.Returns object_path None /\
  trace w' = [EvHTTP (fetch_request live "gs://b/k");
              EvCreat object_path mode_0644;
              EvWrite object_path 0 (bytes "hello, ");
              EvWrite object_path 7 (bytes "world")] /\
  map (fun fs => content fs object_path) (replay (files w) (trace w'))
    = [None; None; Some []; Some (bytes "hello, "); Some (bytes "hello, world")].
Proof. vm_compute. repeat split. Qed.

(** C4 (Go).  [Read] and [Copy] do not call [ensureCurrentToken], and [Open]
    drops its error.  On an instance as [New] returns it, with no token
    cache on disk, all three reach [f.token.Token] with a nil token and
    panic; with an expired token in memory [Read] sends the GET with it. *)
Lemma go_operations_without_token :
  let w := at500 ∅ not_found in
  Go.New (Some home) = (Some fresh, None) /\
  fst (Go.Read any_url fresh "gs://b/k" w) = Go.Panics /\
  fst (Go.Copy any_url fresh "gs://b/k" "/tmp/out" w) = Go.Panics /\
  snd (fst (Go.Open decode any_url fresh "gs://b/k" w)) = Go.Panics /\
  fst (Go.ensureCurrentToken decode fresh w) = (fresh, Some Go.ErrNoToken) /\
  Go.current (Some stale) (clock w) = false /\
  head (trace (snd (Go.Read any_url (holding stale) "gs://b/k" w)))
    = Some (EvHTTP (Request "GET"
              "https://storage.googleapis.com/storage/v1/b/b/o/k?alt=media"
              [("Authorization", "Bearer ya29.stale")] "")).
Proof. vm_compute. repeat split. Qed.

(** C5 (Go).  [ensureCurrentToken] has a single source.  With no token in
    memory and no token cache on disk it fails with "couldn't obtain access
    token" after one attempt to read the cache file: no other file is read
    and no request is sent. *)
Lemma go_ensureCurrentToken_single_source :
  let w := at500 ∅ not_found in
  let '((f', err), w') := Go.ensureCurrentToken decode fresh w in
  err = Some Go.ErrNoToken /\ f' = fresh /\ trace w' = [EvRead credentials_path].
Proof. vm_compute. repeat split. Qed.

(** C6 (Go).  A token found in the cache file is taken whatever its expiry.
    At instant 500, with a record on disk that expired at instant 100,
    [ensureCurrentToken] returns nil and the instance holds the expired
    token. *)
Lemma go_ensureCurrentToken_takes_expired :
  let w := at500 {[ credentials_path := File (bytes stale_record) mode_0600 ]}
                 not_found in
  let '((f', err), w') := Go.ensureCurrentToken decode fresh w in
  decode (bytes stale_record) = Some stale /\
  (Go.Expiry stale <? clock w)%Z = true /\
  err = None /\ Go.ftoken f' = Some stale.
Proof. vm_compute. repeat split. Qed.

(** C8 (Go).  Fetching twice from a server whose object does not change:
    the second request carries no If-None-Match header, the answer to it is
    200, and the body is written over the cache file again. *)
Lemma go_update_twice_downloads_twice :
  let srv := serving [bytes "hello, "; bytes "world"] "v1" in
  let w1 := snd (Go.update any_url (holding live) "gs://b/k" (at500 ∅ srv)) in
  let '(r2, w2) := Go.update any_url (holding live) "gs://b/k" w1 in
  r2 = Go.Returns object_path None /\
  header "If-None-Match" (headers (fetch_request live "gs://b/k")) = None /\
  (StatusCode <$> server w1 (fetch_request live "gs://b/k")) = Some 200%Z /\
  drop (length (trace w1)) (trace w2)
    = [EvHTTP (fetch_request live "gs://b/k");
       EvWrite object_path 0 (bytes "hello, ");
       EvWrite object_path 7 (bytes "world")] /\
  content (files w1) object_path = Some (bytes "hello, world") /\
  content (files w2) object_path = Some (bytes "hello, world").
Proof. vm_compute. repeat split. Qed.


(** ** The Ruby class: storing the token *)

(** Reduction of the projections of worlds and states, and of the
    combinators of [Ruby.M]. *)
Ltac os_simpl :=
  cbn [Ruby.env Ruby.self has existsb orb write_chunks emit files apply umask
       clock server tmpname trace mode data fmap option_fmap option_map
       fst snd negb].
Ltac ruby_unfold :=
  unfold Ruby.bind, Ruby.os, Ruby.os_, Ruby.get_self, Ruby.put_self, Ruby.get_env,
    Ruby.Time_now, Ruby.ret, Ruby.raise; os_simpl.

Lemma pwrite_empty (doc : list ascii) : pwrite [] 0 doc = doc.
Proof. unfold pwrite. simpl. now rewrite drop_nil, app_nil_r. Qed.

Lemma pwrite_same (doc : list ascii) : pwrite doc 0 doc = doc.
Proof. unfold pwrite. simpl. now rewrite drop_all, app_nil_r. Qed.

Lemma writable_ldiff (um : N) (d : list ascii) :
  N.testbit um 7 = false -> writable (File d (N.ldiff mode_0666 um)) = true.
Proof. intros H. unfold writable. cbn [mode]. now rewrite N.ldiff_spec, H. Qed.

Section RubyStore.
Variable home : string.
Variable to_json : Ruby.json -> string.
Variable Time_to_s : Z -> string.

Local Abbreviation CC := (Ruby.CREDENTIAL_CACHE home).
Local Abbreviation update_cache := (Ruby.update_cache home to_json Time_to_s).
Local Abbreviation cache_record := (Ruby.cache_record to_json Time_to_s).

(** C9 (as amended).  A store rewrites the token cache file in place.  When
    the file can be opened for writing, [update_cache] returns normally; its
    events are the creation or truncation of the file at its fixed path
    followed by two writes of the complete record from offset 0, with no
    temporary path and no rename; an observer sees, in this order, the old
    state, an empty file, and the complete new record; and at the end the
    file holds exactly the complete new record. *)
Theorem update_cache_in_place (st : Ruby.state) :
  let w := Ruby.env st in
  let doc := bytes (cache_record (Ruby.self st)) in
  let evs := store_events (bool_decide (is_Some (files w !! CC))) (umask w) CC doc in
  match files w !! CC with
  | Some f => writable f = true
  | None => N.testbit (umask w) 7 = false
  end ->
  exists st',
    update_cache st = (inr tt, st') /\
    Ruby.self st' = Ruby.self st /\
    trace (Ruby.env st') = trace w ++ evs /\
    map (fun fs => content fs CC) (replay (files w) evs)
      = [content (files w) CC; Some []; Some doc; Some doc] /\
    content (files (Ruby.env st')) CC = Some doc.
Proof.
  destruct st as [i w]. cbn [Ruby.env Ruby.self]. intros Hw.
  unfold Ruby.update_cache, Ruby.File_write, Ruby.File_open_w. ruby_unfold.
  unfold open_write at 1.
  destruct (files w !! CC) as [f|] eqn:Hf.
  - rewrite Hw. os_simpl. unfold open_write. os_simpl.
    rewrite !lookup_alter_eq, Hf. os_simpl.
    unfold writable in *. os_simpl. rewrite Hw. os_simpl.
    eexists. split; [reflexivity|]. os_simpl.
    rewrite bool_decide_true by eauto.
    split; [reflexivity|]. split; [now rewrite <- !app_assoc|].
    unfold content, store_events. cbn [replay map apply].
    rewrite !lookup_alter_eq, Hf. os_simpl.
    unfold bytes. now rewrite !pwrite_empty, !pwrite_same.
  - os_simpl. unfold open_write. os_simpl.
    rewrite !lookup_alter_eq, lookup_insert_eq. os_simpl.
    rewrite (writable_ldiff _ _ Hw). os_simpl.
    eexists. split; [reflexivity|]. os_simpl.
    rewrite bool_decide_false by (intros [? ?]; discriminate).
    split; [reflexivity|]. split; [now rewrite <- !app_assoc|].
    unfold content, store_events. cbn [replay map apply].
    rewrite !lookup_alter_eq, lookup_insert_eq, Hf. os_simpl.
    unfold bytes. now rewrite !pwrite_empty, !pwrite_same.
Qed.

End RubyStore.

(** ** The Ruby class: resolving the token *)

Lemma File_read_eq (p : string) (i : Ruby.instance) (w : world) :
  Ruby.File_read p (Ruby.State i w) =
  match files w !! p with
  | None => (inl (Ruby.SystemCallError ENOENT), Ruby.State i (emit (EvRead p) w))
  | Some f =>
      if readable f then (inr (data f), Ruby.State i (emit (EvRead p) w))
      else (inl (Ruby.SystemCallError EACCES), Ruby.State i (emit (EvRead p) w))
  end.
Proof.
  unfold Ruby.File_read, read_file. ruby_unfold.
  destruct (files w !! p) as [f|]; [|reflexivity].
  now destruct (readable f).
Qed.

Section RubyToken.
Variable home : string.
Variable JSON_parse : list ascii -> option Ruby.json.
Variable to_json : Ruby.json -> string.
Variable Time_parse : string -> option Z.
Variable Time_to_s : Z -> string.
Variable scan_access_tokens : list ascii -> list string.

Local Abbreviation CC := (Ruby.CREDENTIAL_CACHE home).
Local Abbreviation DB := (Ruby.ACCESS_TOKENS_DB home).
Local Abbreviation tier1 := (Ruby.try_access_token_from_cache home JSON_parse Time_parse).
Local Abbreviation tier2 :=
  (Ruby.try_access_token_from_gcloud_db home Time_parse scan_access_tokens).
Local Abbreviation tier3 := (Ruby.refresh_access_token JSON_parse to_json).
Local Abbreviation store := (Ruby.update_cache home to_json Time_to_s).
Local Abbreviation ensure_current_token :=
  (Ruby.ensure_current_token home JSON_parse to_json Time_parse Time_to_s
     scan_access_tokens).

Lemma token_current_signed_in (st : Ruby.state) :
  signed_in st -> Ruby.token_current st = (inr true, st).
Proof.
  destruct st as [i w]. intros (e & Ht & He & Hlt). cbn in *.
  unfold Ruby.token_current. ruby_unfold. rewrite Ht, He. ruby_unfold.
  now apply Z.ltb_lt in Hlt as ->.
Qed.

Lemma token_current_signed_out (st : Ruby.state) :
  signed_out st -> Ruby.token_current st = (inr false, st).
Proof.
  destruct st as [i w]. unfold Ruby.token_current. ruby_unfold.
  intros [Ht|(e & He & Hle)]; cbn in *.
  - now rewrite Ht.
  - destruct (Ruby.truthy (Ruby.token i)); [|reflexivity].
    rewrite He. ruby_unfold. now apply Z.ltb_ge in Hle as ->.
Qed.

(** With a current token in memory, [ensure_current_token] does nothing. *)
Lemma ensure_current_token_signed_in (st : Ruby.state) :
  signed_in st -> ensure_current_token st = (inr tt, st).
Proof.
  intros H. unfold Ruby.ensure_current_token, Ruby.bind.
  now rewrite (token_current_signed_in st H).
Qed.

(** Otherwise the three sources are tried in the order cache, SDK store,
    refresh; a source is only tried when those before it returned false,
    an exception of a source ends the resolution, and the store runs after
    the first source that returned true. *)
Lemma ensure_current_token_order (st : Ruby.state) :
  signed_out st ->
  ensure_current_token st =
  match tier1 st with
  | (inl e, s1) => (inl e, s1)
  | (inr true, s1) => store s1
  | (inr false, s1) =>
      match tier2 s1 with
      | (inl e, s2) => (inl e, s2)
      | (inr true, s2) => store s2
      | (inr false, s2) =>
          match tier3 s2 with
          | (inl e, s3) => (inl e, s3)
          | (inr true, s3) => store s3
          | (inr false, s3) => store s3
          end
      end
  end.
Proof.
  intros H. unfold Ruby.ensure_current_token, Ruby.bind.
  rewrite (token_current_signed_out st H).
  destruct (tier1 st) as [[e|[|]] s1]; [reflexivity|reflexivity|].
  destruct (tier2 s1) as [[e|[|]] s2]; [reflexivity|reflexivity|].
  destruct (tier3 s2) as [[e|[|]] s3]; reflexivity.
Qed.

(** The first tier, case by case. *)
Lemma try_access_token_from_cache_eq (i : Ruby.instance) (w : world) :
  tier1 (Ruby.State i w) =
  let s1 := Ruby.State i (emit (EvRead CC) w) in
  match files w !! CC with
  | None => (inr false, s1)
  | Some f =>
      if readable f then
        match JSON_parse (data f) with
        | None => (inl Ruby.ParserError, s1)
        | Some d =>
            match assoc "token" d with
            | None => (inl (Ruby.KeyError "token"), s1)
            | Some tok =>
                match assoc "expiry" d with
                | None => (inl (Ruby.KeyError "expiry"), s1)
                | Some (Ruby.JStr s) =>
                    match Time_parse s with
                    | None => (inl Ruby.ArgumentError, s1)
                    | Some exp =>
                        if (clock w <? exp)%Z then
                          (inr true,
                           Ruby.State
                             (Ruby.Instance (Ruby.client_id i) (Ruby.client_secret i)
                                (Ruby.refresh_token i) (Some tok) (Some exp))
                             (emit (EvRead CC) w))
                        else (inr false, s1)
                    end
                | Some _ => (inl Ruby.TypeError, s1)
                end
            end
        end
      else (inl (Ruby.SystemCallError EACCES), s1)
  end.
Proof.
  unfold Ruby.try_access_token_from_cache, Ruby.rescue_ENOENT.
  unfold Ruby.bind at 1. rewrite File_read_eq.
  destruct (files w !! CC) as [f|]; [|reflexivity].
  destruct (readable f); [|reflexivity].
  unfold Ruby.parse_json, Ruby.fetch, Ruby.parse_time, Ruby.set_expiry, Ruby.set_token.
  ruby_unfold.
  destruct (JSON_parse (data f)) as [d|]; [|reflexivity]. ruby_unfold.
  destruct (assoc "token" d) as [tok|]; [|reflexivity]. ruby_unfold.
  destruct (assoc "expiry" d) as [[|s|n]|]; try reflexivity.
  destruct (Time_parse s) as [exp|]; [|reflexivity]. ruby_unfold.
  now destruct (clock w <? exp)%Z.
Qed.

(** The Ruby class meets the design here.  The first tier accepts the cached record exactly when it is
    there and its expiry is strictly after the current instant. *)
Lemma try_access_token_from_cache_accepts (st : Ruby.state) :
  (exists st', tier1 st = (inr true, st')) <->
  (exists tok exp, cache_holds JSON_parse Time_parse (Ruby.env st) CC tok exp /\
                   (clock (Ruby.env st) < exp)%Z).
Proof.
  destruct st as [i w]. cbn [Ruby.env]. rewrite try_access_token_from_cache_eq.
  unfold cache_holds. cbv zeta. split.
  - intros [st' H].
    destruct (files w !! CC) as [f|]; [|discriminate].
    destruct (readable f) eqn:Hr; [|discriminate].
    destruct (JSON_parse (data f)) as [d|] eqn:Hd; [|discriminate].
    destruct (assoc "token" d) as [tok|] eqn:Ht; [|discriminate].
    destruct (assoc "expiry" d) as [[|s|n]|] eqn:He; try discriminate.
    destruct (Time_parse s) as [exp|] eqn:Hp; [|discriminate].
    destruct (Z.ltb_spec (clock w) exp) as [Hlt|]; [|discriminate].
    exists tok, exp. split; [|exact Hlt]. exists f, d, s.
    repeat split; assumption.
  - intros (tok & exp & (f & d & s & -> & -> & -> & -> & -> & ->) & Hlt).
    apply Z.ltb_lt in Hlt as ->. eauto.
Qed.

(** A record that is there but has expired is not accepted: the first tier
    returns false, leaves the instance as it was, and so hands over to the
    second tier. *)
Lemma try_access_token_from_cache_expired (st : Ruby.state) tok exp :
  cache_holds JSON_parse Time_parse (Ruby.env st) CC tok exp ->
  (exp <= clock (Ruby.env st))%Z ->
  tier1 st = (inr false, Ruby.State (Ruby.self st) (emit (EvRead CC) (Ruby.env st))).
Proof.
  destruct st as [i w]. cbn [Ruby.env Ruby.self].
  intros (f & d & s & Hf & Hr & Hd & Ht & He & Hp) Hle.
  rewrite try_access_token_from_cache_eq, Hf, Hr, Hd, Ht, He, Hp. cbv zeta.
  now apply Z.ltb_ge in Hle as ->.
Qed.

Lemma ensure_current_token_expired_cache (st : Ruby.state) tok exp :
  signed_out st ->
  cache_holds JSON_parse Time_parse (Ruby.env st) CC tok exp ->
  (exp <= clock (Ruby.env st))%Z ->
  ensure_current_token st =
  match tier2 (Ruby.State (Ruby.self st) (emit (EvRead CC) (Ruby.env st))) with
  | (inl e, s2) => (inl e, s2)
  | (inr true, s2) => store s2
  | (inr false, s2) =>
      match tier3 s2 with
      | (inl e, s3) => (inl e, s3)
      | (inr _, s3) => store s3
      end
  end.
Proof.
  intros Hout Hc Hle. rewrite (ensure_current_token_order st Hout).
  rewrite (try_access_token_from_cache_expired st tok exp Hc Hle).
  destruct (tier2 _) as [[e|[|]] s2]; try reflexivity.
  destruct (tier3 s2) as [[e|[|]] s3]; reflexivity.
Qed.

(** What each source does to the world: one read, one read, one request. *)

Lemma try_access_token_from_cache_env (st : Ruby.state) r s1 :
  tier1 st = (r, s1) ->
  Ruby.env s1 = emit (EvRead CC) (Ruby.env st) /\
  (forall c, r <> inl (Ruby.HTTPError c)).
Proof.
  destruct st as [i w]. rewrite try_access_token_from_cache_eq. cbv zeta.
  repeat case_match; intros [= <- <-]; (split; [reflexivity | discriminate]).
Qed.

Lemma try_access_token_from_gcloud_db_env (st : Ruby.state) r s2 :
  tier2 st = (r, s2) ->
  Ruby.env s2 = emit (EvRead DB) (Ruby.env st) /\
  (forall c, r <> inl (Ruby.HTTPError c)).
Proof.
  destruct st as [i w]. unfold Ruby.try_access_token_from_gcloud_db.
  unfold Ruby.bind at 1. rewrite File_read_eq.
  unfold Ruby.parse_time, Ruby.set_expiry, Ruby.set_token. ruby_unfold.
  repeat (case_match; ruby_unfold; simplify_eq); intros [= <- <-];
    (split; [reflexivity | discriminate]).
Qed.

Lemma refresh_access_token_env (st : Ruby.state) r s3 :
  tier3 st = (r, s3) ->
  Ruby.env s3
  = emit (EvHTTP (Ruby.refresh_request to_json (Ruby.self st))) (Ruby.env st).
Proof.
  destruct st as [i w]. unfold Ruby.refresh_access_token, send.
  unfold Ruby.parse_json, Ruby.fetch, Ruby.set_expiry, Ruby.set_token. ruby_unfold.
  repeat (case_match; ruby_unfold; simplify_eq); intros [= <- <-]; reflexivity.
Qed.

Lemma update_cache_trace (st : Ruby.state) r s' :
  store st = (r, s') ->
  (exists evs, trace (Ruby.env s') = trace (Ruby.env st) ++ evs /\
               Forall (on_path CC) evs) /\
  (forall c, r <> inl (Ruby.HTTPError c)).
Proof.
  destruct st as [i w].
  unfold Ruby.update_cache, Ruby.File_write, Ruby.File_open_w, open_write.
  ruby_unfold.
  repeat (case_match; ruby_unfold; simplify_eq); intros [= <- <-];
    (split; [|discriminate]); os_simpl; rewrite <- ?app_assoc;
    eexists; (split; [reflexivity || (symmetry; apply app_nil_r)|]);
    repeat constructor.
Qed.

(** The order of the sources in the Ruby class.  With no current token in
    memory, the sources are consulted
    in the order cache file, SDK store, refresh request, each one only when
    the ones before it returned false; what follows in the trace is the
    store; and the resolution ends with the error of the refresh exchange
    exactly when the first two sources returned false and the exchange
    failed. *)
Lemma ensure_current_token_sources (st : Ruby.state) :
  signed_out st ->
  let '(r1, s1) := tier1 st in
  let '(r2, s2) := tier2 s1 in
  let '(r3, s3) := tier3 s2 in
  let refresh := EvHTTP (Ruby.refresh_request to_json (Ruby.self s2)) in
  let consulted :=
    match r1, r2 with
    | inr false, inr false => [EvRead CC; EvRead DB; refresh]
    | inr false, _ => [EvRead CC; EvRead DB]
    | _, _ => [EvRead CC]
    end in
  exists r st' stored,
    ensure_current_token st = (r, st') /\
    trace (Ruby.env st') = trace (Ruby.env st) ++ consulted ++ stored /\
    Forall (on_path CC) stored /\
    (forall c, r = inl (Ruby.HTTPError c) <->
               r1 = inr false /\ r2 = inr false /\ r3 = inl (Ruby.HTTPError c)).
Proof.
  intros Hout. rewrite (ensure_current_token_order st Hout).
  destruct (tier1 st) as [r1 s1] eqn:H1.
  destruct (tier2 s1) as [r2 s2] eqn:H2.
  destruct (tier3 s2) as [r3 s3] eqn:H3.
  destruct (try_access_token_from_cache_env _ _ _ H1) as [E1 N1].
  destruct (try_access_token_from_gcloud_db_env _ _ _ H2) as [E2 N2].
  pose proof (refresh_access_token_env _ _ _ H3) as E3.
  assert (forall s r s', store s = (r, s') ->
            exists stored, trace (Ruby.env s') = trace (Ruby.env s) ++ stored /\
                           Forall (on_path CC) stored /\
                           forall c, r <> inl (Ruby.HTTPError c)) as Hst.
  { intros s r s' H. destruct (update_cache_trace _ _ _ H) as [(evs & ? & ?) ?]. eauto. }
  destruct r1 as [e1|[|]].
  - exists (inl e1), s1, []. rewrite E1. cbn [emit trace].
    split; [reflexivity|]. split; [reflexivity|]. split; [constructor|].
    intros c; split; intros H; [injection H as ->; destruct (N1 c eq_refl) | now destruct H].
  - destruct (store s1) as [r s'] eqn:Hs. destruct (Hst _ _ _ Hs) as (stored & Ht & Hf & Hn).
    exists r, s', stored. rewrite Ht, E1. cbn [emit trace].
    split; [reflexivity|]. split; [now rewrite <- ?app_assoc|]. split; [assumption|].
    intros c; split; intros H; [destruct (Hn c H) | now destruct H].
  - destruct r2 as [e2|[|]].
    + exists (inl e2), s2, []. rewrite E2, E1. cbn [emit trace].
      split; [reflexivity|]. split; [now rewrite <- ?app_assoc|]. split; [constructor|].
      intros c; split; intros H; [injection H as ->; destruct (N2 c eq_refl) | now destruct H as (_ & ? & _)].
    + destruct (store s2) as [r s'] eqn:Hs.
      destruct (Hst _ _ _ Hs) as (stored & Ht & Hf & Hn).
      exists r, s', stored. rewrite Ht, E2, E1. cbn [emit trace].
      split; [reflexivity|]. split; [now rewrite <- ?app_assoc|]. split; [assumption|].
      intros c; split; intros H; [destruct (Hn c H) | now destruct H as (_ & ? & _)].
    + destruct r3 as [e3|b].
      * exists (inl e3), s3, []. rewrite E3, E2, E1. cbn [emit trace].
        split; [reflexivity|]. split; [now rewrite <- ?app_assoc|]. split; [constructor|].
        intros c; split; intros H; [injection H as ->; auto | destruct H as (_ & _ & [= ->]); reflexivity].
      * destruct (store s3) as [r s'] eqn:Hs.
        destruct (Hst _ _ _ Hs) as (stored & Ht & Hf & Hn).
        exists r, s', stored. rewrite Ht, E3, E2, E1. cbn [emit trace].
        split; [now destruct b|]. split; [now rewrite <- ?app_assoc|]. split; [assumption|].
        intros c; split; intros H; [destruct (Hn c H) | now destruct H as (_ & _ & ?)].
Qed.

End RubyToken.

(** ** The Ruby class: the conditional fetch *)

Lemma run_events_app (a b : list event) (w : world) :
  run_events (a ++ b) w = run_events b (run_events a w).
Proof. revert w; induction a as [|e a IH]; intros w; simpl; auto. Qed.

Lemma run_events_trace (es : list event) (w : world) :
  trace (run_events es w) = trace w ++ es.
Proof.
  revert w; induction es as [|e r IH]; intros w; simpl.
  - now rewrite app_nil_r.
  - rewrite IH. cbn [emit trace]. now rewrite <- app_assoc.
Qed.

Lemma run_events_fields (es : list event) (w : world) :
  umask (run_events es w) = umask w /\ clock (run_events es w) = clock w /\
  server (run_events es w) = server w /\ tmpname (run_events es w) = tmpname w.
Proof.
  revert w; induction es as [|e r IH]; intros w; simpl; [auto|].
  destruct (IH (emit e w)) as (-> & -> & -> & ->). auto.
Qed.

Lemma write_chunks_run (p : string) (cs : list (list ascii)) (off : nat) (w : world) :
  write_chunks p off cs w = run_events (write_events p off cs) w.
Proof. revert off w; induction cs as [|c r IH]; intros off w; simpl; auto. Qed.

Lemma apply_away (p : string) (e : event) (fs : gmap string file) :
  away_from p e -> apply e fs !! p = fs !! p.
Proof.
  destruct e; simpl; intros H; auto.
  - now rewrite lookup_insert_ne.
  - now rewrite lookup_alter_ne.
  - now rewrite lookup_alter_ne.
  - destruct H. destruct (fs !! src); [|reflexivity].
    now rewrite lookup_insert_ne, lookup_delete_ne.
  - now rewrite lookup_delete_ne.
  - destruct (fs !! src); [|reflexivity]. now rewrite lookup_insert_ne.
Qed.

Lemma replay_away (p : string) (es : list event) (fs : gmap string file) :
  Forall (away_from p) es -> Forall (fun fs' => fs' !! p = fs !! p) (replay fs es).
Proof.
  intros H. revert fs. induction H as [|e r He Hr IH]; intros fs; simpl.
  - constructor; [reflexivity | constructor].
  - constructor; [reflexivity|].
    eapply Forall_impl; [apply IH|]. intros fs' ->. now apply apply_away.
Qed.

Lemma run_events_away (p : string) (es : list event) (w : world) :
  Forall (away_from p) es -> files (run_events es w) !! p = files w !! p.
Proof.
  intros H. revert w. induction H as [|e r He Hr IH]; intros w; simpl; [reflexivity|].
  rewrite IH. cbn [emit files]. now apply apply_away.
Qed.

Lemma write_events_away (p q : string) (cs : list (list ascii)) (off : nat) :
  q <> p -> Forall (away_from p) (write_events q off cs).
Proof.
  intros H. revert off. induction cs as [|c r IH]; intros off; simpl; constructor; auto.
Qed.

(** *** Worlds with an open file object *)

Ltac io_simpl :=
  cbn [Ruby.env Ruby.self has existsb orb write_chunks emit files apply umask
       clock server tmpname trace mode data fmap option_fmap option_map
       fst snd negb set_opened device opened hpath hpos hbuf run_events].

Lemma emit_set_opened (e : event) (h : option handle) (w : world) :
  emit e (set_opened h w) = set_opened h (emit e w).
Proof. reflexivity. Qed.

Lemma run_events_set_opened (es : list event) (h : option handle) (w : world) :
  run_events es (set_opened h w) = set_opened h (run_events es w).
Proof.
  revert w; induction es as [|e es IH]; intros w; [reflexivity|].
  cbn [run_events]. now rewrite emit_set_opened, IH.
Qed.

Lemma run_events_device (es : list event) (w : world) :
  device (run_events es w) = device w.
Proof.
  revert w; induction es as [|e es IH]; intros w; [reflexivity|].
  cbn [run_events]. now rewrite IH.
Qed.

Lemma run_events_opened (es : list event) (w : world) :
  opened (run_events es w) = opened w.
Proof.
  revert w; induction es as [|e es IH]; intros w; [reflexivity|].
  cbn [run_events]. now rewrite IH.
Qed.

Lemma set_opened_same (w : world) : set_opened (opened w) w = w.
Proof. now destruct w. Qed.

(** *** Writes through the buffer *)

Lemma io_write_all_cons (c : list ascii) (r : list (list ascii)) (w : world) :
  Ruby.io_write_all (c :: r) w = Ruby.io_write_all r (Ruby.io_write c w).
Proof. reflexivity. Qed.

(** The chunks of a body on a file object that is open on [p]. *)
Lemma io_write_all_run (p : string) (cs : list (list ascii)) (pos : nat)
    (buf : list ascii) (w : world) :
  opened w = Some (Handle (Some p) pos buf) ->
  Ruby.io_write_all cs w =
  set_opened (Some (Handle (Some p) (fst (snd (io_writes p pos buf cs)))
                           (snd (snd (io_writes p pos buf cs)))))
             (run_events (fst (io_writes p pos buf cs)) w).
Proof.
  revert pos buf w; induction cs as [|c r IH]; intros pos buf w Ho.
  - cbn [io_writes fst snd run_events]. rewrite <- Ho. symmetry. apply set_opened_same.
  - rewrite io_write_all_cons. destruct c as [|a c].
    + unfold Ruby.io_write. rewrite Ho. cbn [io_writes]. now apply IH.
    + unfold Ruby.io_write. rewrite Ho. cbn [io_writes hbuf hpos hpath].
      destruct (Ruby.IO_WBUF_CAPA_MIN <=? length buf + length (a :: c))%nat.
      * unfold Ruby.write_out. cbn [hpath hpos].
        rewrite (IH (pos + length (buf ++ a :: c)) []) by reflexivity.
        destruct (io_writes p (pos + length (buf ++ a :: c)) [] r) as [es [pos' buf']].
        cbn [fst snd run_events]. now rewrite run_events_set_opened.
      * rewrite (IH pos (buf ++ a :: c)) by reflexivity.
        now rewrite run_events_set_opened.
Qed.

Lemma io_writes_events (p : string) (cs : list (list ascii)) (pos : nat)
    (buf : list ascii) :
  Forall (fun e => exists off b, e = EvWrite p off b) (fst (io_writes p pos buf cs)).
Proof.
  revert pos buf; induction cs as [|c r IH]; intros pos buf; [constructor|].
  destruct c as [|a c]; cbn [io_writes]; [apply IH|].
  destruct (Ruby.IO_WBUF_CAPA_MIN <=? length buf + length (a :: c))%nat; [|apply IH].
  specialize (IH (pos + length (buf ++ a :: c)) []).
  destruct (io_writes p (pos + length (buf ++ a :: c)) [] r) as [es h].
  constructor; [eauto | exact IH].
Qed.

Lemma io_writes_away (p q : string) (cs : list (list ascii)) (pos : nat)
    (buf : list ascii) :
  p <> q -> Forall (away_from q) (fst (io_writes p pos buf cs)).
Proof.
  intros Hne. eapply Forall_impl; [apply io_writes_events|].
  intros e (off & b & ->). exact Hne.
Qed.

(** What has reached the file and what is still in the buffer add up to
    the bytes written, in order. *)
Lemma io_writes_files (p : string) (cs : list (list ascii)) (pos : nat)
    (buf : list ascii) (w : world) (d : list ascii) (m : N) :
  files w !! p = Some (File d m) -> length d = pos ->
  exists d',
    files (run_events (fst (io_writes p pos buf cs)) w) !! p = Some (File d' m) /\
    length d' = fst (snd (io_writes p pos buf cs)) /\
    d' ++ snd (snd (io_writes p pos buf cs)) = d ++ buf ++ concat cs.
Proof.
  revert pos buf w d; induction cs as [|c r IH]; intros pos buf w d Hf Hl.
  - exists d. cbn. now rewrite app_nil_r.
  - destruct c as [|a c]; cbn [io_writes concat]; [now apply IH|].
    destruct (Ruby.IO_WBUF_CAPA_MIN <=? length buf + length (a :: c))%nat.
    + destruct (IH (pos + length (buf ++ a :: c)) []
                   (emit (EvWrite p pos (buf ++ a :: c)) w) (d ++ buf ++ a :: c))
        as (d' & H1 & H2 & H3).
      * cbn [emit files apply]. rewrite lookup_alter_eq, Hf. cbn.
        subst pos. unfold pwrite. rewrite take_ge, drop_ge by lia.
        replace (length d - length d) with 0 by lia. cbn. now rewrite app_nil_r.
      * rewrite !length_app. lia.
      * destruct (io_writes p (pos + length (buf ++ a :: c)) [] r) as [es [pos' buf']].
        exists d'. cbn [fst snd run_events] in *. split; [exact H1|]. split; [exact H2|].
        rewrite H3. cbn [app]. now rewrite <- !app_assoc.
    + destruct (IH pos (buf ++ a :: c) w d Hf Hl) as (d' & H1 & H2 & H3).
      exists d'. split; [exact H1|]. split; [exact H2|].
      rewrite H3. now rewrite <- !app_assoc.
Qed.

Lemma io_writes_path (p q : string) (cs : list (list ascii)) (pos : nat)
    (buf : list ascii) :
  snd (io_writes p pos buf cs) = snd (io_writes q pos buf cs).
Proof.
  revert pos buf; induction cs as [|c r IH]; intros pos buf; [reflexivity|].
  destruct c as [|a c]; cbn [io_writes]; [apply IH|].
  destruct (Ruby.IO_WBUF_CAPA_MIN <=? length buf + length (a :: c))%nat; [|apply IH].
  specialize (IH (pos + length (buf ++ a :: c)) []).
  destruct (io_writes p (pos + length (buf ++ a :: c)) [] r) as [es h].
  destruct (io_writes q (pos + length (buf ++ a :: c)) [] r) as [es' h'].
  exact IH.
Qed.


Lemma io_close_run (p : option string) (pos : nat) (buf : list ascii) (w : world) :
  Ruby.io_close (set_opened (Some (Handle p pos buf)) w)
  = set_opened None
      (run_events match p, buf with
                  | Some q, _ :: _ => [EvWrite q pos buf]
                  | _, _ => []
                  end w).
Proof.
  unfold Ruby.io_close. cbn [opened set_opened hbuf].
  destruct buf as [|a b]; [now destruct p|].
  unfold Ruby.write_out. cbn [hpath hpos]. now destruct p.
Qed.

Lemma follow_opened (src : string) (dst : option string) (pos : nat)
    (buf : list ascii) (w : world) :
  follow src dst (set_opened (Some (Handle (Some src) pos buf)) w)
  = set_opened (Some (Handle dst pos buf)) w.
Proof.
  unfold follow. cbn [opened set_opened hpath hpos hbuf].
  now rewrite bool_decide_true by reflexivity.
Qed.

Lemma late_events (p : string) (cs : list (list ascii)) :
  late p cs = match snd (snd (io_writes p 0 [] cs)) with
              | [] => []
              | _ :: _ => [EvWrite p (fst (snd (io_writes p 0 [] cs)))
                                   (snd (snd (io_writes p 0 [] cs)))]
              end.
Proof. unfold late. now destruct (snd (io_writes p 0 [] cs)) as [pos [|a b]]. Qed.

(** [File.write] on a path that is free or holds a file that can be
    rewritten. *)
Lemma File_write_run (q s : string) (i : Ruby.instance) (w : world) :
  match files w !! q with
  | Some f => writable f = true
  | None => True
  end ->
  Ruby.File_write q s (Ruby.State i w)
  = (inr tt,
     Ruby.State i
       (run_events
          [(if bool_decide (is_Some (files w !! q)) then EvTrunc q
            else EvCreat q (N.ldiff mode_0666 (umask w)));
           EvWrite q 0 (list_ascii_of_string s)] w)).
Proof.
  intros H. unfold Ruby.File_write, Ruby.File_open_w. ruby_unfold.
  unfold open_write. os_simpl.
  destruct (files w !! q) as [f|].
  - rewrite H. os_simpl. now rewrite bool_decide_true by eauto.
  - os_simpl. now rewrite bool_decide_false by (intros [? ?]; discriminate).
Qed.

Lemma FileUtils_mv_run (src dst : string) (i : Ruby.instance) (pos : nat)
    (buf : list ascii) (w : world) :
  Ruby.FileUtils_mv src dst
    (Ruby.State i (set_opened (Some (Handle (Some src) pos buf)) w))
  = (inr tt,
     Ruby.State i
       (if Nat.eqb (device w src) (device w dst)
        then set_opened (Some (Handle (Some dst) pos buf))
                        (emit (EvRename src dst) w)
        else set_opened (Some (Handle None pos buf))
                        (run_events [EvCopy src dst; EvUnlink src] w))).
Proof.
  unfold Ruby.FileUtils_mv. ruby_unfold. cbn [device set_opened].
  destruct (Nat.eqb (device w src) (device w dst)); ruby_unfold;
    rewrite !emit_set_opened, follow_opened; reflexivity.
Qed.

Section RubyFetch.
Variable home : string.
Variable JSON_parse : list ascii -> option Ruby.json.
Variable to_json : Ruby.json -> string.
Variable Time_parse : string -> option Z.
Variable Time_to_s : Z -> string.
Variable scan_access_tokens : list ascii -> list string.

Local Abbreviation get :=
  (Ruby.get home JSON_parse to_json Time_parse Time_to_s scan_access_tokens).
Local Abbreviation update_http :=
  (Ruby.update_http home JSON_parse to_json Time_parse Time_to_s scan_access_tokens).

Lemma signed_in_env (i : Ruby.instance) (w w' : world) :
  clock w' = clock w -> signed_in (Ruby.State i w) -> signed_in (Ruby.State i w').
Proof. intros E (e & ? & ? & ?). exists e. cbn in *. rewrite E. auto. Qed.

(** [get] with a current token: one request, and the answer decides. *)
Lemma get_eq (url : string) (etag : option string) (i : Ruby.instance)
    (w : world) (m : list string) :
  signed_in (Ruby.State i w) ->
  FindStringSubmatch LineAnchors gsURLRegexp url = Some m ->
  get url etag (Ruby.State i w) =
  let req := Ruby.storage_request i (submatch m 1) (submatch m 2) etag in
  let w1 := emit (EvHTTP req) w in
  match server w req with
  | None => (inl Ruby.SocketError, Ruby.State i w1)
  | Some res =>
      if (StatusCode res =? 200)%Z then
        let w2 := Ruby.io_write_all (chunks res) w1 in
        if intact res then (inr (header "ETag" (resp_headers res)), Ruby.State i w2)
        else (inl Ruby.SocketError, Ruby.State i w2)
      else if (StatusCode res =? 304)%Z then (inr None, Ruby.State i w1)
      else (inl (Ruby.HTTPError (StatusCode res)), Ruby.State i w1)
  end.
Proof.
  intros Hin Hm. unfold Ruby.get. unfold Ruby.bind at 1.
  rewrite (ensure_current_token_signed_in _ _ _ _ _ _ _ Hin).
  unfold Ruby.parse_gs_url. rewrite Hm. unfold send. ruby_unfold.
  destruct (server w _) as [res|]; [|reflexivity].
  destruct (StatusCode res =? 200)%Z; ruby_unfold.
  - now destruct (intact res).
  - now destruct (StatusCode res =? 304)%Z.
Qed.

(** One call of [update_http], answer by answer: the events of the call
    after the request, and no file object left open. *)
Lemma update_http_eq (path url : string) (st : Ruby.state) (m : list string) :
  ready st path ->
  FindStringSubmatch LineAnchors gsURLRegexp url = Some m ->
  update_http path url st =
  let i := Ruby.self st in
  let w := Ruby.env st in
  let tmp := tmpfile w in
  let req := Ruby.storage_request i (submatch m 1) (submatch m 2) (sidecar w path) in
  let finish := fun evs =>
    Ruby.State i (set_opened None (run_events (fetch_prologue w path req ++ evs) w)) in
  match server w req with
  | None => (inl Ruby.SocketError, finish [EvUnlink tmp])
  | Some res =>
      let discard := early w (chunks res) ++ late tmp (chunks res) ++ [EvUnlink tmp] in
      if (StatusCode res =? 200)%Z then
        if intact res then
          match header "ETag" (resp_headers res) with
          | Some e =>
              (inr tt,
               finish (early w (chunks res) ++
                       if one_device w path
                       then promote w path e ++ late path (chunks res)
                       else promote_across w path e))
          | None => (inr tt, finish discard)
          end
        else (inl Ruby.SocketError, finish discard)
      else if (StatusCode res =? 304)%Z then (inr tt, finish [EvUnlink tmp])
      else (inl (Ruby.HTTPError (StatusCode res)), finish [EvUnlink tmp])
  end.
Proof.
  destruct st as [i w]. intros (Hin & Htmp & Htp & Hte & Hpe & Hside) Hm.
  cbn [Ruby.env Ruby.self] in *. cbv zeta.
  set (ep := Ruby.etag_path path) in *. set (tmp := tmpfile w) in *.
  unfold Ruby.update_http. fold ep.
  unfold Ruby.bind at 1. unfold Ruby.rescue_ENOENT. unfold Ruby.bind at 1.
  rewrite File_read_eq.
  assert (sidecar w path = (fun f => string_of_list_ascii (data f)) <$> files w !! ep)
    as Hsc by reflexivity.
  set (etag := sidecar w path) in *.
  assert ((match
             match
               match files w !! ep with
               | Some f =>
                   if readable f
                   then (inr (data f), Ruby.State i (emit (EvRead ep) w))
                   else (inl (Ruby.SystemCallError EACCES),
                         Ruby.State i (emit (EvRead ep) w))
               | None => (inl (Ruby.SystemCallError ENOENT),
                          Ruby.State i (emit (EvRead ep) w))
               end
             with
             | (inl e, s') => (inl e, s')
             | (inr a, s') => Ruby.ret (Some (string_of_list_ascii a)) s'
             end
           with
           | (inl (Ruby.SystemCallError ENOENT), s') => Ruby.ret None s'
           | r => r
           end : (Ruby.exn + option string) * Ruby.state)
          = (inr etag, Ruby.State i (emit (EvRead ep) w))) as ->.
  { rewrite Hsc. destruct (files w !! ep) as [f|]; [|reflexivity].
    now destruct Hside as [-> _]. }
  ruby_unfold. change (Ruby.File_join (tmpname w) "file") with tmp.
  unfold Ruby.ensure at 1. unfold Ruby.File_open_w. ruby_unfold.
  unfold open_write at 1. os_simpl. rewrite Htmp. os_simpl.
  unfold Ruby.ensure.
  set (req := Ruby.storage_request i (submatch m 1) (submatch m 2) etag).
  set (w0 := Ruby.io_open tmp (emit (EvCreat tmp (N.ldiff mode_0644 (umask w)))
                                    (emit (EvRead ep) w))).
  rewrite get_eq with (m := m);
    [|apply (signed_in_env i w); [reflexivity|exact Hin]|exact Hm].
  cbv zeta. fold req.
  assert (server w0 req = server w req) as -> by reflexivity.
  set (h0 := Handle (Some tmp) 0 []).
  assert (emit (EvHTTP req) w0
          = set_opened (Some h0) (run_events (fetch_prologue w path req) w)) as Ew1
    by reflexivity.
  rewrite Ew1. set (w1 := run_events (fetch_prologue w path req) w).
  assert (files w1 !! tmp = Some (File [] (N.ldiff mode_0644 (umask w)))) as Ht1.
  { unfold w1, fetch_prologue. io_simpl. apply lookup_insert_eq. }
  assert (forall evs, set_opened None (emit (EvUnlink tmp) (run_events evs w1))
                      = set_opened None
                          (run_events (fetch_prologue w path req ++ evs ++ [EvUnlink tmp]) w))
    as Hfin.
  { intros evs. now rewrite !run_events_app. }
  assert (forall q, q <> tmp -> files w1 !! q = files w !! q) as Hw1.
  { intros q Hq. unfold w1, fetch_prologue. io_simpl. now rewrite lookup_insert_ne. }
  assert (Ruby.remove_entry tmp (Ruby.io_close (set_opened (Some h0) w1))
          = set_opened None
              (run_events (fetch_prologue w path req ++ [EvUnlink tmp]) w)) as Hquiet.
  { unfold h0. rewrite io_close_run. cbn [run_events]. unfold Ruby.remove_entry.
    cbn [files set_opened]. rewrite Ht1, emit_set_opened. now rewrite run_events_app. }
  destruct (server w req) as [res|].
  2:{ cbn [Ruby.self Ruby.env]. now rewrite Hquiet. }
  destruct (StatusCode res =? 200)%Z.
  2:{ destruct (StatusCode res =? 304)%Z; cbn [Ruby.self Ruby.env]; now rewrite Hquiet. }
  rewrite (io_write_all_run tmp (chunks res) 0 [] (set_opened (Some h0) w1))
    by reflexivity.
  rewrite run_events_set_opened.
  change (fst (io_writes tmp 0 [] (chunks res))) with (early w (chunks res)).
  set (pos := fst (snd (io_writes tmp 0 [] (chunks res)))).
  set (buf := snd (snd (io_writes tmp 0 [] (chunks res)))).
  set (w2 := run_events (early w (chunks res)) w1).
  set (h2 := Handle (Some tmp) pos buf).
  change (set_opened (Some h2) (set_opened (Some h0) w2)) with (set_opened (Some h2) w2).
  destruct (io_writes_files tmp (chunks res) 0 [] w1 [] _ Ht1 eq_refl)
    as (d' & Hd1 & Hd2 & Hd3).
  change (run_events (fst (io_writes tmp 0 [] (chunks res))) w1) with w2 in Hd1.
  fold pos in Hd2. fold buf in Hd3. cbn [app] in Hd3.
  pose proof (late_events tmp (chunks res)) as Hlt. fold pos buf in Hlt.
  assert (Ruby.remove_entry tmp (Ruby.io_close (set_opened (Some h2) w2))
          = set_opened None
              (run_events (fetch_prologue w path req ++ early w (chunks res)
                             ++ late tmp (chunks res) ++ [EvUnlink tmp]) w))
    as Hdiscard.
  { unfold h2. rewrite io_close_run.
    replace (match buf with [] => [] | _ :: _ => [EvWrite tmp pos buf] end)
      with (late tmp (chunks res)) by (rewrite Hlt; reflexivity).
    unfold Ruby.remove_entry. cbn [files set_opened].
    assert (is_Some (files (run_events (late tmp (chunks res)) w2) !! tmp)) as [f ->].
    { rewrite Hlt. destruct buf; cbn [run_events emit files apply];
        [|rewrite lookup_alter_eq]; rewrite Hd1; eauto. }
    rewrite emit_set_opened. unfold w2, w1. now rewrite !run_events_app. }
  destruct (intact res).
  2:{ cbn [Ruby.self Ruby.env]. now rewrite Hdiscard. }
  destruct (header "ETag" (resp_headers res)) as [e|].
  2:{ cbn [Ruby.self Ruby.env]. now rewrite Hdiscard. }
  unfold h2. rewrite FileUtils_mv_run.
  assert (device w2 = device w) as ->.
  { unfold w2, w1. now rewrite !run_events_device. }
  change (device w tmp =? device w path)%nat with (one_device w path).
  assert (forall q, q <> tmp -> files w2 !! q = files w !! q) as Hw2.
  { intros q Hq. unfold w2. rewrite run_events_away; [now apply Hw1|].
    apply io_writes_away. auto. }
  assert (umask w2 = umask w) as Hum.
  { unfold w2, w1. now rewrite !(proj1 (run_events_fields _ _)). }
  assert (forall p, late p (chunks res)
                    = match buf with [] => [] | _ :: _ => [EvWrite p pos buf] end) as Hlp.
  { intros p. rewrite late_events. unfold pos, buf.
    now rewrite (io_writes_path p tmp). }
  destruct (one_device w path).
  - set (w3 := emit (EvRename tmp path) w2).
    assert (files w3 !! ep = files w !! ep) as He3.
    { unfold w3. io_simpl. rewrite Hd1.
      rewrite lookup_insert_ne, lookup_delete_ne by auto. now apply Hw2. }
    assert (files w3 !! tmp = None) as Ht3.
    { unfold w3. io_simpl. rewrite Hd1.
      rewrite lookup_insert_ne by auto. apply lookup_delete_eq. }
    rewrite File_write_run.
    2:{ cbn [files set_opened]. rewrite He3.
        destruct (files w !! ep); [apply Hside | exact I]. }
    cbn [Ruby.self Ruby.env]. rewrite run_events_set_opened, io_close_run.
    unfold Ruby.remove_entry. cbn [files set_opened].
    rewrite <- Hlp. rewrite He3.
    assert (forall h, umask (set_opened h w3) = umask w) as Hum3
      by (intros; exact Hum).
    rewrite !Hum3.
    assert (forall evs, Forall (away_from tmp) evs ->
              files (run_events (late path (chunks res)) (run_events evs w3)) !! tmp
              = None) as Hgone.
    { intros evs Hevs. rewrite !run_events_away; [exact Ht3 | exact Hevs |].
      rewrite Hlp. destruct buf; [constructor|].
      constructor; [intros E; now apply Htp | constructor]. }
    rewrite Hgone.
    2:{ destruct (bool_decide _); repeat constructor; cbn; congruence. }
    unfold promote, w3, w2, w1. now rewrite !run_events_app.
  - set (w3 := run_events [EvCopy tmp path; EvUnlink tmp] w2).
    assert (files w3 !! ep = files w !! ep) as He3.
    { unfold w3. io_simpl. rewrite Hd1.
      rewrite lookup_delete_ne, lookup_insert_ne by auto. now apply Hw2. }
    assert (files w3 !! tmp = None) as Ht3.
    { unfold w3. io_simpl. apply lookup_delete_eq. }
    rewrite File_write_run.
    2:{ cbn [files set_opened]. rewrite He3.
        destruct (files w !! ep); [apply Hside | exact I]. }
    cbn [Ruby.self Ruby.env]. rewrite run_events_set_opened, io_close_run.
    unfold Ruby.remove_entry. cbn [files set_opened]. rewrite He3.
    assert (forall h, umask (set_opened h w3) = umask w) as Hum3
      by (intros; exact Hum).
    rewrite !Hum3.
    rewrite !run_events_away;
      [|destruct (bool_decide _); repeat constructor; cbn; congruence|constructor].
    rewrite Ht3. cbn [run_events].
    unfold promote_across, store_etag, w3, w2, w1. now rewrite !run_events_app.
Qed.

Lemma late_writes (p : string) (cs : list (list ascii)) :
  Forall (fun e => exists off b, e = EvWrite p off b) (late p cs).
Proof.
  rewrite late_events. destruct (snd (snd (io_writes p 0 [] cs))); repeat constructor.
  eauto.
Qed.

(** A download that is not promoted leaves no file behind. *)
Lemma discard_files (w : world) (path : string) (req : request) (evs : list event) :
  files w !! tmpfile w = None ->
  Forall (fun e => exists off b, e = EvWrite (tmpfile w) off b) evs ->
  files (run_events (fetch_prologue w path req ++ evs ++ [EvUnlink (tmpfile w)]) w)
  = files w.
Proof.
  intros Htmp Hevs. apply map_eq. intros q.
  destruct (decide (q = tmpfile w)) as [->|Hq].
  - rewrite !app_assoc, run_events_app. cbn [run_events emit files apply].
    now rewrite lookup_delete_eq, Htmp.
  - apply run_events_away. unfold fetch_prologue. rewrite !Forall_app. repeat split.
    + repeat constructor. cbn. congruence.
    + eapply Forall_impl; [exact Hevs|]. intros e (off & b & ->). cbn. congruence.
    + repeat constructor. cbn. congruence.
Qed.

(** Other statuses in the Ruby class.  A status other than 200 and 304
    makes [update_http] raise
    the HTTP error that carries the status, and the file system afterwards
    is the file system before: the cache entry, if any, is untouched. *)
Lemma update_http_error_status (path url : string) (st : Ruby.state)
    (m : list string) (res : response) :
  ready st path ->
  FindStringSubmatch LineAnchors gsURLRegexp url = Some m ->
  server (Ruby.env st)
    (Ruby.storage_request (Ruby.self st) (submatch m 1) (submatch m 2)
       (sidecar (Ruby.env st) path)) = Some res ->
  StatusCode res <> 200%Z -> StatusCode res <> 304%Z ->
  exists st',
    update_http path url st = (inl (Ruby.HTTPError (StatusCode res)), st') /\
    files (Ruby.env st') = files (Ruby.env st).
Proof.
  intros Hr Hm Hs H200 H304. rewrite (update_http_eq path url st m Hr Hm). cbv zeta.
  rewrite Hs. apply Z.eqb_neq in H200 as ->. apply Z.eqb_neq in H304 as ->.
  eexists. split; [reflexivity|]. cbn [Ruby.env files set_opened].
  destruct Hr as (_ & Htmp & _).
  apply (discard_files (Ruby.env st) path _ [] Htmp). constructor.
Qed.

(** A 304 response: success, and the file system is left as it was. *)
Lemma update_http_not_modified (path url : string) (st : Ruby.state)
    (m : list string) (res : response) :
  let w := Ruby.env st in
  let req := Ruby.storage_request (Ruby.self st) (submatch m 1) (submatch m 2)
               (sidecar w path) in
  ready st path ->
  FindStringSubmatch LineAnchors gsURLRegexp url = Some m ->
  server w req = Some res ->
  StatusCode res = 304%Z ->
  exists st',
    update_http path url st = (inr tt, st') /\
    Ruby.self st' = Ruby.self st /\
    trace (Ruby.env st') = trace w ++ fetch_prologue w path req ++ [EvUnlink (tmpfile w)] /\
    files (Ruby.env st') = files w.
Proof.
  intros w req Hr Hm Hs H304.
  rewrite (update_http_eq path url st m Hr Hm). cbv zeta. fold w req.
  rewrite Hs, H304. cbn [Z.eqb Pos.eqb].
  eexists. split; [reflexivity|]. split; [reflexivity|].
  cbn [Ruby.env files trace set_opened]. split; [apply run_events_trace|].
  destruct Hr as (_ & Htmp & _).
  apply (discard_files w path req [] Htmp). constructor.
Qed.

Lemma flushed_eq (p : string) (cs : list (list ascii)) (d : list ascii) :
  length d = fst (snd (io_writes p 0 [] cs)) ->
  d ++ snd (snd (io_writes p 0 [] cs)) = concat cs ->
  d = flushed cs.
Proof.
  intros Hl Hd. unfold flushed. rewrite (io_writes_path "" p), <- Hl, <- Hd.
  now rewrite take_app_length.
Qed.

(** A body shorter than the buffer stays in it until the file is closed:
    nothing of it has left the process when the file is moved. *)
Lemma io_writes_small (p : string) (cs : list (list ascii)) (pos : nat)
    (buf : list ascii) :
  length buf + length (concat cs) < Ruby.IO_WBUF_CAPA_MIN ->
  io_writes p pos buf cs = ([], (pos, buf ++ concat cs)).
Proof.
  revert buf; induction cs as [|c r IH]; intros buf H; cbn [io_writes concat].
  - now rewrite app_nil_r.
  - cbn [concat] in H. rewrite length_app in H. destruct c as [|a c].
    + now apply IH.
    + destruct (Nat.leb_spec Ruby.IO_WBUF_CAPA_MIN (length buf + length (a :: c)));
        [lia|].
      rewrite IH by (rewrite length_app; lia). now rewrite <- app_assoc.
Qed.

Lemma flushed_small (cs : list (list ascii)) :
  length (concat cs) < Ruby.IO_WBUF_CAPA_MIN -> flushed cs = [].
Proof.
  intros H. unfold flushed. now rewrite (io_writes_small "" cs 0 [] H).
Qed.

(** A 200 response with an ETag: the download is promoted.  Afterwards the
    temporary file is gone, the sidecar holds the new ETag, and the cache
    path holds the whole body when the temporary directory is on the file
    system of the cache, and otherwise what had left the buffer when the
    file was moved. *)
Lemma update_http_promoted (path url : string) (st : Ruby.state)
    (m : list string) (res : response) (e : string) :
  let w := Ruby.env st in
  let req := Ruby.storage_request (Ruby.self st) (submatch m 1) (submatch m 2)
               (sidecar w path) in
  ready st path ->
  FindStringSubmatch LineAnchors gsURLRegexp url = Some m ->
  server w req = Some res ->
  StatusCode res = 200%Z -> intact res = true ->
  header "ETag" (resp_headers res) = Some e ->
  exists st',
    update_http path url st = (inr tt, st') /\
    Ruby.self st' = Ruby.self st /\
    trace (Ruby.env st')
      = trace w ++ fetch_prologue w path req ++ early w (chunks res)
          ++ (if one_device w path
              then promote w path e ++ late path (chunks res)
              else promote_across w path e) /\
    files (Ruby.env st') !! path
      = Some (File (if one_device w path then whole_body res else flushed (chunks res))
                   (N.ldiff mode_0644 (umask w))) /\
    files (Ruby.env st') !! tmpfile w = None /\
    files (Ruby.env st') !! Ruby.etag_path path
      = Some (File (list_ascii_of_string e)
                   match files w !! Ruby.etag_path path with
                   | Some f => mode f
                   | None => N.ldiff mode_0666 (umask w)
                   end) /\
    umask (Ruby.env st') = umask w /\ clock (Ruby.env st') = clock w /\
    server (Ruby.env st') = server w /\ tmpname (Ruby.env st') = tmpname w.
Proof.
  intros w req Hr Hm Hs H200 Hint He.
  rewrite (update_http_eq path url st m Hr Hm). cbv zeta. fold w req.
  rewrite Hs, H200, Hint, He. cbn [Z.eqb Pos.eqb].
  destruct Hr as (_ & Htmp & Htp & Hte & Hpe & Hside). fold w in Htmp, Htp, Hte, Hside.
  set (tmp := tmpfile w) in *. set (ep := Ruby.etag_path path) in *.
  set (cs := chunks res).
  set (w1 := run_events (fetch_prologue w path req) w).
  assert (files w1 !! tmp = Some (File [] (N.ldiff mode_0644 (umask w)))) as Ht1.
  { unfold w1, fetch_prologue. io_simpl. apply lookup_insert_eq. }
  assert (forall q, q <> tmp -> files w1 !! q = files w !! q) as Hw1.
  { intros q Hq. unfold w1, fetch_prologue. io_simpl. now rewrite lookup_insert_ne. }
  destruct (io_writes_files tmp cs 0 [] w1 [] _ Ht1 eq_refl) as (d' & Hd1 & Hd2 & Hd3).
  change (fst (io_writes tmp 0 [] cs)) with (early w cs) in Hd1.
  cbn [app] in Hd3.
  set (w2 := run_events (early w cs) w1) in *.
  assert (forall q, q <> tmp -> files w2 !! q = files w !! q) as Hw2.
  { intros q Hq. unfold w2. rewrite run_events_away; [now apply Hw1|].
    apply io_writes_away. auto. }
  pose proof (late_events path cs) as Hlp.
  rewrite (io_writes_path path tmp) in Hlp.
  eexists. split; [reflexivity|]. split; [reflexivity|].
  cbn [Ruby.env files trace umask clock server tmpname set_opened].
  split; [apply run_events_trace|].
  assert (forall es, umask (run_events es w) = umask w /\ clock (run_events es w) = clock w /\
            server (run_events es w) = server w /\ tmpname (run_events es w) = tmpname w)
    as Hfields by (intros; apply run_events_fields).
  rewrite !(proj1 (Hfields _)), !(proj1 (proj2 (Hfields _))),
    !(proj1 (proj2 (proj2 (Hfields _)))), !(proj2 (proj2 (proj2 (Hfields _)))).
  repeat rewrite run_events_app. fold w1. fold w2.
  assert (forall fs : gmap string file,
            fs !! ep = files w !! ep ->
            apply (EvWrite ep 0 (list_ascii_of_string e))
              (apply (if bool_decide (is_Some (files w !! ep)) then EvTrunc ep
                      else EvCreat ep (N.ldiff mode_0666 (umask w))) fs) !! ep
            = Some (File (list_ascii_of_string e)
                         match files w !! ep with
                         | Some f => mode f
                         | None => N.ldiff mode_0666 (umask w)
                         end)) as Hside_after.
  { intros fs Hfs. destruct (files w !! ep) as [f|] eqn:Hf.
    - rewrite bool_decide_true by eauto. cbn [apply].
      rewrite !lookup_alter_eq, Hfs. cbn -[pwrite]. now rewrite pwrite_empty.
    - rewrite bool_decide_false by (intros [? ?]; discriminate). cbn [apply].
      rewrite lookup_alter_eq, lookup_insert_eq. cbn -[pwrite]. now rewrite pwrite_empty. }
  assert (forall (fs : gmap string file) q, q <> ep ->
            apply (EvWrite ep 0 (list_ascii_of_string e))
              (apply (if bool_decide (is_Some (files w !! ep)) then EvTrunc ep
                      else EvCreat ep (N.ldiff mode_0666 (umask w))) fs) !! q
            = fs !! q) as Hside_other.
  { intros fs q Hq. rewrite !apply_away; [reflexivity| |];
      [destruct (bool_decide _)|]; cbn; congruence. }
  destruct (one_device w path).
  - rewrite run_events_app. unfold promote. fold tmp ep. cbn [run_events].
    set (w3 := emit (EvWrite ep 0 (list_ascii_of_string e)) _).
    assert (files w3 !! path = Some (File d' (N.ldiff mode_0644 (umask w)))) as Hp3.
    { unfold w3. cbn [emit files]. rewrite Hside_other by auto.
      cbn [apply]. rewrite Hd1. apply lookup_insert_eq. }
    assert (files w3 !! tmp = None) as Ht3.
    { unfold w3. cbn [emit files]. rewrite Hside_other by auto.
      cbn [apply]. rewrite Hd1, lookup_insert_ne by auto. apply lookup_delete_eq. }
    assert (files w3 !! ep = Some (File (list_ascii_of_string e)
                                        match files w !! ep with
                                        | Some f => mode f
                                        | None => N.ldiff mode_0666 (umask w)
                                        end)) as He3.
    { unfold w3. cbn [emit files]. apply Hside_after.
      cbn [apply]. rewrite Hd1, lookup_insert_ne, lookup_delete_ne by auto.
      now apply Hw2. }
    rewrite Hlp. unfold whole_body. fold cs.
    destruct (snd (snd (io_writes tmp 0 [] cs))) as [|a b] eqn:Hb.
    + cbn [run_events]. rewrite app_nil_r in Hd3. subst d'. auto 10.
    + cbn [run_events emit files apply].
      rewrite lookup_alter_eq, !lookup_alter_ne, Hp3, Ht3, He3 by auto.
      cbn [fmap option_fmap option_map data mode]. repeat split.
      rewrite <- Hd3, <- Hd2. unfold pwrite.
      rewrite take_ge, drop_ge by lia.
      replace (length d' - length d') with 0 by lia. cbn. now rewrite app_nil_r.
  - unfold promote_across, store_etag. fold tmp ep. cbn [run_events].
    set (w3 := emit (EvWrite ep 0 (list_ascii_of_string e)) _).
    rewrite <- (flushed_eq tmp cs d' Hd2 Hd3).
    unfold w3. cbn [emit files]. rewrite !Hside_other by auto.
    repeat split.
    + cbn [apply]. rewrite Hd1, lookup_delete_ne by auto. apply lookup_insert_eq.
    + cbn [apply]. apply lookup_delete_eq.
    + apply Hside_after. cbn [apply].
      rewrite Hd1, lookup_delete_ne, lookup_insert_ne by auto. now apply Hw2.
Qed.

(** The download in the Ruby class, temporary directory on the file system of
    the cache.  The body goes through the buffer of the open file to the
    temporary file, the file is renamed over the cache path, the sidecar is
    written, and closing the file writes what is left in the buffer through
    the moved file.  Every file system visible up to the rename has the
    cache path as it was before the call, the sidecar is as it was in every
    file system visible up to and including the rename, right after the
    rename the cache path holds what had left the buffer, and at the end
    the cache path holds the whole body and the sidecar the new ETag. *)
Lemma update_http_content (path url : string) (st : Ruby.state)
    (m : list string) (res : response) (e : string) :
  let w := Ruby.env st in
  let req := Ruby.storage_request (Ruby.self st) (submatch m 1) (submatch m 2)
               (sidecar w path) in
  let download := fetch_prologue w path req ++ early w (chunks res) in
  ready st path ->
  FindStringSubmatch LineAnchors gsURLRegexp url = Some m ->
  server w req = Some res ->
  StatusCode res = 200%Z -> intact res = true ->
  header "ETag" (resp_headers res) = Some e ->
  one_device w path = true ->
  exists st',
    update_http path url st = (inr tt, st') /\
    trace (Ruby.env st')
      = trace w ++ download ++ promote w path e ++ late path (chunks res) /\
    Forall (fun fs => fs !! path = files w !! path) (replay (files w) download) /\
    Forall (fun fs => fs !! Ruby.etag_path path = files w !! Ruby.etag_path path)
           (replay (files w) (download ++ [EvRename (tmpfile w) path])) /\
    content (files (run_events (download ++ [EvRename (tmpfile w) path]) w)) path
      = Some (flushed (chunks res)) /\
    content (files (Ruby.env st')) path = Some (whole_body res) /\
    sidecar (Ruby.env st') path = Some e.
Proof.
  intros w req download Hr Hm Hs H200 Hint He Hdev.
  destruct (update_http_promoted path url st m res e Hr Hm Hs H200 Hint He)
    as (st' & Hrun & _ & Htr & Hp & _ & Hep & _).
  fold w req in Htr, Hp, Hep. rewrite Hdev in Htr, Hp.
  destruct Hr as (_ & Htmp & Htp & Hte & Hpe & _). fold w in Htmp, Htp, Hte.
  assert (Forall (away_from path) download) as Hdp.
  { unfold download, fetch_prologue. apply Forall_app. split.
    - repeat constructor. cbn. congruence.
    - now apply io_writes_away. }
  assert (Forall (away_from (Ruby.etag_path path))
                 (download ++ [EvRename (tmpfile w) path])) as Hde.
  { unfold download, fetch_prologue. rewrite !Forall_app. repeat split.
    - repeat constructor. cbn. congruence.
    - now apply io_writes_away.
    - repeat constructor; cbn; congruence. }
  exists st'. split; [exact Hrun|].
  split; [rewrite Htr; unfold download; now rewrite <- !app_assoc|].
  split; [now apply replay_away|]. split; [now apply replay_away|].
  split; [|split].
  - unfold download. rewrite <- app_assoc, !run_events_app.
    set (w1 := run_events (fetch_prologue w path req) w).
    assert (files w1 !! tmpfile w = Some (File [] (N.ldiff mode_0644 (umask w)))) as Ht1.
    { unfold w1, fetch_prologue. io_simpl. apply lookup_insert_eq. }
    destruct (io_writes_files (tmpfile w) (chunks res) 0 [] w1 [] _ Ht1 eq_refl)
      as (d' & Hd1 & Hd2 & Hd3).
    cbn [app] in Hd3. unfold early, content.
    cbn [run_events emit files apply]. rewrite Hd1, lookup_insert_eq. cbn.
    now rewrite <- (flushed_eq (tmpfile w) (chunks res) d' Hd2 Hd3).
  - unfold content. now rewrite Hp.
  - unfold sidecar. rewrite Hep. cbn. now rewrite string_of_list_ascii_of_string.
Qed.

Lemma header_if_none_match (i : Ruby.instance) (B K : string) (etag : option string) :
  header "If-None-Match" (headers (Ruby.storage_request i B K etag)) = etag.
Proof. now destruct etag. Qed.

Lemma serving_current (parts : list (list ascii)) (e : string)
    (i : Ruby.instance) (B K : string) :
  serving parts e (Ruby.storage_request i B K (Some e))
  = Some (Response 304 [] [] true).
Proof.
  unfold serving. rewrite header_if_none_match. now rewrite String.eqb_refl.
Qed.

Lemma serving_other (parts : list (list ascii)) (e : string)
    (i : Ruby.instance) (B K : string) (etag : option string) :
  etag <> Some e ->
  serving parts e (Ruby.storage_request i B K etag)
  = Some (Response 200 [("ETag", e)] parts true).
Proof.
  intros H. unfold serving. rewrite header_if_none_match.
  destruct etag as [e'|]; [|reflexivity].
  destruct (String.eqb_spec e' e) as [->|]; [congruence | reflexivity].
Qed.

Lemma readable_ldiff (um : N) (d : list ascii) :
  N.testbit um 8 = false -> readable (File d (N.ldiff mode_0666 um)) = true.
Proof. intros H. unfold readable. cbn [mode]. now rewrite N.ldiff_spec, H. Qed.

(** Revalidation in the Ruby class.  Against a server whose object does not
    change, two calls in
    a row: after the first the sidecar holds the object's ETag; the second
    sends it in If-None-Match, the answer to that request is 304, the call
    makes this one request and no other, and the file system after the
    second call is the file system before it. *)
Lemma update_http_twice (path url : string) (st : Ruby.state) (m : list string)
    (parts : list (list ascii)) (e : string) :
  ready st path ->
  FindStringSubmatch LineAnchors gsURLRegexp url = Some m ->
  server (Ruby.env st) = serving parts e ->
  N.testbit (umask (Ruby.env st)) 7 = false ->
  N.testbit (umask (Ruby.env st)) 8 = false ->
  exists st1 st2,
    update_http path url st = (inr tt, st1) /\
    sidecar (Ruby.env st1) path = Some e /\
    let req2 := Ruby.storage_request (Ruby.self st1) (submatch m 1) (submatch m 2)
                  (sidecar (Ruby.env st1) path) in
    header "If-None-Match" (headers req2) = Some e /\
    (StatusCode <$> server (Ruby.env st1) req2) = Some 304%Z /\
    update_http path url st1 = (inr tt, st2) /\
    trace (Ruby.env st2)
      = trace (Ruby.env st1) ++ fetch_prologue (Ruby.env st1) path req2
          ++ [EvUnlink (tmpfile (Ruby.env st1))] /\
    files (Ruby.env st2) = files (Ruby.env st1).
Proof.
  intros Hr Hm Hsrv Hu7 Hu8.
  assert (exists st1, update_http path url st = (inr tt, st1) /\
            sidecar (Ruby.env st1) path = Some e /\
            ready st1 path /\ server (Ruby.env st1) = serving parts e)
    as (st1 & H1 & Hsc1 & Hr1 & Hsrv1).
  { destruct (decide (sidecar (Ruby.env st) path = Some e)) as [Hsc|Hsc].
    - destruct st as [i w]. cbn [Ruby.env Ruby.self] in *.
      rewrite (update_http_eq path url _ m Hr Hm). cbv zeta. cbn [Ruby.env Ruby.self].
      destruct Hr as (Hin & Htmp & Htp & Hte & Hpe & Hside). cbn [Ruby.env] in *.
      rewrite Hsrv, Hsc, serving_current. cbn [StatusCode Z.eqb Pos.eqb].
      eexists. split; [reflexivity|]. cbn [Ruby.env].
      set (req := Ruby.storage_request i (submatch m 1) (submatch m 2) (Some e)).
      set (w' := set_opened None _).
      assert (files w' = files w) as Hfs.
      { unfold w'. cbn [files set_opened].
        apply (discard_files w path req [] Htmp). constructor. }
      assert (umask w' = umask w /\ clock w' = clock w /\ server w' = server w /\
              tmpname w' = tmpname w) as (Hum & Hcl & Hsv & Htn).
      { unfold w'. cbn [umask clock server tmpname set_opened]. apply run_events_fields. }
      unfold sidecar, ready, tmpfile in *. cbn [Ruby.env]. rewrite Hfs, Htn.
      split; [exact Hsc|]. split; [|now rewrite Hsv].
      split; [eapply signed_in_env; [|exact Hin]; exact Hcl|].
      repeat split; assumption.
    - pose proof Hr as (Hin & Htmp & Htp & Hte & Hpe & Hside).
      destruct (update_http_promoted path url st m (Response 200 [("ETag", e)] parts true) e
                  Hr Hm) as (st1 & H1 & Hself & _ & _ & Ht1 & Hep & Hum & Hcl & Hsv & Htn);
        [rewrite Hsrv; now apply serving_other | reflexivity | reflexivity | reflexivity |].
      exists st1. split; [exact H1|].
      destruct st as [i w], st1 as [i1 w1]. cbn [Ruby.env Ruby.self] in *. subst i1.
      split; [|split].
      + unfold sidecar. rewrite Hep. cbn. now rewrite string_of_list_ascii_of_string.
      + unfold ready, tmpfile in *. cbn [Ruby.env]. rewrite Htn, Hep.
        split; [eapply signed_in_env; [|exact Hin]; exact Hcl|].
        split; [exact Ht1|]. repeat split; try assumption.
        * destruct (files w !! Ruby.etag_path path) as [f|]; [apply Hside|].
          now apply readable_ldiff.
        * destruct (files w !! Ruby.etag_path path) as [f|]; [apply Hside|].
          now apply writable_ldiff.
      + now rewrite Hsv. }
  destruct (update_http_not_modified path url st1 m (Response 304 [] [] true) Hr1 Hm)
    as (st2 & H2 & _ & Ht2 & Hf2).
  { rewrite Hsrv1, Hsc1. apply serving_current. }
  { reflexivity. }
  exists st1, st2. split; [exact H1|]. split; [exact Hsc1|]. cbv zeta.
  split; [rewrite header_if_none_match; exact Hsc1|].
  split; [rewrite Hsrv1, Hsc1, serving_current; reflexivity|].
  auto.
Qed.

(** [get] resolves the token first: when the resolution raises,
    [get] raises the same exception from the same state, so nothing is sent. *)
Lemma get_aborts_without_token (url : string) (etag : option string)
    (st st' : Ruby.state) (e : Ruby.exn) :
  Ruby.ensure_current_token home JSON_parse to_json Time_parse Time_to_s
    scan_access_tokens st = (inl e, st') ->
  get url etag st = (inl e, st').
Proof. intros H. unfold Ruby.get. unfold Ruby.bind at 1. now rewrite H. Qed.

End RubyFetch.

(** ** Concrete runs of the Ruby class *)

(** A first store, on a machine with umask 022 and no token cache yet. *)
Lemma update_cache_in_place_witness :
  let st := Ruby.State RubyRun.member (at500 ∅ not_found) in
  exists st',
    Ruby.update_cache home RubyRun.to_json RubyRun.Time_to_s st = (inr tt, st') /\
    Ruby.self st' = RubyRun.member /\
    trace (Ruby.env st')
      = [EvCreat RubyRun.token_cache mode_0644;
         EvWrite RubyRun.token_cache 0 RubyRun.record;
         EvWrite RubyRun.token_cache 0 RubyRun.record] /\
    map (fun fs => content fs RubyRun.token_cache)
        (replay ∅ (store_events false (octal [0; 2; 2]%N) RubyRun.token_cache
                     RubyRun.record))
      = [None; Some []; Some RubyRun.record; Some RubyRun.record] /\
    content (files (Ruby.env st')) RubyRun.token_cache = Some RubyRun.record.
Proof.
  intros st.
  exact (update_cache_in_place home RubyRun.to_json RubyRun.Time_to_s st eq_refl).
Defined.

(** The same store against the claim as it stands: the file ends up with
    mode 0644, not 0600; no event of the store is a rename; and between the
    creation and the first write an observer finds the file empty, which is
    neither the state before the store (no file) nor the new record. *)
Lemma update_cache_not_private_not_atomic :
  let st := Ruby.State RubyRun.member (at500 ∅ not_found) in
  let st' := snd (Ruby.update_cache home RubyRun.to_json RubyRun.Time_to_s st) in
  (mode <$> files (Ruby.env st') !! RubyRun.token_cache) = Some mode_0644 /\
  mode_0644 <> mode_0600 /\
  trace (Ruby.env st')
    = [EvCreat RubyRun.token_cache mode_0644;
       EvWrite RubyRun.token_cache 0 RubyRun.record;
       EvWrite RubyRun.token_cache 0 RubyRun.record] /\
  map (fun fs => content fs RubyRun.token_cache)
      (replay (files (Ruby.env st)) (trace (Ruby.env st')))
    = [None; Some []; Some RubyRun.record; Some RubyRun.record] /\
  RubyRun.record <> [].
Proof. vm_compute. repeat split; discriminate. Qed.

(** The second tier does not rescue a missing file.  With valid credentials
    in memory and a token endpoint that would answer, but neither a token
    cache nor an SDK store on disk, the resolution raises Errno::ENOENT
    after two reads and sends no request. *)
Lemma ensure_current_token_missing_store :
  let i := Ruby.Instance (Some (Ruby.JStr "id")) (Some (Ruby.JStr "secret"))
             (Some (Ruby.JStr "refresh")) None None in
  let minting (_ : request) :=
    Some (Response 200 [] [bytes "{}"] true) in
  let '(r, st') :=
    Ruby.ensure_current_token home (fun _ => Some [("access_token", Ruby.JStr "t");
                                                   ("expires_in", Ruby.JNum 3600)])
      RubyRun.to_json (fun _ => None) RubyRun.Time_to_s (fun _ => [])
      (Ruby.State i (at500 ∅ minting)) in
  r = inl (Ruby.SystemCallError ENOENT) /\
  trace (Ruby.env st')
    = [EvRead RubyRun.token_cache; EvRead (Ruby.ACCESS_TOKENS_DB home)].
Proof. vm_compute. repeat split. Qed.

(** ** The cache path of the Ruby class *)

Lemma gs_here_groups (a : anchors) (p : option ascii) (s : string) (m : list string) :
  gs_here a p s = Some m ->
  exists whole B K,
    m = [whole; B; K] /\ B <> "" /\ all_chars (is_not slash) B = true.
Proof.
  unfold gs_here. destruct (at_bol a _); [|discriminate].
  destruct (strip_prefix "gs://" s) as [t|]; [|discriminate].
  destruct (span (is_not slash) t) as [b t1] eqn:Hs.
  destruct b as [|b0 b]; [discriminate|].
  destruct t1 as [|c t2]; [discriminate|].
  destruct (Ascii.eqb slash c); [|discriminate].
  destruct (span (is_not LF) t2) as [k t3].
  destruct (at_eol a _); [|discriminate].
  intros [= <-]. destruct (span_spec _ _ _ _ Hs) as (_ & Hb & _).
  eexists _, _, _. split; [reflexivity|]. split; [discriminate | exact Hb].
Qed.

Lemma search_gs_groups (a : anchors) (p : option ascii) (s : string) (m : list string) :
  search a gsURLRegexp p s = Some m ->
  exists whole B K,
    m = [whole; B; K] /\ B <> "" /\ all_chars (is_not slash) B = true.
Proof.
  revert p; induction s as [|x s IH]; intros p; cbn [search]; rewrite match_here_gs;
    destruct (gs_here a p _) as [m'|] eqn:Hm; try discriminate.
  - intros [= <-]. eapply gs_here_groups, Hm.
  - intros [= <-]. eapply gs_here_groups, Hm.
  - apply IH.
Qed.

Lemma lstrip_slash_id (n : string) :
  all_chars (is_not slash) n = true -> Ruby.lstrip_slash n = n.
Proof.
  destruct n as [|c n]; [reflexivity|]. cbn [all_chars Ruby.lstrip_slash].
  unfold is_not. now destruct (Ascii.eqb slash c).
Qed.

(** [cache_path] names the entry of bucket B and key K the way the Go
    package does: under the cache directory, B, two dashes, then K with its
    slashes turned into dashes. *)
Lemma cache_path_basename (home url path : string) (st st' : Ruby.state) :
  Ruby.cache_path home url st = (inr path, st') ->
  exists B K,
    Ruby.parse_gs_url url st = (inr (B, K), st) /\
    path = Ruby.File_join (Ruby.CACHE home) (cache_name B K) /\
    basename path = B +:+ "--" +:+ replace_char slash dash K.
Proof.
  unfold Ruby.cache_path, Ruby.parse_gs_url, Ruby.bind.
  destruct (FindStringSubmatch LineAnchors gsURLRegexp url) as [m|] eqn:Hm;
    [|discriminate].
  destruct (search_gs_groups _ _ _ _ Hm) as (whole & B & K & -> & HB & Hs).
  unfold Ruby.ret. cbn [submatch nth]. intros [= <- <-].
  exists B, K. split; [reflexivity|]. split; [reflexivity|].
  pose proof (cache_name_proper B K HB Hs) as [Hn _].
  change (B +:+ "--" +:+ replace_char slash dash K) with (cache_name B K).
  change (B +:+ String "-" (String "-" (replace_char slash dash K)))
    with (cache_name B K).
  unfold Ruby.File_join. rewrite (lstrip_slash_id _ Hn).
  change ("/" +:+ cache_name B K) with (String slash (cache_name B K)).
  now apply basename_app.
Qed.

(** * Further properties of the Go package *)

Local Open Scope string_scope.

Lemma parseGSURL_invalid (s : string) :
  (forall B K, ~ reference B K s) ->
  Go.parseGSURL s = ("", "", Some (Go.ErrInvalidURL s)).
Proof.
  intros H. unfold Go.parseGSURL. rewrite FindStringSubmatch_text.
  destruct (gs_here TextAnchors None s) as [m|] eqn:Hm; [|reflexivity].
  destruct (gs_here_text_Some _ _ Hm) as (B & K & _ & Href). now destruct (H B K).
Qed.

Lemma parseGSURL_valid (B K s : string) :
  reference B K s -> Go.parseGSURL s = (B, K, None).
Proof.
  intros H. unfold Go.parseGSURL.
  now rewrite FindStringSubmatch_text, (gs_here_text_reference _ _ _ H).
Qed.

(** X1.  A string that is not a reference stops [update], [Read] and [Copy]
    before anything happens: each returns the invalid-URL error, nothing is
    read, written or sent, and this holds even when the instance has no
    token, where a valid reference would make them panic. *)
Theorem update_rejects_invalid_reference (url_ok : string -> bool)
    (f : Go.fastGCS) (gsURL dst : string) (w : world) :
  (forall B K, ~ reference B K gsURL) ->
  Go.update url_ok f gsURL w = (Go.Returns "" (Some (Go.ErrInvalidURL gsURL)), w) /\
  Go.Read url_ok f gsURL w = (Go.Returns None (Some (Go.ErrInvalidURL gsURL)), w) /\
  Go.Copy url_ok f gsURL dst w = (Go.Returns tt (Some (Go.ErrInvalidURL gsURL)), w).
Proof.
  intros H.
  assert (Go.update url_ok f gsURL w
          = (Go.Returns "" (Some (Go.ErrInvalidURL gsURL)), w)) as E.
  { unfold Go.update, Go.cachePath. now rewrite (parseGSURL_invalid _ H). }
  unfold Go.Read, Go.Copy. now rewrite E.
Qed.

Lemma update_rejects_invalid_reference_witness :
  Go.Read any_url fresh "s3://b/k" (at500 ∅ not_found)
  = (Go.Returns None (Some (Go.ErrInvalidURL "s3://b/k")), at500 ∅ not_found).
Proof.
  apply (update_rejects_invalid_reference any_url fresh "s3://b/k" "" (at500 ∅ not_found)).
  intros B K (_ & _ & _ & H). discriminate H.
Defined.

Lemma append_inj_r (a b s : string) : a ++ s = b ++ s -> a = b.
Proof.
  revert b; induction a as [|x a IH]; intros b H.
  - destruct b as [|y b]; [reflexivity|].
    apply (f_equal String.length) in H. rewrite !string_length_app in H.
    simpl in H. lia.
  - destruct b as [|y b].
    + apply (f_equal String.length) in H. rewrite !string_length_app in H.
      simpl in H. lia.
    + simpl in H. injection H as -> H. now rewrite (IH _ H).
Qed.

Lemma append_inj_l (p a b : string) : p ++ a = p ++ b -> a = b.
Proof.
  induction p as [|x p IH]; simpl; [auto|]. intros [= H]. auto.
Qed.

(** Where a slash-free prefix ends is determined by the string. *)
Lemma slash_free_prefix_unique (B1 B2 r1 r2 : string) :
  all_chars (is_not slash) B1 = true -> all_chars (is_not slash) B2 = true ->
  B1 ++ String slash r1 = B2 ++ String slash r2 -> B1 = B2 /\ r1 = r2.
Proof.
  intros H1 H2 E.
  assert (is_not slash slash = false) as Hs by reflexivity.
  pose proof (span_app (is_not slash) B1 (String slash r1) H1 Hs) as S1.
  pose proof (span_app (is_not slash) B2 (String slash r2) H2 Hs) as S2.
  rewrite E, S2 in S1. now injection S1 as -> ->.
Qed.

Lemma apiFetchURL_inv (u url : string) :
  Go.apiFetchURL u = (url, None) ->
  exists B K, reference B K u /\
    url = "https://storage.googleapis.com/storage/v1/b/" ++ B ++ "/o/" ++ K ++ "?alt=media".
Proof.
  unfold Go.apiFetchURL. destruct (Go.parseGSURL u) as [[B K] [e|]] eqn:Hp; [discriminate|].
  intros [= <-]. exists B, K. split; [now apply parseGSURL_inv | reflexivity].
Qed.

(** X2.  [apiFetchURL] puts bucket and key into the URL as they are, and no
    two references share a URL: when two calls return the same URL without
    error, they were given the same reference string. *)
Theorem apiFetchURL_injective (u1 u2 url : string) :
  Go.apiFetchURL u1 = (url, None) -> Go.apiFetchURL u2 = (url, None) -> u1 = u2.
Proof.
  intros H1 H2.
  destruct (apiFetchURL_inv _ _ H1) as (B1 & K1 & (_ & Hs1 & _ & ->) & E1).
  destruct (apiFetchURL_inv _ _ H2) as (B2 & K2 & (_ & Hs2 & _ & ->) & E2).
  rewrite E1 in E2. apply append_inj_l in E2.
  change (B1 ++ "/o/" ++ K1 ++ "?alt=media")
    with (B1 ++ String slash ("o/" ++ K1 ++ "?alt=media")) in E2.
  change (B2 ++ "/o/" ++ K2 ++ "?alt=media")
    with (B2 ++ String slash ("o/" ++ K2 ++ "?alt=media")) in E2.
  destruct (slash_free_prefix_unique _ _ _ _ Hs1 Hs2 E2) as [-> E3].
  apply (append_inj_l "o/") in E3. apply append_inj_r in E3. now rewrite E3.
Qed.

Lemma apiFetchURL_injective_witness :
  "gs://my-bucket/path/to/object.json" = "gs://my-bucket/path/to/object.json".
Proof.
  exact (apiFetchURL_injective "gs://my-bucket/path/to/object.json"
           "gs://my-bucket/path/to/object.json"
           "https://storage.googleapis.com/storage/v1/b/my-bucket/o/path/to/object.json?alt=media"
           eq_refl eq_refl).
Defined.

Lemma replace_char_keeps (f : ascii -> bool) (a b : ascii) (s : string) :
  f b = true -> all_chars f s = true -> all_chars f (replace_char a b s) = true.
Proof.
  intros Hb. induction s as [|x s IH]; simpl; [auto|].
  intros H. apply andb_true_iff in H as [Hx Hs]. rewrite (IH Hs), andb_true_r.
  now destruct (Ascii.eqb a x).
Qed.

Lemma replace_char_fixed (a b : ascii) (s : string) :
  all_chars (is_not a) s = true -> replace_char a b s = s.
Proof.
  induction s as [|x s IH]; simpl; [auto|].
  intros H. apply andb_true_iff in H as [Hx Hs]. rewrite (IH Hs).
  unfold is_not in Hx. now destruct (Ascii.eqb a x).
Qed.

Lemma replace_char_changes (a b : ascii) (s : string) :
  is_not a b = true -> all_chars (is_not a) s = false -> replace_char a b s <> s.
Proof.
  intros Hab Hs E. rewrite <- E in Hs. now rewrite (replace_char_clean a b s Hab) in Hs.
Qed.

(** X3.  Cache paths collide.  The object with key K and the object whose
    key is K with every slash replaced by a dash get the same cache path in
    the same bucket; when K has a slash these are two different references
    with two different fetch URLs. *)
Theorem cachePath_collision (f : Go.fastGCS) (B K : string) :
  B <> "" -> all_chars (is_not slash) B = true -> all_chars (is_not LF) K = true ->
  let u1 := "gs://" ++ B ++ "/" ++ K in
  let u2 := "gs://" ++ B ++ "/" ++ replace_char slash dash K in
  Go.cachePath f u1 = Go.cachePath f u2 /\
  snd (Go.cachePath f u1) = None /\
  (all_chars (is_not slash) K = false ->
   u1 <> u2 /\ fst (Go.apiFetchURL u1) <> fst (Go.apiFetchURL u2)).
Proof.
  intros HB Hs Hk u1 u2.
  assert (reference B K u1) as R1 by (repeat split; assumption).
  assert (reference B (replace_char slash dash K) u2) as R2.
  { repeat split; try assumption. now apply replace_char_keeps. }
  unfold Go.cachePath, Go.apiFetchURL.
  rewrite (parseGSURL_valid _ _ _ R1), (parseGSURL_valid _ _ _ R2). cbn [fst snd].
  rewrite (replace_char_fixed slash dash (replace_char slash dash K))
    by now apply replace_char_clean.
  split; [reflexivity|]. split; [reflexivity|].
  intros Hsl. pose proof (replace_char_changes slash dash K eq_refl Hsl) as Hne.
  split; intros E; apply Hne.
  - unfold u1, u2 in E. do 2 apply append_inj_l in E.
    symmetry. now apply (append_inj_l "/").
  - do 2 apply append_inj_l in E. apply (append_inj_l "/o/") in E.
    apply append_inj_r in E. now symmetry.
Qed.

Lemma cachePath_collision_witness :
  let f := holding live in
  Go.cachePath f "gs://b/x/y" = Go.cachePath f "gs://b/x-y" /\
  snd (Go.cachePath f "gs://b/x/y") = None /\
  "gs://b/x/y" <> "gs://b/x-y" /\
  fst (Go.apiFetchURL "gs://b/x/y") <> fst (Go.apiFetchURL "gs://b/x-y").
Proof.
  intros f.
  destruct (cachePath_collision f "b" "x/y") as (E & N & H);
    [discriminate | reflexivity | reflexivity |].
  split; [exact E|]. split; [exact N|]. exact (H eq_refl).
Defined.

Local Open Scope list_scope.

(** X4.  [copyFile] opens the source first.  When no file is at the source
    path it returns the error of a missing file, when the file there cannot
    be read it returns the error of a refused access, and in both cases the
    file system is exactly as before, so the destination is neither created
    nor touched. *)
Theorem copyFile_unreadable_source (srcPath dstPath : string) (perm : N) (w : world) :
  match files w !! srcPath with
  | Some f => readable f = false
  | None => True
  end ->
  let '(err, w') := Go.copyFile srcPath dstPath perm w in
  err = Some (Go.ErrFile match files w !! srcPath with
                         | Some _ => EACCES
                         | None => ENOENT
                         end) /\
  files w' = files w /\
  trace w' = trace w ++ [EvRead srcPath].
Proof.
  intros H. unfold Go.copyFile, read_file.
  destruct (files w !! srcPath) as [f|].
  - rewrite H. auto.
  - auto.
Qed.

Lemma copyFile_unreadable_source_witness :
  let w := at500 (<[ "/tmp/in"%string := File (bytes "secret") (octal [2; 0; 0]%N) ]> ∅) not_found in
  (let '(err, w') := Go.copyFile object_path "/tmp/out" mode_0644 w in
   err = Some (Go.ErrFile ENOENT) /\
   files w' = files w /\
   trace w' = trace w ++ [EvRead object_path]) /\
  (let '(err, w') := Go.copyFile "/tmp/in" "/tmp/out" mode_0644 w in
   err = Some (Go.ErrFile EACCES) /\
   files w' = files w /\
   trace w' = trace w ++ [EvRead "/tmp/in"]).
Proof.
  intros w. split.
  - exact (copyFile_unreadable_source object_path "/tmp/out" mode_0644 w I).
  - exact (copyFile_unreadable_source "/tmp/in" "/tmp/out" mode_0644 w eq_refl).
Defined.

(** X5.  [copyFile] to a path where no file is yet, when it returns no
    error: the new file holds exactly the bytes of the source, its mode is
    the mode argument with the bits of the umask cleared, and the source is
    as it was.  Whether the file can be made there (the directory exists and
    may be written) is left to the call: nothing is said of a call that
    returns an error. *)
Theorem copyFile_fresh_destination (srcPath dstPath : string) (perm : N)
    (w w' : world) (f : file) :
  files w !! srcPath = Some f ->
  files w !! dstPath = None ->
  Go.copyFile srcPath dstPath perm w = (None, w') ->
  files w' !! dstPath = Some (File (data f) (N.ldiff perm (umask w))) /\
  files w' !! srcPath = Some f.
Proof.
  intros Hs Hd. unfold Go.copyFile, read_file. rewrite Hs.
  destruct (readable f); [|discriminate].
  unfold open_write. os_simpl. rewrite Hd. os_simpl. intros [= <-].
  assert (srcPath <> dstPath) as Hne by (intros ->; congruence).
  os_simpl.
  rewrite lookup_alter_eq, lookup_insert_eq, lookup_alter_ne, lookup_insert_ne by auto.
  os_simpl. now rewrite pwrite_empty.
Qed.

Lemma copyFile_fresh_destination_witness :
  let w := at500 (cached "hello, world") not_found in
  let w' := snd (Go.copyFile object_path "/tmp/out" mode_0666 w) in
  files w' !! "/tmp/out"%string = Some (File (bytes "hello, world") mode_0644) /\
  files w' !! object_path = Some (File (bytes "hello, world") mode_0644).
Proof.
  intros w w'.
  exact (copyFile_fresh_destination object_path "/tmp/out" mode_0666 w w'
           (File (bytes "hello, world") mode_0644) eq_refl eq_refl eq_refl).
Defined.

(** X6.  [copyFile] does not truncate an existing destination and does not
    change its mode: afterwards the destination holds the bytes of the
    source followed by whatever the old destination had beyond that length,
    under the mode it already had. *)
Theorem copyFile_existing_destination (srcPath dstPath : string) (perm : N)
    (w : world) (f d : file) :
  files w !! srcPath = Some f -> readable f = true ->
  files w !! dstPath = Some d -> writable d = true ->
  srcPath <> dstPath ->
  let '(err, w') := Go.copyFile srcPath dstPath perm w in
  err = None /\
  files w' !! dstPath
    = Some (File (data f ++ drop (length (data f)) (data d)) (mode d)) /\
  files w' !! srcPath = Some f.
Proof.
  intros Hs Hr Hd Hw Hne. unfold Go.copyFile, read_file. rewrite Hs, Hr.
  unfold open_write. os_simpl. rewrite Hd, Hw. os_simpl.
  split; [reflexivity|].
  rewrite lookup_alter_eq, lookup_alter_ne, Hd, Hs by auto. os_simpl.
  split; [|reflexivity]. unfold pwrite. now rewrite take_0.
Qed.

Lemma copyFile_existing_destination_witness :
  let w := at500 (<[ "/tmp/out"%string := File (bytes "0123456789") mode_0600 ]>
                    (cached "new")) not_found in
  let '(err, w') := Go.copyFile object_path "/tmp/out" mode_0644 w in
  err = None /\
  files w' !! "/tmp/out"%string = Some (File (bytes "new3456789") mode_0600) /\
  files w' !! object_path = Some (File (bytes "new") mode_0644).
Proof.
  intros w.
  apply (copyFile_existing_destination object_path "/tmp/out" mode_0644 w
           (File (bytes "new") mode_0644) (File (bytes "0123456789") mode_0600));
    try reflexivity.
  discriminate.
Defined.


Lemma readable_0644 (um : N) :
  N.testbit um 8 = false -> readable (File [] (N.ldiff mode_0644 um)) = true.
Proof.
  intros H. unfold readable. cbn [mode]. rewrite N.ldiff_spec, H. reflexivity.
Qed.




(** X8.  What [ensureCurrentToken] can do, on every instance and every
    machine: it never changes a file and never sends a request; it reads at
    most one file, the token cache, and only when the token in memory is
    missing or expired; the two directories of the instance stay; a nil
    error leaves a token in the instance, an error leaves the instance as
    it was; and every failure to read the token cache, also one that is not
    a missing file, ends in the error "couldn't obtain access token". *)
Theorem ensureCurrentToken_effects (json_Unmarshal : list ascii -> option Go.token)
    (f : Go.fastGCS) (w : world) :
  let '((f', err), w') := Go.ensureCurrentToken json_Unmarshal f w in
  let store := filepath_Join [Go.gcloudConfigDir f; Go.credentialsCacheBasename] in
  files w' = files w /\
  (if Go.current (Go.ftoken f) (clock w) then w' = w
   else trace w' = trace w ++ [EvRead store]) /\
  Go.cacheRoot f' = Go.cacheRoot f /\
  Go.gcloudConfigDir f' = Go.gcloudConfigDir f /\
  (err = None -> Go.ftoken f' <> None) /\
  (err <> None -> f' = f) /\
  (err = Some Go.ErrNoToken <->
   Go.current (Go.ftoken f) (clock w) = false /\
   match files w !! store with
   | Some file => readable file = false
   | None => True
   end).
Proof.
  unfold Go.ensureCurrentToken, Go.findTokenInCache, read_file.
  destruct (Go.current (Go.ftoken f) (clock w)) eqn:Hc.
  - repeat split; try congruence.
    + intros _. destruct (Go.ftoken f); [discriminate|]. discriminate Hc.
    + intros []; discriminate.
  - destruct (files w !! _) as [file|] eqn:Hf.
    + destruct (readable file) eqn:Hr.
      * destruct (json_Unmarshal (data file)) as [tok|];
          repeat split; try congruence; try discriminate.
        all: intros []; discriminate.
      * repeat split; congruence.
    + repeat split; congruence.
Qed.

(** X9.  The command of [cmd/fastgcs].  Without a home directory it ends in
    [log.Fatal] before touching anything.  With one, on a machine whose
    token cache file is missing or unreadable, it ends in a run-time panic:
    [Open] drops the error of [ensureCurrentToken] and [update] reaches the
    token of the instance, which is nil.  What has happened by then is the
    call of [os.MkdirAll] on the cache directory, whose error [New] drops,
    and one attempt to read the token cache. *)
Theorem main_without_token_cache (json_Unmarshal : list ascii -> option Go.token)
    (url_ok : string -> bool) (h : string) (w : world) :
  url_ok "https://storage.googleapis.com/storage/v1/b/neato/o/foobar?alt=media" = true ->
  match files w !! filepath_Join [filepath_Join [h; ".config"; "gcloud"];
                                  Go.credentialsCacheBasename] with
  | Some file => readable file = false
  | None => True
  end ->
  Go.main json_Unmarshal url_ok None w = (Go.Fatal Go.ErrHome, w) /\
  Go.main json_Unmarshal url_ok (Some h) w
  = (Go.Crash,
     emit (EvRead (filepath_Join [filepath_Join [h; ".config"; "gcloud"];
                                  Go.credentialsCacheBasename]))
       (emit (EvMkdir (filepath_Join [h; ".cache"; "fastgcs"])) w)).
Proof.
  intros Hok Hf. split; [reflexivity|].
  unfold Go.main, Go.New_run, Go.New, Go.Open, Go.ensureCurrentToken,
    Go.findTokenInCache, read_file.
  cbn [Go.ftoken Go.current Go.gcloudConfigDir Go.cacheRoot emit files apply].
  set (store := filepath_Join [filepath_Join [h; ".config"; "gcloud"];
                               Go.credentialsCacheBasename]) in *.
  assert (forall f w0, Go.ftoken f = None ->
            Go.update url_ok f "gs://neato/foobar" w0 = (Go.Panics, w0)) as Hupd.
  { intros f w0 Ht.
    apply (update_without_token_panics url_ok f "gs://neato/foobar" "neato" "foobar"
             "" w0 Ht); [reflexivity|exact Hok]. }
  destruct (files w !! store) as [file|].
  - rewrite Hf. now rewrite Hupd.
  - now rewrite Hupd.
Qed.

Lemma main_without_token_cache_witness :
  Go.main decode any_url None (at500 ∅ not_found)
    = (Go.Fatal Go.ErrHome, at500 ∅ not_found) /\
  Go.main decode any_url (Some home) (at500 ∅ not_found)
    = (Go.Crash, emit (EvRead credentials_path)
                   (emit (EvMkdir "/home/u/.cache/fastgcs") (at500 ∅ not_found))).
Proof.
  exact (main_without_token_cache decode any_url home (at500 ∅ not_found) eq_refl I).
Defined.

(** X10.  The two copies of the package compute the same cache path: the
    copy that matches the pattern inside [cachePath] and the copy that goes
    through [parseGSURL] agree on every instance and every string, in the
    path and in the error. *)
Theorem draft_cachePath_agrees (f : Go.fastGCS) (url : string) :
  GoDraft.cachePath f url = Go.cachePath f url.
Proof.
  unfold GoDraft.cachePath, Go.cachePath, Go.parseGSURL.
  now destruct (FindStringSubmatch TextAnchors gsURLRegexp url).
Qed.

(** X11.  In the earlier copy [update] returns the empty path for every
    reference, so [Read] reads the file named by the empty string: for a
    valid reference it sends nothing, changes nothing, and fails with
    "no such file" whatever the cache holds; for any other string it
    returns the invalid URL error without any effect. *)
Theorem draft_Read_never_returns_object (f : Go.fastGCS) (url : string) (w : world) :
  files w !! ""%string = None ->
  (forall B K, reference B K url ->
     GoDraft.Read f url w
     = ((None, Some (Go.ErrFile ENOENT)), emit (EvRead "") w)) /\
  ((forall B K, ~ reference B K url) ->
     GoDraft.Read f url w = ((None, Some (Go.ErrInvalidURL url)), w)).
Proof.
  intros He. unfold GoDraft.Read, GoDraft.update, GoDraft.cachePath.
  rewrite FindStringSubmatch_text. split.
  - intros B K H. rewrite (gs_here_text_reference _ _ _ H).
    unfold Go.ioutil_ReadFile, Go.os_Open, read_file. now rewrite He.
  - intros H. destruct (gs_here TextAnchors None url) as [m|] eqn:Hm; [|reflexivity].
    destruct (gs_here_text_Some _ _ Hm) as (B & K & _ & Href). now destruct (H B K).
Qed.

Lemma draft_Read_never_returns_object_witness :
  let w := at500 (cached "hello") not_found in
  (forall B K, reference B K "gs://b/k" ->
     GoDraft.Read fresh "gs://b/k" w
     = ((None, Some (Go.ErrFile ENOENT)), emit (EvRead "") w)) /\
  ((forall B K, ~ reference B K "gs://b/k") ->
     GoDraft.Read fresh "gs://b/k" w = ((None, Some (Go.ErrInvalidURL "gs://b/k")), w)).
Proof.
  intros w. exact (draft_Read_never_returns_object fresh "gs://b/k" w eq_refl).
Defined.

(** * Further properties of the Ruby class *)

Local Open Scope string_scope.

(** ** The parser on several lines *)

Lemma search_here (a : anchors) (r : re) (p : option ascii) (s : string)
    (m : list string) :
  match_here a r p s = Some m -> search a r p s = Some m.
Proof. intros H. destruct s; cbn [search]; now rewrite H. Qed.

(** The attempt at the start of the string under line anchors: the key ends
    at the end of the string or at the first line feed. *)
Lemma gs_here_line (B K tail : string) :
  B <> "" -> all_chars (is_not slash) B = true -> all_chars (is_not LF) K = true ->
  match tail with String x _ => x = LF | EmptyString => True end ->
  gs_here LineAnchors None ("gs://" ++ B ++ String slash (K ++ tail))
  = Some ["gs://" ++ B ++ String slash K; B; K].
Proof.
  intros HB Hs Hk Ht. unfold gs_here. cbn [at_bol prev].
  rewrite strip_prefix_app.
  rewrite (span_app (is_not slash) B (String slash (K ++ tail)) Hs).
  2:{ unfold is_not. now rewrite Ascii.eqb_refl. }
  destruct B as [|b0 B]; [congruence|].
  rewrite Ascii.eqb_refl.
  rewrite (span_app (is_not LF) K tail Hk).
  2:{ destruct tail as [|x t]; [exact I|]. subst x. reflexivity. }
  assert (at_eol LineAnchors (St None tail []) = true) as ->.
  { destruct tail as [|x t]; [reflexivity|]. subst x. reflexivity. }
  do 2 f_equal.
  replace ("gs://" ++ String b0 B ++ String slash (K ++ tail))
    with (("gs://" ++ String b0 B ++ String slash K) ++ tail).
  - apply taken_app.
  - rewrite !append_assoc. cbn [String.append]. now rewrite ?append_assoc.
Qed.

Lemma parse_gs_url_line (B K tail : string) (st : Ruby.state) :
  B <> "" -> all_chars (is_not slash) B = true -> all_chars (is_not LF) K = true ->
  match tail with String x _ => x = LF | EmptyString => True end ->
  Ruby.parse_gs_url ("gs://" ++ B ++ String slash (K ++ tail)) st = (inr (B, K), st).
Proof.
  intros HB Hs Hk Ht. unfold Ruby.parse_gs_url, FindStringSubmatch.
  rewrite (search_here LineAnchors gsURLRegexp None _
             ["gs://" ++ B ++ String slash K; B; K]).
  - reflexivity.
  - rewrite match_here_gs. now apply gs_here_line.
Qed.

(** X12.  The Ruby parser reads the first line only.  A reference followed
    by a line feed and any text whatever is accepted, with the bucket and
    the key of the first line, so the text after the line feed reaches
    neither the cache path nor the request; the Go parser refuses the same
    string. *)
Theorem parse_gs_url_reads_first_line (B K junk : string) (st : Ruby.state) :
  B <> "" -> all_chars (is_not slash) B = true -> all_chars (is_not LF) K = true ->
  let s := "gs://" ++ B ++ "/" ++ K ++ String LF junk in
  Ruby.parse_gs_url s st = (inr (B, K), st) /\
  Go.parseGSURL s = ("", "", Some (Go.ErrInvalidURL s)).
Proof.
  intros HB Hs Hk s. split.
  - now apply (parse_gs_url_line B K (String LF junk) st).
  - apply parseGSURL_invalid. intros B' K' (HB' & Hs' & Hk' & E).
    unfold s in E. apply append_inj_l in E.
    change ("/" ++ K ++ String LF junk) with (String slash (K ++ String LF junk)) in E.
    change ("/" ++ K') with (String slash K') in E.
    apply slash_free_prefix_unique in E as [_ <-]; auto.
    rewrite all_chars_app in Hk'. apply andb_true_iff in Hk' as [_ Hk'].
    discriminate Hk'.
Qed.

Lemma parse_gs_url_reads_first_line_witness :
  let s := "gs://b/k" ++ String LF "../../etc/passwd" in
  Ruby.parse_gs_url s (Ruby.State RubyRun.member (at500 ∅ not_found))
    = (inr ("b", "k"), Ruby.State RubyRun.member (at500 ∅ not_found)) /\
  Go.parseGSURL s = ("", "", Some (Go.ErrInvalidURL s)).
Proof.
  apply (parse_gs_url_reads_first_line "b" "k" "../../etc/passwd"
           (Ruby.State RubyRun.member (at500 ∅ not_found)));
    [discriminate | reflexivity | reflexivity].
Defined.

(** ** The sidecar of a cache entry *)

Lemma join_split (s : string) : join "/" (split slash s) = s.
Proof.
  induction s as [|x s IH]; [reflexivity|]. cbn [split].
  destruct (Ascii.eqb_spec slash x) as [<-|_].
  - destruct (split_cons slash s) as (h & r & E). rewrite E in *.
    change (join "/" ("" :: h :: r)) with ("" ++ "/" ++ join "/" (h :: r)).
    now rewrite IH.
  - destruct (split_cons slash s) as (h & r & E). rewrite E in *.
    destruct r as [|y r].
    + cbn [join] in *. now rewrite IH.
    + change (join "/" (String x h :: y :: r))
        with (String x (h ++ "/" ++ join "/" (y :: r))).
      change (join "/" (h :: y :: r)) with (h ++ "/" ++ join "/" (y :: r)) in IH.
      now rewrite IH.
Qed.

Lemma list_ascii_of_string_app (a b : string) :
  list_ascii_of_string (a ++ b)
  = (list_ascii_of_string a ++ list_ascii_of_string b)%list.
Proof. induction a as [|x a IH]; simpl; [reflexivity | now rewrite IH]. Qed.

(** A path that ends in a character other than the slash keeps its end. *)
Lemma rstrip_slash_snoc (a : string) (c : ascii) :
  is_not slash c = true ->
  Ruby.rstrip_slash (a ++ String c "") = a ++ String c "".
Proof.
  intros Hc. unfold Ruby.rstrip_slash.
  rewrite list_ascii_of_string_app, rev_app_distr. cbn [list_ascii_of_string rev app].
  cbn [string_of_list_ascii Ruby.lstrip_slash].
  unfold is_not in Hc. destruct (Ascii.eqb slash c); [discriminate|].
  change (String c (string_of_list_ascii (rev (list_ascii_of_string a))))
    with (string_of_list_ascii (c :: rev (list_ascii_of_string a))).
  rewrite list_ascii_of_string_of_list_ascii. cbn [rev].
  rewrite rev_involutive.
  change [c] with (list_ascii_of_string (String c "")).
  now rewrite <- list_ascii_of_string_app, string_of_list_ascii_of_string.
Qed.

Lemma string_snoc (s : string) :
  s <> "" -> exists a c, s = a ++ String c "".
Proof.
  induction s as [|x s IH]; [congruence|]. intros _.
  destruct s as [|y s].
  - exists "", x. reflexivity.
  - destruct IH as (a & c & E); [discriminate|]. exists (String x a), c.
    cbn [String.append]. now rewrite <- E.
Qed.

(** A path whose last element is a proper name is as [File.dirname] needs
    it, and its directory is what stands before that name. *)
Lemma File_dirname_app (d n : string) :
  n <> "" -> all_chars (is_not slash) n = true ->
  Ruby.File_dirname (d ++ String slash n)
  = if String.eqb (Ruby.rstrip_slash d) "" then "/" else Ruby.rstrip_slash d.
Proof.
  intros Hne Hn. unfold Ruby.File_dirname.
  destruct (string_snoc n Hne) as (a & c & ->).
  rewrite all_chars_app in Hn. apply andb_true_iff in Hn as [Ha Hc].
  cbn [all_chars] in Hc. rewrite andb_true_r in Hc.
  assert (Ruby.rstrip_slash (d ++ String slash (a ++ String c ""))
          = d ++ String slash (a ++ String c "")) as ->.
  { change (d ++ String slash (a ++ String c ""))
      with (d ++ (String slash a) ++ String c "").
    rewrite <- append_assoc. now apply rstrip_slash_snoc. }
  assert (String.eqb (d ++ String slash (a ++ String c "")) "" = false) as ->.
  { destruct d; reflexivity. }
  assert (all_chars (is_not slash) (a ++ String c "") = true) as Hn.
  { rewrite all_chars_app, Ha. cbn [all_chars]. now rewrite Hc. }
  rewrite split_app, (split_no_sep _ _ Hn), removelast_last.
  destruct (split_cons slash d) as (h & r & E).
  pose proof (join_split d) as J. rewrite E in *. now rewrite J.
Qed.

Lemma rstrip_slash_CACHE (home : string) :
  Ruby.rstrip_slash (Ruby.CACHE home) = Ruby.CACHE home.
Proof.
  unfold Ruby.CACHE.
  change "/.cache/fastgcs" with ("/.cache/fastgc" ++ String "s" "").
  rewrite <- append_assoc. now apply rstrip_slash_snoc.
Qed.

Lemma replace_char_app (a b : ascii) (s t : string) :
  replace_char a b (s ++ t) = replace_char a b s ++ replace_char a b t.
Proof. induction s as [|x s IH]; simpl; [reflexivity | now rewrite IH]. Qed.

(** The sidecar of the entry [n] of directory [d]. *)
Lemma etag_path_entry (d n : string) :
  Ruby.rstrip_slash d = d -> proper_name n ->
  Ruby.etag_path (d ++ String slash n) = d ++ String slash ("." ++ n ++ ".etag").
Proof.
  intros Hd [Hn Hlen]. unfold Ruby.etag_path, Ruby.File_basename.
  assert (n <> "") as Hne by (intros ->; cbn in Hlen; lia).
  rewrite (File_dirname_app d n Hne Hn), (basename_app d n Hn), Hd.
  unfold Ruby.File_join. cbn [String.append Ruby.lstrip_slash].
  change (Ascii.eqb slash ".") with false. cbv iota.
  destruct (String.eqb_spec d "") as [->|_]; [reflexivity|].
  now rewrite Hd.
Qed.

Lemma cache_path_reference (home B K tail : string) (st : Ruby.state) :
  B <> "" -> all_chars (is_not slash) B = true -> all_chars (is_not LF) K = true ->
  match tail with String x _ => x = LF | EmptyString => True end ->
  Ruby.cache_path home ("gs://" ++ B ++ String slash (K ++ tail)) st
  = (inr (Ruby.CACHE home ++ String slash (cache_name B K)), st).
Proof.
  intros HB Hs Hk Ht. unfold Ruby.cache_path, Ruby.bind.
  rewrite (parse_gs_url_line B K tail st HB Hs Hk Ht). unfold Ruby.ret.
  unfold Ruby.File_join. rewrite rstrip_slash_CACHE.
  change (B ++ "--" ++ replace_char slash dash K) with (cache_name B K).
  now rewrite (lstrip_slash_id _ (proj1 (cache_name_proper B K HB Hs))).
Qed.

(** X13.  Where the ETag of a cache entry is kept.  The entry of bucket B
    and key K is the file named B, two dashes, K with dashes for slashes,
    in the cache directory; its sidecar is in the same directory, under
    the entry's name between a leading dot and the suffix ".etag"; the
    sidecar is never the entry itself. *)
Theorem etag_path_of_cache_path (home B K : string) (st : Ruby.state) :
  B <> "" -> all_chars (is_not slash) B = true -> all_chars (is_not LF) K = true ->
  let entry := Ruby.CACHE home ++ "/" ++ cache_name B K in
  Ruby.cache_path home ("gs://" ++ B ++ "/" ++ K) st = (inr entry, st) /\
  Ruby.etag_path entry = Ruby.CACHE home ++ "/." ++ cache_name B K ++ ".etag" /\
  Ruby.etag_path entry <> entry.
Proof.
  intros HB Hs Hk entry.
  assert (Ruby.etag_path entry = Ruby.CACHE home ++ "/." ++ cache_name B K ++ ".etag")
    as E.
  { apply (etag_path_entry (Ruby.CACHE home) (cache_name B K)).
    - apply rstrip_slash_CACHE.
    - apply (cache_name_proper B K HB Hs). }
  split; [|split; [exact E|]].
  - rewrite <- (append_nil_r K) at 1.
    apply (cache_path_reference home B K "" st HB Hs Hk I).
  - rewrite E. unfold entry. intros H. apply append_inj_l in H.
    apply (f_equal String.length) in H. cbn [String.append String.length] in H.
    rewrite string_length_app in H. cbn [String.length] in H. lia.
Qed.

Lemma etag_path_of_cache_path_witness :
  Ruby.cache_path home "gs://b/x/y" (Ruby.State RubyRun.member (at500 ∅ not_found))
    = (inr "/home/u/.cache/fastgcs/b--x-y",
       Ruby.State RubyRun.member (at500 ∅ not_found)) /\
  Ruby.etag_path "/home/u/.cache/fastgcs/b--x-y" = "/home/u/.cache/fastgcs/.b--x-y.etag" /\
  Ruby.etag_path "/home/u/.cache/fastgcs/b--x-y" <> "/home/u/.cache/fastgcs/b--x-y".
Proof.
  apply (etag_path_of_cache_path home "b" "x/y"
           (Ruby.State RubyRun.member (at500 ∅ not_found)));
    [discriminate | reflexivity | reflexivity].
Defined.

(** X14.  A sidecar name is itself a cache name.  The sidecar of the entry
    of bucket B and key K is the cache path of the reference whose bucket
    is B after a dot and whose key is K followed by ".etag": the ETag of
    the first object and the body of the second have one file name. *)
Theorem sidecar_is_a_cache_path (home B K : string) (st : Ruby.state) :
  B <> "" -> all_chars (is_not slash) B = true -> all_chars (is_not LF) K = true ->
  Ruby.cache_path home ("gs://." ++ B ++ "/" ++ K ++ ".etag") st
  = (inr (Ruby.etag_path (Ruby.CACHE home ++ "/" ++ cache_name B K)), st).
Proof.
  intros HB Hs Hk.
  change (Ruby.CACHE home ++ "/" ++ cache_name B K)
    with (Ruby.CACHE home ++ String slash (cache_name B K)).
  rewrite (etag_path_entry (Ruby.CACHE home) (cache_name B K));
    [| apply rstrip_slash_CACHE | apply (cache_name_proper B K HB Hs)].
  pose proof (cache_path_reference home ("." ++ B) (K ++ ".etag") "" st) as H.
  rewrite append_nil_r in H.
  change ("gs://" ++ ("." ++ B) ++ String slash (K ++ ".etag"))
    with ("gs://." ++ B ++ "/" ++ K ++ ".etag") in H.
  rewrite H.
  - unfold cache_name. rewrite replace_char_app.
    cbn [replace_char]. change (Ascii.eqb slash ".") with false.
    change (Ascii.eqb slash "e") with false. change (Ascii.eqb slash "t") with false.
    change (Ascii.eqb slash "a") with false. change (Ascii.eqb slash "g") with false.
    cbv iota. rewrite !append_assoc. reflexivity.
  - discriminate.
  - exact Hs.
  - rewrite all_chars_app, Hk. reflexivity.
  - exact I.
Qed.

Lemma sidecar_is_a_cache_path_witness :
  Ruby.cache_path home "gs://.b/k.etag" (Ruby.State RubyRun.member (at500 ∅ not_found))
  = (inr (Ruby.etag_path "/home/u/.cache/fastgcs/b--k"),
     Ruby.State RubyRun.member (at500 ∅ not_found)).
Proof.
  apply (sidecar_is_a_cache_path home "b" "k"
           (Ruby.State RubyRun.member (at500 ∅ not_found)));
    [discriminate | reflexivity | reflexivity].
Defined.

(** ** The sources of the token, one by one *)

Local Open Scope list_scope.

Section RubySources.
Variable home : string.
Variable JSON_parse : list ascii -> option Ruby.json.
Variable to_json : Ruby.json -> string.
Variable Time_parse : string -> option Z.
Variable Time_to_s : Z -> string.
Variable scan_access_tokens : list ascii -> list string.

Local Abbreviation CC := (Ruby.CREDENTIAL_CACHE home).
Local Abbreviation DB := (Ruby.ACCESS_TOKENS_DB home).
Local Abbreviation tier1 := (Ruby.try_access_token_from_cache home JSON_parse Time_parse).
Local Abbreviation tier2 :=
  (Ruby.try_access_token_from_gcloud_db home Time_parse scan_access_tokens).
Local Abbreviation tier3 := (Ruby.refresh_access_token JSON_parse to_json).
Local Abbreviation store := (Ruby.update_cache home to_json Time_to_s).
Local Abbreviation cache_record := (Ruby.cache_record to_json Time_to_s).
Local Abbreviation ensure_current_token :=
  (Ruby.ensure_current_token home JSON_parse to_json Time_parse Time_to_s
     scan_access_tokens).

(** One store that can open the file. *)
Lemma update_cache_run (st : Ruby.state) :
  let w := Ruby.env st in
  let doc := bytes (cache_record (Ruby.self st)) in
  match files w !! CC with
  | Some f => writable f = true
  | None => N.testbit (umask w) 7 = false
  end ->
  exists st',
    store st = (inr tt, st') /\
    Ruby.self st' = Ruby.self st /\
    trace (Ruby.env st')
      = trace w ++ store_events (bool_decide (is_Some (files w !! CC))) (umask w) CC doc /\
    content (files (Ruby.env st')) CC = Some doc /\
    clock (Ruby.env st') = clock w.
Proof.
  destruct st as [i w]. cbn [Ruby.env Ruby.self]. intros Hw.
  unfold Ruby.update_cache, Ruby.File_write, Ruby.File_open_w. ruby_unfold.
  unfold open_write at 1.
  destruct (files w !! CC) as [f|] eqn:Hf.
  - rewrite Hw. os_simpl. unfold open_write. os_simpl.
    rewrite !lookup_alter_eq, Hf. os_simpl.
    unfold writable in *. os_simpl. rewrite Hw. os_simpl.
    eexists. split; [reflexivity|]. os_simpl.
    rewrite bool_decide_true by eauto.
    split; [reflexivity|]. split; [now rewrite <- !app_assoc|].
    split; [|reflexivity].
    unfold content. rewrite !lookup_alter_eq, Hf. os_simpl.
    unfold bytes. now rewrite !pwrite_empty, !pwrite_same.
  - os_simpl. unfold open_write. os_simpl.
    rewrite !lookup_alter_eq, lookup_insert_eq. os_simpl.
    rewrite (writable_ldiff _ _ Hw). os_simpl.
    eexists. split; [reflexivity|]. os_simpl.
    rewrite bool_decide_false by (intros [? ?]; discriminate).
    split; [reflexivity|]. split; [now rewrite <- !app_assoc|].
    split; [|reflexivity].
    unfold content. rewrite !lookup_alter_eq, lookup_insert_eq. os_simpl.
    unfold bytes. now rewrite !pwrite_empty, !pwrite_same.
Qed.

(** The second tier, case by case. *)
Lemma try_access_token_from_gcloud_db_eq (i : Ruby.instance) (w : world) :
  tier2 (Ruby.State i w) =
  let s1 := Ruby.State i (emit (EvRead DB) w) in
  match files w !! DB with
  | None => (inl (Ruby.SystemCallError ENOENT), s1)
  | Some f =>
      if readable f then
        let data := scan_access_tokens (data f) in
        if negb (Nat.eqb (length data) 2) then (inr false, s1)
        else
          match Time_parse (nth 1 data "" +:+ " UTC") with
          | None => (inl Ruby.ArgumentError, s1)
          | Some exp =>
              if (clock w <? exp)%Z then
                (inr true,
                 Ruby.State
                   (Ruby.Instance (Ruby.client_id i) (Ruby.client_secret i)
                      (Ruby.refresh_token i) (Some (Ruby.JStr (nth 0 data "")))
                      (Some exp))
                   (emit (EvRead DB) w))
              else (inr false, s1)
          end
      else (inl (Ruby.SystemCallError EACCES), s1)
  end.
Proof.
  unfold Ruby.try_access_token_from_gcloud_db.
  unfold Ruby.bind at 1. rewrite File_read_eq.
  destruct (files w !! DB) as [f|]; [|reflexivity].
  destruct (readable f); [|reflexivity]. cbv zeta.
  destruct (negb (Nat.eqb (length (scan_access_tokens (data f))) 2)); [reflexivity|].
  unfold Ruby.parse_time, Ruby.set_expiry, Ruby.set_token. ruby_unfold.
  destruct (Time_parse _) as [exp|]; [|reflexivity]. ruby_unfold.
  now destruct (clock w <? exp)%Z.
Qed.

(** X15.  The second tier takes the token of the SDK store exactly when
    the store can be read, the scan of its bytes gives exactly two
    strings, a token and a timestamp, the timestamp read as UTC parses,
    and the instant it gives is strictly after the current one; the
    instance then holds that token and that expiry, the credentials stay,
    and the only effect is the one read. *)
Theorem try_access_token_from_gcloud_db_accepts (st st' : Ruby.state) :
  tier2 st = (inr true, st') <->
  exists f tok ts exp,
    files (Ruby.env st) !! DB = Some f /\ readable f = true /\
    scan_access_tokens (data f) = [tok; ts] /\
    Time_parse (ts +:+ " UTC") = Some exp /\
    (clock (Ruby.env st) < exp)%Z /\
    st' = Ruby.State
            (Ruby.Instance (Ruby.client_id (Ruby.self st))
               (Ruby.client_secret (Ruby.self st)) (Ruby.refresh_token (Ruby.self st))
               (Some (Ruby.JStr tok)) (Some exp))
            (emit (EvRead DB) (Ruby.env st)).
Proof.
  destruct st as [i w]. cbn [Ruby.env Ruby.self].
  rewrite try_access_token_from_gcloud_db_eq. cbv zeta. split.
  - destruct (files w !! DB) as [f|]; [|discriminate].
    destruct (readable f) eqn:Hr; [|discriminate].
    destruct (scan_access_tokens (data f)) as [|tok [|ts [|x l]]] eqn:Hs;
      try discriminate.
    cbn [length Nat.eqb negb nth].
    destruct (Time_parse (ts +:+ " UTC")) as [exp|] eqn:Hp; [|discriminate].
    destruct (Z.ltb_spec (clock w) exp) as [Hlt|]; [|discriminate].
    intros [= <-]. exists f, tok, ts, exp. repeat split; auto.
  - intros (f & tok & ts & exp & -> & -> & -> & Hp & Hlt & ->).
    cbn [length Nat.eqb negb nth]. rewrite Hp.
    now apply Z.ltb_lt in Hlt as ->.
Qed.

(** X16.  The second tier has no rescue.  With no current token in memory,
    no token cache file and no SDK store, the resolution raises
    Errno::ENOENT after the two reads, whatever credentials the instance
    holds: the refresh request is never sent and nothing is stored. *)
Theorem ensure_current_token_without_stores (st : Ruby.state) :
  signed_out st ->
  files (Ruby.env st) !! CC = None ->
  files (Ruby.env st) !! DB = None ->
  ensure_current_token st
  = (inl (Ruby.SystemCallError ENOENT),
     Ruby.State (Ruby.self st) (emit (EvRead DB) (emit (EvRead CC) (Ruby.env st)))).
Proof.
  intros Hout Hc Hd.
  rewrite (ensure_current_token_order home JSON_parse to_json Time_parse Time_to_s
             scan_access_tokens st Hout).
  destruct st as [i w]. cbn [Ruby.env Ruby.self] in *.
  rewrite try_access_token_from_cache_eq, Hc. cbv beta iota zeta.
  rewrite try_access_token_from_gcloud_db_eq. os_simpl. rewrite Hd. reflexivity.
Qed.

(** X17.  The refresh exchange.  When the token endpoint answers the
    request built from the three credentials with a complete 200 response
    whose JSON body has an access token and a number of seconds, the third
    tier returns true, the instance holds that token, its expiry is the
    current instant plus those seconds, the credentials stay, and the only
    effect is the one request. *)
Theorem refresh_access_token_grants (i : Ruby.instance) (w : world)
    (resp : response) (obj : Ruby.json) (tok : Ruby.jvalue) (n : Z) :
  server w (Ruby.refresh_request to_json i) = Some resp ->
  intact resp = true -> StatusCode resp = 200%Z ->
  JSON_parse (whole_body resp) = Some obj ->
  assoc "access_token" obj = Some tok ->
  assoc "expires_in" obj = Some (Ruby.JNum n) ->
  tier3 (Ruby.State i w)
  = (inr true,
     Ruby.State
       (Ruby.Instance (Ruby.client_id i) (Ruby.client_secret i) (Ruby.refresh_token i)
          (Some tok) (Some (clock w + n)%Z))
       (emit (EvHTTP (Ruby.refresh_request to_json i)) w)).
Proof.
  intros Hs Hi Hc Hj Ht He.
  unfold Ruby.refresh_access_token, send.
  unfold Ruby.parse_json, Ruby.fetch, Ruby.set_expiry, Ruby.set_token. ruby_unfold.
  rewrite Hs, Hi, Hc. ruby_unfold. rewrite Hj. ruby_unfold.
  rewrite Ht. ruby_unfold. rewrite He. ruby_unfold. reflexivity.
Qed.

(** X18.  A refused refresh.  When the token endpoint does not answer, or
    answers with a status other than 200, the third tier raises, a socket
    error or the HTTP error that carries the status, and the instance,
    token and expiry included, and every file are as before; the request
    is the only effect. *)
Theorem refresh_access_token_refused (i : Ruby.instance) (w : world) :
  match server w (Ruby.refresh_request to_json i) with
  | Some resp => StatusCode resp <> 200%Z
  | None => True
  end ->
  exists e,
    tier3 (Ruby.State i w)
    = (inl e, Ruby.State i (emit (EvHTTP (Ruby.refresh_request to_json i)) w)) /\
    match server w (Ruby.refresh_request to_json i) with
    | Some resp =>
        e = if intact resp then Ruby.HTTPError (StatusCode resp) else Ruby.SocketError
    | None => e = Ruby.SocketError
    end.
Proof.
  intros H. unfold Ruby.refresh_access_token, send. ruby_unfold.
  destruct (server w (Ruby.refresh_request to_json i)) as [resp|]; [|eauto].
  destruct (intact resp); ruby_unfold; [|eauto].
  apply Z.eqb_neq in H. rewrite H. ruby_unfold. eauto.
Qed.

(** X19.  A token response without a lifetime.  The token is assigned
    before the lifetime is looked up: when the 200 response has an access
    token but no "expires_in", the third tier raises the key error with the
    new token already in the instance and the old expiry still there.  When
    that old expiry has passed, the instance still counts as having no
    current token, so the new token is not used without a resolution. *)
Theorem refresh_access_token_without_lifetime (i : Ruby.instance) (w : world)
    (resp : response) (obj : Ruby.json) (tok : Ruby.jvalue) :
  server w (Ruby.refresh_request to_json i) = Some resp ->
  intact resp = true -> StatusCode resp = 200%Z ->
  JSON_parse (whole_body resp) = Some obj ->
  assoc "access_token" obj = Some tok ->
  assoc "expires_in" obj = None ->
  let st' := Ruby.State
               (Ruby.Instance (Ruby.client_id i) (Ruby.client_secret i)
                  (Ruby.refresh_token i) (Some tok) (Ruby.expiry i))
               (emit (EvHTTP (Ruby.refresh_request to_json i)) w) in
  tier3 (Ruby.State i w) = (inl (Ruby.KeyError "expires_in"), st') /\
  (forall e, Ruby.expiry i = Some e -> (e <= clock w)%Z -> signed_out st').
Proof.
  intros Hs Hi Hc Hj Ht He st'. split.
  - unfold Ruby.refresh_access_token, send.
    unfold Ruby.parse_json, Ruby.fetch, Ruby.set_expiry, Ruby.set_token. ruby_unfold.
    rewrite Hs, Hi, Hc. ruby_unfold. rewrite Hj. ruby_unfold.
    rewrite Ht. ruby_unfold. rewrite He. reflexivity.
  - intros e Hex Hle. right. exists e. split; [exact Hex | exact Hle].
Qed.

(** X20.  Reuse of the stored token.  With no current token in memory and
    a token cache file that can be read and rewritten and holds a record
    whose expiry is strictly after the current instant, the resolution
    succeeds with the token and the expiry of the record in the instance;
    its effects are the read of the token cache file and the store that
    rewrites it, so the SDK store is not read and no request is sent; and a
    second resolution right after does nothing at all. *)
Theorem ensure_current_token_reuses_cache (st : Ruby.state)
    (tok : Ruby.jvalue) (exp : Z) (f : file) :
  signed_out st ->
  cache_holds JSON_parse Time_parse (Ruby.env st) CC tok exp ->
  (clock (Ruby.env st) < exp)%Z ->
  files (Ruby.env st) !! CC = Some f -> writable f = true ->
  Ruby.truthy (Some tok) = true ->
  exists st',
    ensure_current_token st = (inr tt, st') /\
    Ruby.token (Ruby.self st') = Some tok /\
    Ruby.expiry (Ruby.self st') = Some exp /\
    trace (Ruby.env st')
      = trace (Ruby.env st) ++ EvRead CC
          :: store_events true (umask (Ruby.env st)) CC
               (bytes (cache_record (Ruby.self st'))) /\
    content (files (Ruby.env st')) CC = Some (bytes (cache_record (Ruby.self st'))) /\
    ensure_current_token st' = (inr tt, st').
Proof.
  intros Hout (f' & d & s & Hf' & Hr & Hd & Ht & He & Hp) Hlt Hf Hw Htr.
  rewrite (ensure_current_token_order home JSON_parse to_json Time_parse Time_to_s
             scan_access_tokens st Hout).
  destruct st as [i w]. cbn [Ruby.env Ruby.self] in *.
  rewrite try_access_token_from_cache_eq, Hf', Hr, Hd, Ht, He, Hp. cbv beta iota zeta.
  pose proof Hlt as Hlt'. apply Z.ltb_lt in Hlt' as ->. cbv beta iota zeta.
  set (i' := Ruby.Instance (Ruby.client_id i) (Ruby.client_secret i)
               (Ruby.refresh_token i) (Some tok) (Some exp)).
  destruct (update_cache_run (Ruby.State i' (emit (EvRead CC) w)))
    as (st' & Hst & Hself & Htrace & Hcont & Hclock).
  { os_simpl. rewrite Hf. congruence. }
  exists st'. rewrite Hst, Hself. cbn [Ruby.self Ruby.env] in *.
  split; [reflexivity|]. split; [reflexivity|]. split; [reflexivity|].
  split; [|split; [exact Hcont|]].
  - rewrite Htrace. os_simpl. rewrite Hf.
    rewrite bool_decide_true by eauto. now rewrite <- app_assoc.
  - apply (ensure_current_token_signed_in home JSON_parse to_json Time_parse Time_to_s
             scan_access_tokens).
    exists exp. rewrite Hself, Hclock. cbn [Ruby.self Ruby.token Ruby.expiry i'].
    repeat split; auto.
Qed.

(** X21.  The whole ladder.  With no current token in memory, no token
    cache file, an SDK store that can be read but whose scan does not give
    two strings, and a token endpoint that grants a token, the resolution
    succeeds: it reads the token cache file, then the SDK store, then
    sends the refresh request, then stores; the instance holds the granted
    token with the current instant plus its lifetime as expiry, and the
    token cache file holds the record of exactly that token and expiry. *)
Theorem ensure_current_token_refreshes (st : Ruby.state) (db : file)
    (resp : response) (obj : Ruby.json) (tok : Ruby.jvalue) (n : Z) :
  let w := Ruby.env st in
  let req := Ruby.refresh_request to_json (Ruby.self st) in
  signed_out st ->
  files w !! CC = None ->
  files w !! DB = Some db -> readable db = true ->
  length (scan_access_tokens (data db)) <> 2 ->
  server w req = Some resp ->
  intact resp = true -> StatusCode resp = 200%Z ->
  JSON_parse (whole_body resp) = Some obj ->
  assoc "access_token" obj = Some tok ->
  assoc "expires_in" obj = Some (Ruby.JNum n) ->
  N.testbit (umask w) 7 = false ->
  exists st',
    ensure_current_token st = (inr tt, st') /\
    Ruby.token (Ruby.self st') = Some tok /\
    Ruby.expiry (Ruby.self st') = Some (clock w + n)%Z /\
    trace (Ruby.env st')
      = trace w ++ [EvRead CC; EvRead DB; EvHTTP req]
          ++ store_events false (umask w) CC (bytes (cache_record (Ruby.self st'))) /\
    content (files (Ruby.env st')) CC = Some (bytes (cache_record (Ruby.self st'))).
Proof.
  intros w req Hout Hc Hd Hr Hlen Hs Hi Hcode Hj Ht He Hum.
  rewrite (ensure_current_token_order home JSON_parse to_json Time_parse Time_to_s
             scan_access_tokens st Hout).
  destruct st as [i w0]. cbn [Ruby.env Ruby.self] in *. subst w.
  rewrite try_access_token_from_cache_eq, Hc. cbv beta iota zeta.
  rewrite try_access_token_from_gcloud_db_eq. os_simpl. rewrite Hd, Hr. cbv beta iota zeta.
  apply Nat.eqb_neq in Hlen. rewrite Hlen. cbn [negb]. cbv beta iota zeta.
  set (i' := Ruby.Instance (Ruby.client_id i) (Ruby.client_secret i)
               (Ruby.refresh_token i) (Some tok) (Some (clock w0 + n)%Z)).
  assert (tier3 (Ruby.State i (emit (EvRead DB) (emit (EvRead CC) w0)))
          = (inr true,
             Ruby.State i' (emit (EvHTTP req) (emit (EvRead DB) (emit (EvRead CC) w0)))))
    as ->.
  { unfold req in *. unfold Ruby.refresh_access_token, send.
    unfold Ruby.parse_json, Ruby.fetch, Ruby.set_expiry, Ruby.set_token. ruby_unfold.
    rewrite Hs, Hi, Hcode. ruby_unfold. rewrite Hj. ruby_unfold.
    rewrite Ht. ruby_unfold. rewrite He. ruby_unfold. reflexivity. }
  cbv beta iota zeta.
  destruct (update_cache_run
              (Ruby.State i' (emit (EvHTTP req) (emit (EvRead DB) (emit (EvRead CC) w0)))))
    as (st' & Hst & Hself & Htrace & Hcont & Hclock).
  { os_simpl. rewrite Hc. exact Hum. }
  exists st'. rewrite Hself. cbn [Ruby.self Ruby.env] in *.
  split; [exact Hst|]. split; [reflexivity|]. split; [reflexivity|].
  split; [|exact Hcont].
  rewrite Htrace. os_simpl. rewrite Hc.
  rewrite bool_decide_false by (intros [? ?]; discriminate).
  now rewrite <- !app_assoc.
Qed.

End RubySources.

(** ** Runs of the sources *)

Lemma ensure_current_token_without_stores_witness :
  let st := Ruby.State RubyRun.credentialed (at500 ∅ (RubyRun.minting RubyRun.grant)) in
  Ruby.ensure_current_token home RubyRun.JSON_parse RubyRun.to_json RubyRun.Time_parse
    RubyRun.Time_to_s RubyRun.no_rows st
  = (inl (Ruby.SystemCallError ENOENT),
     Ruby.State RubyRun.credentialed
       (emit (EvRead RubyRun.sdk_store) (emit (EvRead RubyRun.token_cache) (Ruby.env st)))).
Proof.
  intros st.
  apply (ensure_current_token_without_stores home RubyRun.JSON_parse RubyRun.to_json
           RubyRun.Time_parse RubyRun.Time_to_s RubyRun.no_rows st).
  - left. reflexivity.
  - reflexivity.
  - reflexivity.
Defined.

Lemma refresh_access_token_grants_witness :
  let w := at500 ∅ (RubyRun.minting RubyRun.grant) in
  Ruby.refresh_access_token RubyRun.JSON_parse RubyRun.to_json
    (Ruby.State RubyRun.credentialed w)
  = (inr true,
     Ruby.State
       (Ruby.Instance (Some (Ruby.JStr "id")) (Some (Ruby.JStr "secret"))
          (Some (Ruby.JStr "refresh")) (Some (Ruby.JStr "ya29.new")) (Some 4100%Z))
       (emit (EvHTTP (Ruby.refresh_request RubyRun.to_json RubyRun.credentialed)) w)).
Proof.
  intros w.
  exact (refresh_access_token_grants RubyRun.JSON_parse RubyRun.to_json
           RubyRun.credentialed w (Response 200 [] [bytes RubyRun.grant] true)
           [("access_token", Ruby.JStr "ya29.new"); ("expires_in", Ruby.JNum 3600)]
           (Ruby.JStr "ya29.new") 3600 eq_refl eq_refl eq_refl eq_refl eq_refl eq_refl).
Defined.

Lemma refresh_access_token_refused_witness :
  let w := at500 ∅ not_found in
  exists e,
    Ruby.refresh_access_token RubyRun.JSON_parse RubyRun.to_json
      (Ruby.State RubyRun.credentialed w)
    = (inl e, Ruby.State RubyRun.credentialed
                (emit (EvHTTP (Ruby.refresh_request RubyRun.to_json RubyRun.credentialed))
                      w)) /\
    e = Ruby.HTTPError 404.
Proof.
  intros w.
  apply (refresh_access_token_refused RubyRun.JSON_parse RubyRun.to_json
           RubyRun.credentialed w).
  cbn. discriminate.
Defined.

Lemma refresh_access_token_without_lifetime_witness :
  let w := at500 ∅ (RubyRun.minting RubyRun.bare_grant) in
  let i := Ruby.Instance (Some (Ruby.JStr "id")) (Some (Ruby.JStr "secret"))
             (Some (Ruby.JStr "refresh")) (Some (Ruby.JStr "ya29.old")) (Some 100%Z) in
  let st' := Ruby.State
               (Ruby.Instance (Some (Ruby.JStr "id")) (Some (Ruby.JStr "secret"))
                  (Some (Ruby.JStr "refresh")) (Some (Ruby.JStr "ya29.new"))
                  (Some 100%Z))
               (emit (EvHTTP (Ruby.refresh_request RubyRun.to_json i)) w) in
  Ruby.refresh_access_token RubyRun.JSON_parse RubyRun.to_json (Ruby.State i w)
  = (inl (Ruby.KeyError "expires_in"), st') /\
  signed_out st'.
Proof.
  intros w i st'.
  destruct (refresh_access_token_without_lifetime RubyRun.JSON_parse RubyRun.to_json
              i w (Response 200 [] [bytes RubyRun.bare_grant] true)
              [("access_token", Ruby.JStr "ya29.new")] (Ruby.JStr "ya29.new")
              eq_refl eq_refl eq_refl eq_refl eq_refl eq_refl) as [H1 H2].
  split; [exact H1|]. apply (H2 100%Z eq_refl). cbn. lia.
Defined.

Lemma ensure_current_token_reuses_cache_witness :
  let st := Ruby.State RubyRun.credentialed
              (at500 {[ RubyRun.token_cache := File RubyRun.record mode_0600 ]}
                     not_found) in
  exists st',
    Ruby.ensure_current_token home RubyRun.JSON_parse RubyRun.to_json RubyRun.Time_parse
      RubyRun.Time_to_s RubyRun.no_rows st = (inr tt, st') /\
    Ruby.token (Ruby.self st') = Some (Ruby.JStr "ya29.live") /\
    Ruby.expiry (Ruby.self st') = Some 1000%Z /\
    trace (Ruby.env st')
      = trace (Ruby.env st) ++ EvRead RubyRun.token_cache
          :: store_events true (umask (Ruby.env st)) RubyRun.token_cache
               (bytes (Ruby.cache_record RubyRun.to_json RubyRun.Time_to_s
                         (Ruby.self st'))) /\
    content (files (Ruby.env st')) RubyRun.token_cache
      = Some (bytes (Ruby.cache_record RubyRun.to_json RubyRun.Time_to_s (Ruby.self st'))) /\
    Ruby.ensure_current_token home RubyRun.JSON_parse RubyRun.to_json RubyRun.Time_parse
      RubyRun.Time_to_s RubyRun.no_rows st' = (inr tt, st').
Proof.
  intros st.
  apply (ensure_current_token_reuses_cache home RubyRun.JSON_parse RubyRun.to_json
           RubyRun.Time_parse RubyRun.Time_to_s RubyRun.no_rows st
           (Ruby.JStr "ya29.live") 1000 (File RubyRun.record mode_0600)).
  - left. reflexivity.
  - exists (File RubyRun.record mode_0600),
      [("token", Ruby.JStr "ya29.live"); ("expiry", Ruby.JStr "1000")], "1000"%string.
    repeat split; reflexivity.
  - cbn. lia.
  - reflexivity.
  - reflexivity.
  - reflexivity.
Defined.

Lemma ensure_current_token_refreshes_witness :
  let st := Ruby.State RubyRun.credentialed
              (at500 {[ RubyRun.sdk_store := File [] mode_0600 ]}
                     (RubyRun.minting RubyRun.grant)) in
  exists st',
    Ruby.ensure_current_token home RubyRun.JSON_parse RubyRun.to_json RubyRun.Time_parse
      RubyRun.Time_to_s RubyRun.no_rows st = (inr tt, st') /\
    Ruby.token (Ruby.self st') = Some (Ruby.JStr "ya29.new") /\
    Ruby.expiry (Ruby.self st') = Some 4100%Z /\
    trace (Ruby.env st')
      = trace (Ruby.env st)
          ++ [EvRead RubyRun.token_cache; EvRead RubyRun.sdk_store;
              EvHTTP (Ruby.refresh_request RubyRun.to_json RubyRun.credentialed)]
          ++ store_events false (umask (Ruby.env st)) RubyRun.token_cache
               (bytes (Ruby.cache_record RubyRun.to_json RubyRun.Time_to_s
                         (Ruby.self st'))) /\
    content (files (Ruby.env st')) RubyRun.token_cache
      = Some (bytes (Ruby.cache_record RubyRun.to_json RubyRun.Time_to_s (Ruby.self st'))).
Proof.
  intros st.
  apply (ensure_current_token_refreshes home RubyRun.JSON_parse RubyRun.to_json
           RubyRun.Time_parse RubyRun.Time_to_s RubyRun.no_rows st
           (File [] mode_0600) (Response 200 [] [bytes RubyRun.grant] true)
           [("access_token", Ruby.JStr "ya29.new"); ("expires_in", Ruby.JNum 3600)]
           (Ruby.JStr "ya29.new") 3600); try reflexivity.
  - left. reflexivity.
  - cbn. lia.
Defined.

(** ** The operations of the Ruby class, end to end *)

Lemma FindStringSubmatch_line (B K tail : string) :
  B <> ""%string -> all_chars (is_not slash) B = true ->
  all_chars (is_not LF) K = true ->
  match tail with String x _ => x = LF | EmptyString => True end ->
  FindStringSubmatch LineAnchors gsURLRegexp ("gs://" +:+ B +:+ String slash (K +:+ tail))
  = Some ["gs://" +:+ B +:+ String slash K; B; K].
Proof.
  intros HB Hs Hk Ht. unfold FindStringSubmatch. apply search_here.
  rewrite match_here_gs. now apply gs_here_line.
Qed.

Section RubyOperations.
Variable home : string.
Variable JSON_parse : list ascii -> option Ruby.json.
Variable to_json : Ruby.json -> string.
Variable Time_parse : string -> option Z.
Variable Time_to_s : Z -> string.
Variable scan_credentials : list ascii -> list string.
Variable scan_access_tokens : list ascii -> list string.

Local Abbreviation update_http :=
  (Ruby.update_http home JSON_parse to_json Time_parse Time_to_s scan_access_tokens).
Local Abbreviation update :=
  (Ruby.update home JSON_parse to_json Time_parse Time_to_s scan_access_tokens).
Local Abbreviation read :=
  (Ruby.read home JSON_parse to_json Time_parse Time_to_s scan_access_tokens).
Local Abbreviation cp :=
  (Ruby.cp home JSON_parse to_json Time_parse Time_to_s scan_access_tokens).
Local Abbreviation initialize :=
  (Ruby.initialize home JSON_parse to_json Time_parse Time_to_s scan_credentials
     scan_access_tokens).
Local Abbreviation run_cli :=
  (Ruby.run_cli home JSON_parse to_json Time_parse Time_to_s scan_credentials
     scan_access_tokens).

(** [update] is [update_http] on the cache path of the reference. *)
Lemma update_reference (B K : string) (st : Ruby.state) :
  B <> ""%string -> all_chars (is_not slash) B = true ->
  all_chars (is_not LF) K = true ->
  let url := "gs://" +:+ B +:+ "/" +:+ K in
  let path := Ruby.CACHE home +:+ "/" +:+ cache_name B K in
  update url st =
  match update_http path url st with
  | (inl e, st') => (inl e, st')
  | (inr _, st') => (inr path, st')
  end.
Proof.
  intros HB Hs Hk url path. unfold Ruby.update. unfold Ruby.bind at 1.
  unfold url. rewrite <- (append_nil_r K) at 1.
  change ("gs://" +:+ B +:+ "/" +:+ K +:+ "")
    with ("gs://" +:+ B +:+ String slash (K +:+ "")).
  rewrite (cache_path_reference home B K "" st HB Hs Hk I).
  unfold Ruby.bind, Ruby.ret.
  change (Ruby.CACHE home +:+ String slash (cache_name B K)) with path.
  destruct (update_http path _ st) as [[e|[]] st']; reflexivity.
Qed.


(** X23.  [read] of an object that has not changed.  When the server
    answers 304, [read] leaves every file as it was and returns the bytes
    the cache entry already had; if the entry is gone while its sidecar is
    still there, or the entry cannot be read, [read] raises the error of
    the read and the body is not fetched again. *)
Theorem read_not_modified (B K : string) (st : Ruby.state) (res : response) :
  let url := "gs://" +:+ B +:+ "/" +:+ K in
  let path := Ruby.CACHE home +:+ "/" +:+ cache_name B K in
  let w := Ruby.env st in
  let req := Ruby.storage_request (Ruby.self st) B K (sidecar w path) in
  B <> ""%string -> all_chars (is_not slash) B = true ->
  all_chars (is_not LF) K = true ->
  ready st path ->
  server w req = Some res ->
  StatusCode res = 304%Z ->
  exists st',
    read url st
    = (match files w !! path with
       | Some f => if readable f then inr (data f)
                   else inl (Ruby.SystemCallError EACCES)
       | None => inl (Ruby.SystemCallError ENOENT)
       end, st') /\
    Ruby.self st' = Ruby.self st /\
    files (Ruby.env st') = files w /\
    trace (Ruby.env st')
      = trace w ++ fetch_prologue w path req ++ [EvUnlink (tmpfile w); EvRead path].
Proof.
  intros url path w req HB Hs Hk Hr Hsrv H304.
  unfold Ruby.read. unfold Ruby.bind at 1.
  pose proof (update_reference B K st HB Hs Hk) as Hup. cbv zeta in Hup.
  fold url path in Hup. rewrite Hup. clear Hup.
  pose proof (FindStringSubmatch_line B K "" HB Hs Hk I) as Hm.
  rewrite append_nil_r in Hm.
  change ("gs://" +:+ B +:+ String slash K) with url in Hm.
  destruct (update_http_not_modified home JSON_parse to_json Time_parse Time_to_s
              scan_access_tokens path url st _ res Hr Hm Hsrv H304)
    as (st' & Hu & Hself & Htr & Hf).
  rewrite Hu. destruct st' as [i' w']. cbn [Ruby.self Ruby.env] in *.
  rewrite File_read_eq, Hf. fold w.
  exists (Ruby.State i' (emit (EvRead path) w')). split.
  - destruct (files w !! path) as [f|]; [|reflexivity]. now destruct (readable f).
  - split; [exact Hself|]. os_simpl. split; [exact Hf|].
    rewrite Htr. now rewrite <- !app_assoc.
Qed.

(** X24.  [cp] replaces a destination file.  Once [update] has returned the
    cache path and the entry can be read, [cp] to a path that holds a file
    that can be written leaves in it exactly the bytes of the entry,
    whatever it held before: the file is emptied first and keeps its mode;
    the entry is not changed. *)
Theorem cp_replaces_destination (url dst path : string) (st st1 : Ruby.state)
    (f d : file) :
  update url st = (inr path, st1) ->
  files (Ruby.env st1) !! path = Some f -> readable f = true ->
  dst <> path ->
  files (Ruby.env st1) !! dst = Some d -> writable d = true ->
  exists st2,
    cp url dst st = (inr tt, st2) /\
    Ruby.self st2 = Ruby.self st1 /\
    files (Ruby.env st2) !! dst = Some (File (data f) (mode d)) /\
    files (Ruby.env st2) !! path = Some f.
Proof.
  intros Hu Hf Hr Hne Hdst Hd. unfold Ruby.cp. unfold Ruby.bind at 1. rewrite Hu.
  destruct st1 as [i1 w1]. cbn [Ruby.self Ruby.env] in *.
  unfold Ruby.bind at 1. unfold Ruby.get_env at 1. cbn [Ruby.env].
  unfold Ruby.bind at 1. rewrite File_read_eq, Hf, Hr.
  unfold Ruby.File_open_w. ruby_unfold. unfold open_write. os_simpl.
  rewrite Hdst, Hd. os_simpl. eexists. split; [reflexivity|]. split; [reflexivity|].
  os_simpl. rewrite !lookup_alter_eq, !lookup_alter_ne, Hdst, Hf by auto.
  os_simpl. now rewrite pwrite_empty.
Qed.

(** X25.  Construction needs the credentials database.  [initialize]
    first calls [FileUtils.mkdir_p] on the cache directory.  When that
    raises, [initialize] raises the same exception and nothing else has
    happened.  When it returns and the credentials database is missing,
    [initialize] raises Errno::ENOENT after the one attempt to read it: the
    token is not resolved, so a valid token cache on the same machine is of
    no use, and apart from the making of the directory nothing is written
    or sent. *)
Theorem initialize_without_credentials (st : Ruby.state) :
  files (Ruby.env st) !! Ruby.CREDENTIALS_DB home = None ->
  let blank := Ruby.Instance None None None None None in
  match Ruby.FileUtils_mkdir_p (Ruby.CACHE home) (Ruby.State blank (Ruby.env st)) with
  | (inl e, st1) => initialize st = (inl e, st1)
  | (inr _, st1) =>
      Ruby.env st1 = emit (EvMkdir (Ruby.CACHE home)) (Ruby.env st) /\
      initialize st
      = (inl (Ruby.SystemCallError ENOENT),
         Ruby.State blank (emit (EvRead (Ruby.CREDENTIALS_DB home)) (Ruby.env st1)))
  end.
Proof.
  intros H blank. destruct st as [i w]. cbn [Ruby.env] in *.
  unfold Ruby.initialize, Ruby.load_credentials, Ruby.FileUtils_mkdir_p. ruby_unfold.
  cbn [Ruby.env Ruby.self emit files apply].
  destruct (files w !! Ruby.CACHE home); [reflexivity|].
  split; [reflexivity|].
  rewrite File_read_eq. cbn [Ruby.env emit files apply]. now rewrite H.
Qed.

(** X26.  The command line.  Unless the arguments are "cat" with one
    reference or "cp" with a reference and a path, [run_cli] ends with the
    usage text and does nothing else: no instance is built, no file is
    read and no request is sent. *)
Theorem run_cli_usage (argv : list string) (st : Ruby.state) :
  (forall u, argv <> ["cat"; u]%string) ->
  (forall u d, argv <> ["cp"; u; d]%string) ->
  run_cli argv st = (inr Ruby.Usage, st).
Proof.
  intros Hcat Hcp. unfold Ruby.run_cli, Ruby.rescue_UsageError.
  destruct argv as [|cmd args]; [reflexivity|].
  destruct (String.eqb_spec cmd "cat") as [->|_].
  - destruct args as [|u [|x l]]; try reflexivity. now destruct (Hcat u).
  - destruct (String.eqb_spec cmd "cp") as [->|_]; [|reflexivity].
    destruct args as [|u [|d [|x l]]]; try reflexivity. now destruct (Hcp u d).
Qed.

End RubyOperations.

(** ** Runs of the operations *)

Ltac distinct_paths := let H := fresh in intros H; vm_compute in H; discriminate H.


Lemma read_not_modified_witness :
  let fs := <[ Ruby.etag_path object_path := File (bytes "v1") mode_0644 ]>
              (cached "hello") in
  let st := Ruby.State RubyRun.member (at500 fs (serving [bytes "hello"] "v1")) in
  exists st',
    Ruby.read home RubyRun.JSON_parse RubyRun.to_json RubyRun.Time_parse
      RubyRun.Time_to_s RubyRun.no_rows "gs://b/k" st
    = (inr (bytes "hello"), st') /\
    Ruby.self st' = RubyRun.member /\
    files (Ruby.env st') = fs /\
    trace (Ruby.env st')
      = [EvRead (Ruby.etag_path object_path);
         EvCreat "/tmp/d20211012-1-abc/file" mode_0644;
         EvHTTP (Ruby.storage_request RubyRun.member "b" "k" (Some "v1"%string));
         EvUnlink "/tmp/d20211012-1-abc/file";
         EvRead object_path].
Proof.
  intros fs st.
  apply (read_not_modified home RubyRun.JSON_parse RubyRun.to_json RubyRun.Time_parse
           RubyRun.Time_to_s RubyRun.no_rows "b" "k" st (Response 304 [] [] true));
    try reflexivity.
  - discriminate.
  - split; [exists 1000%Z; repeat split; reflexivity|].
    split; [reflexivity|]. repeat split; try distinct_paths; reflexivity.
Defined.

Lemma cp_replaces_destination_witness :
  let fs := <[ "/tmp/out"%string := File (bytes "0123456789") mode_0600 ]>
              (<[ Ruby.etag_path object_path := File (bytes "v1") mode_0644 ]>
                 (cached "new")) in
  let st := Ruby.State RubyRun.member (at500 fs (serving [bytes "new"] "v1")) in
  exists st2,
    Ruby.cp home RubyRun.JSON_parse RubyRun.to_json RubyRun.Time_parse
      RubyRun.Time_to_s RubyRun.no_rows "gs://b/k" "/tmp/out" st = (inr tt, st2) /\
    Ruby.self st2 = RubyRun.member /\
    files (Ruby.env st2) !! "/tmp/out"%string = Some (File (bytes "new") mode_0600) /\
    files (Ruby.env st2) !! object_path = Some (File (bytes "new") mode_0644).
Proof.
  intros fs st.
  apply (cp_replaces_destination home RubyRun.JSON_parse RubyRun.to_json
           RubyRun.Time_parse RubyRun.Time_to_s RubyRun.no_rows
           "gs://b/k" "/tmp/out" object_path st
           (snd (Ruby.update home RubyRun.JSON_parse RubyRun.to_json RubyRun.Time_parse
                   RubyRun.Time_to_s RubyRun.no_rows "gs://b/k" st))
           (File (bytes "new") mode_0644) (File (bytes "0123456789") mode_0600)).
  - vm_compute. reflexivity.
  - vm_compute. reflexivity.
  - reflexivity.
  - discriminate.
  - vm_compute. reflexivity.
  - reflexivity.
Defined.

Lemma initialize_without_credentials_witness :
  let w := at500 {[ RubyRun.token_cache := File RubyRun.record mode_0600 ]} not_found in
  Ruby.initialize home RubyRun.JSON_parse RubyRun.to_json RubyRun.Time_parse
    RubyRun.Time_to_s RubyRun.no_rows RubyRun.no_rows (Ruby.State RubyRun.member w)
  = (inl (Ruby.SystemCallError ENOENT),
     Ruby.State (Ruby.Instance None None None None None)
       (emit (EvRead (Ruby.CREDENTIALS_DB home)) (emit (EvMkdir (Ruby.CACHE home)) w))).
Proof.
  intros w.
  exact (proj2 (initialize_without_credentials home RubyRun.JSON_parse RubyRun.to_json
                  RubyRun.Time_parse RubyRun.Time_to_s RubyRun.no_rows RubyRun.no_rows
                  (Ruby.State RubyRun.member w) eq_refl)).
Defined.

Lemma run_cli_usage_witness :
  let st := Ruby.State RubyRun.member (at500 ∅ not_found) in
  Ruby.run_cli home RubyRun.JSON_parse RubyRun.to_json RubyRun.Time_parse
    RubyRun.Time_to_s RubyRun.no_rows RubyRun.no_rows ["cat"; "gs://b/k"; "extra"]%string st
  = (inr Ruby.Usage, st).
Proof.
  intros st.
  apply (run_cli_usage home RubyRun.JSON_parse RubyRun.to_json RubyRun.Time_parse
           RubyRun.Time_to_s RubyRun.no_rows RubyRun.no_rows
           ["cat"; "gs://b/k"; "extra"]%string st); discriminate.
Defined.

(** * Whole calls and broken downloads *)





Section RubyBroken.
Variable home : string.
Variable JSON_parse : list ascii -> option Ruby.json.
Variable to_json : Ruby.json -> string.
Variable Time_parse : string -> option Z.
Variable Time_to_s : Z -> string.
Variable scan_access_tokens : list ascii -> list string.

(** X29.  A download that breaks in the Ruby class.  When the body of a
    200 response ends before it is complete, or the response carries no
    ETag, nothing is promoted: the temporary file is removed and every
    file, the cache entry and its sidecar included, is as it was before
    the call; a broken body raises the socket error. *)
Theorem update_http_broken_body (path url : string) (st : Ruby.state)
    (m : list string) (res : response) :
  let w := Ruby.env st in
  let req := Ruby.storage_request (Ruby.self st) (submatch m 1) (submatch m 2)
               (sidecar w path) in
  ready st path ->
  FindStringSubmatch LineAnchors gsURLRegexp url = Some m ->
  server w req = Some res ->
  StatusCode res = 200%Z ->
  intact res = false \/ header "ETag" (resp_headers res) = None ->
  exists st',
    Ruby.update_http home JSON_parse to_json Time_parse Time_to_s scan_access_tokens
      path url st
    = (if intact res then inr tt else inl Ruby.SocketError, st') /\
    Ruby.self st' = Ruby.self st /\
    files (Ruby.env st') = files w.
Proof.
  intros w req Hr Hm Hs H200 Hbad.
  rewrite (update_http_eq home JSON_parse to_json Time_parse Time_to_s
             scan_access_tokens path url st m Hr Hm). cbv zeta. fold w req.
  rewrite Hs, H200. cbn [Z.eqb Pos.eqb].
  destruct Hr as (_ & Htmp & _). fold w in Htmp.
  assert (files (run_events
                   (fetch_prologue w path req
                      ++ (early w (chunks res) ++ late (tmpfile w) (chunks res))
                      ++ [EvUnlink (tmpfile w)]) w) = files w) as E.
  { apply discard_files; [exact Htmp|]. apply Forall_app. split.
    - apply io_writes_events.
    - apply late_writes. }
  rewrite <- app_assoc in E.
  destruct (intact res).
  - destruct Hbad as [Hbad|Hbad]; [discriminate|]. rewrite Hbad.
    eexists. split; [reflexivity|]. split; [reflexivity|exact E].
  - eexists. split; [reflexivity|]. split; [reflexivity|exact E].
Qed.

End RubyBroken.

Lemma update_http_broken_body_witness :
  let cut (_ : request) := Some (Response 200 [("ETag", "v2")] [bytes "hel"] false) in
  let fs := <[ Ruby.etag_path object_path := File (bytes "v1") mode_0644 ]>
              (cached "old") in
  let st := Ruby.State RubyRun.member (at500 fs cut) in
  exists st',
    Ruby.update_http home RubyRun.JSON_parse RubyRun.to_json RubyRun.Time_parse
      RubyRun.Time_to_s RubyRun.no_rows object_path "gs://b/k" st
    = (inl Ruby.SocketError, st') /\
    Ruby.self st' = RubyRun.member /\
    files (Ruby.env st') = fs.
Proof.
  intros cut fs st.
  apply (update_http_broken_body home RubyRun.JSON_parse RubyRun.to_json
           RubyRun.Time_parse RubyRun.Time_to_s RubyRun.no_rows object_path "gs://b/k" st
           ["gs://b/k"; "b"; "k"]%string
           (Response 200 [("ETag", "v2")] [bytes "hel"] false));
    try reflexivity.
  - split; [exists 1000%Z; repeat split; reflexivity|].
    split; [reflexivity|]. repeat split; try distinct_paths; reflexivity.
  - left. reflexivity.
Defined.

(** * The two ports on one machine *)

Lemma split_rooted (c : string) (r : list string) :
  all_chars (is_not slash) c = true ->
  Forall (fun x => all_chars (is_not slash) x = true) r ->
  split slash (c +:+ rooted_at r) = c :: r.
Proof.
  intros Hc Hr. revert c Hc. induction Hr as [|c' r Hc' Hr IH]; intros c Hc.
  - cbn [rooted_at]. rewrite append_nil_r. now apply split_no_sep.
  - cbn [rooted_at]. change ("/" +:+ c' +:+ rooted_at r)
      with (String slash (c' +:+ rooted_at r)).
    rewrite split_app, (split_no_sep _ _ Hc), (IH c' Hc'). reflexivity.
Qed.

Lemma clean_step_component (rooted : bool) (out : list string) (c : string) :
  component c -> clean_step rooted out c = c :: out.
Proof.
  intros (H0 & H1 & H2 & _). unfold clean_step.
  destruct (String.eqb_spec c ""); [congruence|].
  destruct (String.eqb_spec c "."); [congruence|].
  destruct (String.eqb_spec c ".."); [congruence|]. reflexivity.
Qed.

Lemma fold_clean_components (rooted : bool) (cs out : list string) :
  Forall component cs -> fold_left (clean_step rooted) cs out = rev cs ++ out.
Proof.
  intros H. revert out. induction H as [|c cs Hc Hcs IH]; intros out; [reflexivity|].
  cbn [fold_left rev]. rewrite (clean_step_component _ _ _ Hc), IH.
  now rewrite <- app_assoc.
Qed.

Lemma join_rooted (cs : list string) :
  cs <> [] -> "/" +:+ join "/" cs = rooted_at cs.
Proof.
  induction cs as [|c r IH]; [congruence|]. intros _.
  destruct r as [|c' r].
  - cbn [join rooted_at]. now rewrite append_nil_r.
  - change (join "/" (c :: c' :: r)) with (c +:+ "/" +:+ join "/" (c' :: r)).
    cbn [rooted_at] in *. rewrite <- IH by discriminate. reflexivity.
Qed.

Lemma rooted_at_app (a b : list string) :
  rooted_at (a ++ b) = rooted_at a +:+ rooted_at b.
Proof.
  induction a as [|c a IH]; [reflexivity|]. cbn [app rooted_at]. rewrite IH.
  now rewrite !append_assoc.
Qed.

(** Cleaning an absolute path of proper elements changes nothing. *)
Lemma Clean_rooted (cs : list string) :
  cs <> [] -> Forall component cs -> Clean (rooted_at cs) = rooted_at cs.
Proof.
  intros Hne Hcs. destruct cs as [|c r]; [congruence|].
  assert (Forall (fun x => all_chars (is_not slash) x = true) (c :: r)) as Hs.
  { eapply Forall_impl; [exact Hcs|]. now intros x (_ & _ & _ & H). }
  cbn [rooted_at]. change ("/" +:+ c +:+ rooted_at r)
    with (String slash (c +:+ rooted_at r)).
  unfold Clean. rewrite Ascii.eqb_refl. cbn [split]. rewrite Ascii.eqb_refl.
  inversion Hs as [|? ? Hc Hr]; subst.
  rewrite (split_rooted c r Hc Hr).
  change (fold_left (clean_step true) ("" :: c :: r) [])
    with (fold_left (clean_step true) (c :: r) []).
  rewrite (fold_clean_components true (c :: r) [] Hcs), app_nil_r, rev_involutive.
  rewrite (join_rooted (c :: r)) by discriminate. reflexivity.
Qed.

Lemma rooted_at_nonempty (cs : list string) :
  cs <> [] -> String.eqb (rooted_at cs) "" = false.
Proof. destruct cs; [congruence | reflexivity]. Qed.

Lemma component_nonempty (c : string) : component c -> String.eqb c "" = false.
Proof. intros [H _]. now destruct (String.eqb_spec c ""). Qed.

(** Joining proper elements onto such a path appends them. *)
Lemma filepath_Join_rooted (cs es : list string) :
  cs <> [] -> Forall component cs -> Forall component es ->
  filepath_Join (rooted_at cs :: es) = rooted_at (cs ++ es).
Proof.
  intros Hne Hcs Hes. unfold filepath_Join. cbn [List.filter].
  rewrite (rooted_at_nonempty cs Hne). cbn [negb].
  assert (List.filter (fun e => negb (String.eqb e "")) es = es) as ->.
  { induction Hes as [|e es He Hes IH]; [reflexivity|]. cbn [List.filter].
    now rewrite (component_nonempty e He), IH. }
  assert (join "/" (rooted_at cs :: es) = rooted_at (cs ++ es)) as ->.
  { rewrite rooted_at_app. clear Hes. induction es as [|e es IH].
    - cbn [join rooted_at]. now rewrite append_nil_r.
    - destruct es as [|e' es].
      + cbn [join rooted_at]. now rewrite append_nil_r.
      + change (join "/" (rooted_at cs :: e :: e' :: es))
          with (rooted_at cs +:+ "/" +:+ join "/" (e :: e' :: es)).
        change (join "/" (rooted_at cs :: e' :: es))
          with (rooted_at cs +:+ "/" +:+ join "/" (e' :: es)) in IH.
        apply append_inj_l in IH. cbn [rooted_at] in *.
        change (join "/" (e :: e' :: es)) with (e +:+ "/" +:+ join "/" (e' :: es)).
        now rewrite IH. }
  apply Clean_rooted.
  - destruct cs; [congruence | discriminate].
  - apply Forall_app. now split.
Qed.

Lemma proper_name_component (n : string) : proper_name n -> component n.
Proof.
  intros [Hs Hl]. repeat split; auto; intros ->; simpl in Hl; lia.
Qed.

(** X30.  The Go package and the Ruby class on the same machine.  For a
    home directory that is an absolute path of proper elements, the
    instance [New] makes and the Ruby class name the same files: the cache
    entry of every reference both accept is the file named by bucket, two
    dashes and dashed key under the home's .cache/fastgcs, and the token
    cache file that [ensureCurrentToken] reads is the one that
    [update_cache] writes. *)
Theorem ports_share_paths (cs : list string) (B K : string) (f : Go.fastGCS)
    (st : Ruby.state) :
  cs <> [] -> Forall component cs ->
  B <> ""%string -> all_chars (is_not slash) B = true ->
  all_chars (is_not LF) K = true ->
  let h := rooted_at cs in
  let url := "gs://" +:+ B +:+ "/" +:+ K in
  let entry := h +:+ "/.cache/fastgcs/" +:+ cache_name B K in
  Go.New (Some h) = (Some f, None) ->
  Go.cachePath f url = (entry, None) /\
  Ruby.cache_path h url st = (inr entry, st) /\
  filepath_Join [Go.gcloudConfigDir f; Go.credentialsCacheBasename]
    = Ruby.CREDENTIAL_CACHE h.
Proof.
  intros Hne Hcs HB Hs Hk h url entry [= <-].
  assert (component ".cache" /\ component "fastgcs" /\ component ".config" /\
          component "gcloud" /\ component Go.credentialsCacheBasename)
    as (C1 & C2 & C3 & C4 & C5)
    by (repeat split; discriminate).
  pose proof (proper_name_component _ (cache_name_proper B K HB Hs)) as Cn.
  assert (forall a b, component a -> component b ->
            forall n, component n ->
              filepath_Join [filepath_Join [h; a; b]; n]
              = h +:+ "/" +:+ a +:+ "/" +:+ b +:+ "/" +:+ n) as J.
  { intros a b Ca Cb n Cn'. unfold h.
    assert (Forall component [a; b]) as Hab
      by (constructor; [exact Ca | constructor; [exact Cb | constructor]]).
    assert (Forall component [n]) as Hn by (constructor; [exact Cn' | constructor]).
    rewrite (filepath_Join_rooted cs [a; b] Hne Hcs Hab).
    rewrite (filepath_Join_rooted (cs ++ [a; b]) [n]).
    - rewrite !rooted_at_app. cbn [rooted_at]. rewrite !append_nil_r.
      now rewrite !append_assoc.
    - destruct cs; [congruence | discriminate].
    - apply Forall_app. now split.
    - exact Hn. }
  split; [|split].
  - unfold Go.cachePath.
    assert (reference B K url) as Href by (repeat split; auto).
    rewrite (parseGSURL_valid B K url Href). cbn [Go.cacheRoot].
    change (B +:+ "--" +:+ replace_char slash dash K) with (cache_name B K).
    rewrite (J ".cache" "fastgcs" C1 C2 _ Cn). reflexivity.
  - unfold url. rewrite <- (append_nil_r K) at 1.
    change ("gs://" +:+ B +:+ "/" +:+ K +:+ "")
      with ("gs://" +:+ B +:+ String slash (K +:+ "")).
    rewrite (cache_path_reference h B K "" st HB Hs Hk I).
    unfold entry, Ruby.CACHE. now rewrite !append_assoc.
  - cbn [Go.gcloudConfigDir]. rewrite (J ".config" "gcloud" C3 C4 _ C5).
    unfold Ruby.CREDENTIAL_CACHE, Go.credentialsCacheBasename. reflexivity.
Qed.

Lemma ports_share_paths_witness :
  Go.cachePath fresh "gs://b/x/y" = ("/home/u/.cache/fastgcs/b--x-y"%string, None) /\
  Ruby.cache_path home "gs://b/x/y" (Ruby.State RubyRun.member (at500 ∅ not_found))
    = (inr "/home/u/.cache/fastgcs/b--x-y"%string,
       Ruby.State RubyRun.member (at500 ∅ not_found)) /\
  filepath_Join [Go.gcloudConfigDir fresh; Go.credentialsCacheBasename]
    = Ruby.CREDENTIAL_CACHE home.
Proof.
  apply (ports_share_paths ["home"; "u"]%string "b" "x/y" fresh
           (Ruby.State RubyRun.member (at500 ∅ not_found)));
    try reflexivity; try discriminate.
  repeat constructor; discriminate.
Defined.
